(** * nianalysis: the Pipeline class of [nianalysis/pipeline.py]

    A shallow embedding of [Pipeline] (construction, wiring of inputs and
    outputs, selection of the sessions to process, construction of the
    subject/visit iterators and connection to the archive together with
    the prerequisite pipelines) and the properties of it that the design
    document states.

    The classes the module imports but does not define (the study, the
    dataset specs, the archive and its project/subject/session tree, the
    nipype workflow) appear as records holding the attributes and methods
    that [pipeline.py] reads. *)

From stdpp Require Import base decidable option list gmap sets strings pretty
  fin_maps fin_sets countable.

(** ** Values shared by all parts *)

(** [dataset.multiplicity]: one of the four strings 'per_session',
    'per_subject', 'per_visit' and 'per_project' (docstring of
    [Pipeline.outputnode]).  The [else: assert False] arm of
    [_sessions_to_process] is for strings outside this enumeration. *)
Inductive multiplicity : Set :=
  | per_session
  | per_subject
  | per_visit
  | per_project.

#[global] Instance multiplicity_eq_dec : EqDecision multiplicity.
Proof. solve_decision. Defined.

Definition multiplicity_to_nat (m : multiplicity) : nat :=
  match m with
  | per_session => 0
  | per_subject => 1
  | per_visit => 2
  | per_project => 3
  end.

Definition multiplicity_of_nat (n : nat) : option multiplicity :=
  match n with
  | 0 => Some per_session
  | 1 => Some per_subject
  | 2 => Some per_visit
  | 3 => Some per_project
  | _ => None
  end.

#[global] Instance multiplicity_countable : Countable multiplicity.
Proof.
  apply (inj_countable multiplicity_to_nat multiplicity_of_nat).
  by intros [].
Defined.

(** The string a multiplicity is written as ('{}_outputnode'.format(mult)). *)
Definition multiplicity_str (m : multiplicity) : string :=
  match m with
  | per_session => "per_session"
  | per_subject => "per_subject"
  | per_visit => "per_visit"
  | per_project => "per_project"
  end.

(** The [reprocess] argument: [False], [True] or the string 'all'. *)
Inductive reprocess_flag : Set :=
  | RFalse
  | RTrue
  | RAll.

#[global] Instance reprocess_flag_eq_dec : EqDecision reprocess_flag.
Proof. solve_decision. Defined.

(** Python truth value of the flag ([if reprocess:]). *)
Definition truthy (r : reprocess_flag) : bool :=
  match r with
  | RFalse => false
  | RTrue | RAll => true
  end.

(** A dataset spec as listed in a pipeline's [inputs] and [outputs]:
    a name and the format the pipeline needs it in. *)
Record DatasetSpec : Set := mkDatasetSpec {
  spec_name : string;
  spec_format : string
}.

#[global] Instance DatasetSpec_eq_dec : EqDecision DatasetSpec.
Proof. solve_decision. Defined.

(** What [study.dataset(x)] and [study.dataset_spec(x)] return, with the
    attributes that the pipeline reads. [pipeline] names the method of the
    study that builds the producing pipeline. *)
Record Dataset : Set := mkDataset {
  dataset_name : string;
  dataset_format : string;
  dataset_multiplicity : multiplicity;
  processed : bool;
  pipeline : string;
  prefixed_name : string
}.

(** ** The project tree returned by the archive *)

(** [session.id] is the visit id; [session.subject.id] is kept as
    [session_subject]. *)
Record Session : Set := mkSession {
  session_id : string;
  session_subject : string;
  session_dataset_names : list string
}.

#[global] Instance Session_eq_dec : EqDecision Session.
Proof. solve_decision. Defined.

Record Subject : Set := mkSubject {
  subject_id : string;
  subject_sessions : list Session;
  subject_dataset_names : list string
}.

Record Project : Set := mkProject {
  project_subjects : list Subject;
  project_dataset_names : list string
}.

(** ** Selection of the sessions to process *)

(** [all_sessions]: the sessions of all subjects, chained in order. *)
Definition all_sessions (project : Project) : list Session :=
  mjoin (subject_sessions <$> project_subjects project).

(** The local function [filter_sessions] of [_sessions_to_process]. *)
Definition filter_sessions (visit_ids : option (list string))
    (sessions : list Session) : list Session :=
  match visit_ids with
  | None => sessions
  | Some ids => filter (λ s, session_id s ∈ ids) sessions
  end.

(** [sessions_to_process.update(xs)] on a Python set, kept as a list
    without duplicates; the order of a Python set is unspecified and no
    statement below depends on it. *)
Definition set_update (acc xs : list Session) : list Session :=
  remove_dups (acc ++ xs).

(** Sessions of the subjects whose own dataset names lack [name]. *)
Definition sessions_of_subjects_lacking (project : Project)
    (visit_ids : option (list string)) (name : string) : list Session :=
  mjoin ((λ sub, filter_sessions visit_ids (subject_sessions sub)) <$>
          filter (λ sub, name ∉ subject_dataset_names sub)
                 (project_subjects project)).

(** Sessions whose own dataset names lack [name]. *)
Definition sessions_lacking (project : Project)
    (visit_ids : option (list string)) (name : string) : list Session :=
  filter_sessions visit_ids
    (filter (λ s, name ∉ session_dataset_names s) (all_sessions project)).

(** The [for output in self.outputs] loop, with [sessions_to_process] as
    accumulator. A missing per_project output leaves the loop with
    [return all_sessions]. *)
Fixpoint outputs_loop (dataset : string → Dataset) (project : Project)
    (visit_ids : option (list string)) (outputs : list DatasetSpec)
    (sessions_to_process : list Session) : list Session :=
  match outputs with
  | [] => sessions_to_process
  | output :: rest =>
    let d := dataset (spec_name output) in
    match dataset_multiplicity d with
    | per_project =>
      if decide (prefixed_name d ∈ project_dataset_names project)
      then outputs_loop dataset project visit_ids rest sessions_to_process
      else all_sessions project
    | per_subject | per_visit =>
      outputs_loop dataset project visit_ids rest
        (set_update sessions_to_process
           (sessions_of_subjects_lacking project visit_ids (prefixed_name d)))
    | per_session =>
      outputs_loop dataset project visit_ids rest
        (set_update sessions_to_process
           (sessions_lacking project visit_ids (prefixed_name d)))
    end
  end.

(** [Pipeline._sessions_to_process]; [outputs] is [self.outputs] and
    [dataset] is [self.study.dataset]. *)
Definition _sessions_to_process (dataset : string → Dataset)
    (outputs : list DatasetSpec) (project : Project)
    (visit_ids : option (list string)) (reprocess : reprocess_flag)
    : list Session :=
  if truthy reprocess then all_sessions project
  else outputs_loop dataset project visit_ids outputs [].

(** ** The subject and visit iterators *)

(** The values of [node.iterables]: a flat list (or tuple) of ids, or, for a
    node that has an [itersource], a dict from the value of the source
    field to the list of ids to iterate over for it. *)
Inductive iterable_values : Type :=
  | values_flat (ids : list string)
  | values_by_source (ids : gmap string (list string)).

(** [session_subjects]: for each visit id, the ids of the subjects that
    have a session of that visit ([defaultdict(set)]). *)
Definition session_subjects (sessions_to_process : list Session)
    : gmap string (gset string) :=
  foldl (λ m session,
           <[session_id session :=
               default ∅ (m !! session_id session) ∪ {[session_subject session]}]> m)
        ∅ sessions_to_process.

(** [subject_sessions]: for each subject id, its visit ids in the order of
    [sessions_to_process] ([defaultdict(list)]). *)
Definition subject_sessions_of (sessions_to_process : list Session)
    : gmap string (list string) :=
  foldl (λ m session,
           <[session_subject session :=
               default [] (m !! session_subject session) ++ [session_id session]]> m)
        ∅ sessions_to_process.

Definition subject_ids_to_process (sessions_to_process : list Session)
    : gset string :=
  list_to_set (session_subject <$> sessions_to_process).

(** [all(ss == subject_ids_to_process for ss in session_subjects.itervalues())] *)
Definition visits_uniform (sessions_to_process : list Session) : bool :=
  bool_decide (map_Forall
    (λ _ ss, ss = subject_ids_to_process sessions_to_process)
    (session_subjects sessions_to_process)).

(** The [iterables] and [itersource] that [_subject_and_session_iterators]
    gives to the [sessions] node of the pipeline called [name]. *)
Definition sessions_binding (name : string)
    (sessions_to_process : list Session)
    : (string * iterable_values) * option (string * string) :=
  if visits_uniform sessions_to_process
  then (("visit_id",
         values_flat ((map_to_list (session_subjects sessions_to_process)).*1)),
        None)
  else (("visit_id",
         values_by_source (subject_sessions_of sessions_to_process)),
        Some (name +:+ "_subjects", "subject_id")).

(** The [iterables] of the [subjects] node. *)
Definition subjects_binding (sessions_to_process : list Session)
    : string * iterable_values :=
  ("subject_id",
   values_flat (elements (subject_ids_to_process sessions_to_process))).

(** ** Exceptions *)

Inductive exn : Set :=
  | NiAnalysisError (msg : string)
  | NiAnalysisMissingDatasetError (msg : string)
  | AssertionError (msg : string)
  | NameError (msg : string)
  | TypeError (msg : string)
  | KeyError (key : string)
  | RuntimeError (msg : string)
  | NiAnalysisDatasetNameError (msg : string)
  | AttributeError (msg : string).

(** A call either returns a value or raises. *)
Inductive result (A : Type) : Type :=
  | Ok (a : A)
  | Raise (e : exn).
Arguments Ok {A} a.
Arguments Raise {A} e.

Definition result_bind {A B : Type} (r : result A) (k : A → result B)
    : result B :=
  match r with
  | Ok a => k a
  | Raise e => Raise e
  end.

Notation "x ←r e1 ; e2" := (result_bind e1 (λ x, e2))
  (at level 100, e1 at next level, e2 at level 200, right associativity).

Definition raised {A : Type} (r : result A) : Prop :=
  match r with
  | Ok _ => False
  | Raise _ => True
  end.

(** ** The study *)

(** The attributes and methods of the study that the pipeline reads.
    [archive_project] and [archive_source] are the two methods of
    [study.archive] whose result the pipeline depends on: the project tree
    for the given subject and visit filters, and whether building the source
    raises NiAnalysisMissingDatasetError (with its message) for the given
    input datasets. *)
Record Study : Type := mkStudy {
  study_name : string;
  project_id : string;
  dataset_spec_names : list string;
  dataset_spec : string → Dataset;
  dataset : string → Dataset;
  archive_project : option (list string) → option (list string) → Project;
  archive_source : list Dataset → option string
}.

(** ** The pipeline object *)

(** The workflow wrapped by one pipeline: its nodes and connections, by
    node name. *)
Record Workflow : Set := mkWorkflow {
  wf_nodes : list string;
  wf_connections : list (string * string * string * string)
}.

Definition wf_add_node (w : Workflow) (n : string) : Workflow :=
  mkWorkflow (wf_nodes w ++ [n]) (wf_connections w).

(** [workflow.connect(src, src_field, dst, dst_field)] *)
Definition wf_connect (w : Workflow) (src src_field dst dst_field : string)
    : Workflow :=
  mkWorkflow (wf_nodes w) (wf_connections w ++ [(src, src_field, dst, dst_field)]).

(** [iterfields = ('subject_id', 'visit_id')] *)
Definition iterfields : list string := ["subject_id"; "visit_id"].

Section pipeline.

(** The values of the options are arbitrary Python values, compared
    with [==]. *)
Context {V : Type} `{!EqDecision V}.

(** The instance attributes. [_study] holds the name of the study the
    pipeline was created from; the study itself is passed to the
    functions that read it. *)
Record Pipeline : Type := mkPipeline {
  _name : string;
  _study : string;
  _workflow : Workflow;
  _version : Z;
  _inputs : list DatasetSpec;
  _inputnode : string;
  _outputs : gmap multiplicity (list DatasetSpec);
  _outputnodes : gmap multiplicity string;
  _unconnected_inputs : gset string;
  _unconnected_outputs : gset string;
  _citations : list string;
  _default_options : gmap string V;
  _options : gmap string V;
  _description : string
}.

(** [self.inputs], [self.outputs], [self.input_names], [self.output_names] *)
Definition inputs (self : Pipeline) : list DatasetSpec := _inputs self.

Definition outputs (self : Pipeline) : list DatasetSpec :=
  mjoin (map_to_list (_outputs self)).*2.

Definition input_names (self : Pipeline) : list string :=
  spec_name <$> inputs self.

Definition output_names (self : Pipeline) : list string :=
  spec_name <$> outputs self.

(** [Pipeline._check_spec_names] *)
Definition _check_spec_names (study : Study) (specs : list DatasetSpec)
    (spec_type : string) : result unit :=
  let unrecognised :=
    filter (λ s, spec_name s ∉ dataset_spec_names study) specs in
  if decide (unrecognised = []) then Ok tt
  else Raise (NiAnalysisError ("not valid " +:+ spec_type +:+ " names")).

(** The loop that files each output under its multiplicity
    ([self._outputs[mult].append(output)] on a [defaultdict(list)]). *)
Definition group_outputs (study : Study) (outs : list DatasetSpec)
    : gmap multiplicity (list DatasetSpec) :=
  foldl (λ m output,
           let mult := dataset_multiplicity (dataset_spec study (spec_name output)) in
           <[mult := default [] (m !! mult) ++ [output]]> m)
        ∅ outs.

(** Name given by [create_node]: the pipeline name is prepended. *)
Definition node_name_of (pipeline_name name : string) : string :=
  pipeline_name +:+ "_" +:+ name.

(** The loop [for k, v in options.iteritems(): if k in self.options:
    self.options[k] = v]. *)
Definition update_options (self_options : gmap string V)
    (items : list (string * V)) : gmap string V :=
  foldl (λ acc kv,
           if decide (is_Some (acc !! kv.1)) then <[kv.1 := kv.2]> acc else acc)
        self_options items.

(** [Pipeline.__init__]. The test for a clash with the iterable fields is
    made on the inputs only. Its [raise] formats [i.name], where [i] is
    the variable of the generator expression of the test and is not bound
    in the method, so what is raised there is a NameError. *)
Definition __init__ (study : Study) (name : string)
    (ins outs : list DatasetSpec) (description : string)
    (default_options : gmap string V) (citations : list string)
    (version : Z) (options : gmap string V) : result Pipeline :=
  _ ←r _check_spec_names study ins "input";
  if bool_decide (Exists (λ i, spec_name i ∈ iterfields) ins)
  then Raise (NameError "global name 'i' is not defined")
  else
    let inputnode := node_name_of name "inputnode" in
    let w := wf_add_node (mkWorkflow [] []) inputnode in
    _ ←r _check_spec_names study outs "output";
    let grouped := group_outputs study outs in
    let outputnodes :=
      map_imap (λ mult _,
        Some (node_name_of name (multiplicity_str mult +:+ "_outputnode")))
        grouped in
    let w := foldl wf_add_node w ((map_to_list outputnodes).*2) in
    let unconnected_inputs : gset string := list_to_set (spec_name <$> ins) in
    let unconnected_outputs : gset string :=
      list_to_set (spec_name <$> mjoin (map_to_list grouped).*2) in
    if decide (length ins = size unconnected_inputs) then
      if decide (length outs = size unconnected_outputs) then
        Ok {| _name := name; _study := study_name study; _workflow := w;
              _version := version; _inputs := ins; _inputnode := inputnode;
              _outputs := grouped; _outputnodes := outputnodes;
              _unconnected_inputs := unconnected_inputs;
              _unconnected_outputs := unconnected_outputs;
              _citations := citations;
              _default_options := default_options;
              _options := update_options default_options (map_to_list options);
              _description := description |}
      else Raise (AssertionError "Duplicate outputs found")
    else Raise (AssertionError "Duplicate inputs found").

(** [Pipeline.__eq__] (both sides are pipelines) and [__ne__]. *)
Definition Pipeline_eqb (self other : Pipeline) : bool :=
  bool_decide (_name self = _name other) &&
  bool_decide (_study self = _study other) &&
  bool_decide (_inputs self = _inputs other) &&
  bool_decide (_outputs self = _outputs other) &&
  bool_decide (_options self = _options other) &&
  bool_decide (_citations self = _citations other).

Definition Pipeline_neb (self other : Pipeline) : bool :=
  negb (Pipeline_eqb self other).

Definition set_wiring (self : Pipeline) (w : Workflow)
    (unconnected_inputs unconnected_outputs : gset string) : Pipeline :=
  {| _name := _name self; _study := _study self; _workflow := w;
     _version := _version self; _inputs := _inputs self;
     _inputnode := _inputnode self; _outputs := _outputs self;
     _outputnodes := _outputnodes self;
     _unconnected_inputs := unconnected_inputs;
     _unconnected_outputs := unconnected_outputs;
     _citations := _citations self;
     _default_options := _default_options self;
     _options := _options self; _description := _description self |}.

(** [Pipeline.connect_input]. The message of its assertion joins
    [self._inputs], which holds specs and not strings: when the list is
    not empty, building the message raises a TypeError. *)
Definition connect_input (self : Pipeline) (name node node_input : string)
    : result Pipeline :=
  if decide (name ∈ input_names self) then
    let w := wf_connect (_workflow self) (_inputnode self) name node node_input in
    Ok (set_wiring self w
          (if decide (name ∈ _unconnected_inputs self)
           then _unconnected_inputs self ∖ {[name]}
           else _unconnected_inputs self)
          (_unconnected_outputs self))
  else
    match _inputs self with
    | [] => Raise (AssertionError "not a valid input")
    | _ :: _ => Raise (TypeError "sequence item 0: expected string")
    end.

(** [Pipeline.connect_output] *)
Definition connect_output (study : Study) (self : Pipeline)
    (name node node_output : string) : result Pipeline :=
  if decide (name ∈ output_names self) then
    if decide (name ∈ _unconnected_outputs self) then
      let mult := dataset_multiplicity (dataset_spec study name) in
      match _outputnodes self !! mult with
      | None => Raise (KeyError (multiplicity_str mult))
      | Some outputnode =>
        let w := wf_connect (_workflow self) node node_output outputnode name in
        Ok (set_wiring self w (_unconnected_inputs self)
              (_unconnected_outputs self ∖ {[name]}))
      end
    else Raise (AssertionError "'{}' output has been connected already")
  else Raise (AssertionError "not a valid output").

(** [Pipeline.assert_connected] *)
Definition assert_connected (self : Pipeline) : result unit :=
  if decide (_unconnected_inputs self = ∅) then
    if decide (_unconnected_outputs self = ∅) then Ok tt
    else Raise (AssertionError "output not connected")
  else Raise (AssertionError "input not connected").

End pipeline.

(** ** Wiring a pipeline after its construction *)

(** What the method of a study that builds a pipeline does between
    [create_pipeline] and [return pipeline], as far as the wiring of
    declared names goes: a sequence of calls of [connect_input] and
    [connect_output]. *)
Inductive wiring_call : Set :=
  | call_connect_input (name node node_input : string)
  | call_connect_output (name node node_output : string).

Section wiring.
Context {V : Type} `{!EqDecision V}.

Definition do_call (study : Study) (self : Pipeline (V:=V)) (c : wiring_call)
    : result Pipeline :=
  match c with
  | call_connect_input name node node_input =>
    connect_input self name node node_input
  | call_connect_output name node node_output =>
    connect_output study self name node node_output
  end.

Fixpoint do_calls (study : Study) (self : Pipeline (V:=V))
    (cs : list wiring_call) : result Pipeline :=
  match cs with
  | [] => Ok self
  | c :: cs' => self' ←r do_call study self c; do_calls study self' cs'
  end.

(** A declared name has been connected by a sequence of calls when the
    sequence has a call of [connect_input], or of [connect_output], for
    it. *)
Definition input_called (cs : list wiring_call) (name : string) : Prop :=
  ∃ node node_input, call_connect_input name node node_input ∈ cs.

Definition output_called (cs : list wiring_call) (name : string) : Prop :=
  ∃ node node_output, call_connect_output name node node_output ∈ cs.

(** The calls that wire every declared name of [self] once, each input
    [n] to the field [field n] of the node [node n], and likewise each
    output. *)
Definition wire_all (self : Pipeline (V:=V)) (node field : string → string)
    : list wiring_call :=
  ((λ n, call_connect_input n (node n) (field n)) <$> input_names self) ++
  ((λ n, call_connect_output n (node n) (field n)) <$> output_names self).

End wiring.

(** ** Inputs added after the construction *)

(** An item of the list [_inputs]: a dataset spec, as the constructor
    receives them, or a bare name, as [add_input] appends it. *)
Inductive input_item : Set :=
  | spec_item (s : DatasetSpec)
  | name_item (n : string).

Section added_inputs.
Context {V : Type} `{!EqDecision V}.

(** A pipeline to whose list [_inputs] names have been appended: the
    attributes as the constructor and the wiring calls left them, and the
    names appended, in order. [add_input] changes nothing else. *)
Record Extended : Type := mkExtended {
  extended : Pipeline (V:=V);
  appended : list string
}.

(** [self._inputs] *)
Definition input_items (self : Extended) : list input_item :=
  (spec_item <$> _inputs (extended self)) ++ (name_item <$> appended self).

(** [Pipeline.add_input] *)
Definition add_input (study : Study) (self : Extended) (input_name : string)
    : result Extended :=
  if decide (input_name ∈ dataset_spec_names study) then
    Ok (mkExtended (extended self) (appended self ++ [input_name]))
  else Raise (NiAnalysisDatasetNameError "not a name of a dataset_spec").

(** [spec_name in self.input_names]: the generator takes the attribute
    [name] of the items in turn, up to the first one that equals
    [spec_name]; a string has no such attribute. *)
Fixpoint name_in_items (name : string) (items : list input_item)
    : result bool :=
  match items with
  | [] => Ok false
  | spec_item s :: rest =>
    if decide (spec_name s = name) then Ok true else name_in_items name rest
  | name_item _ :: _ =>
    Raise (AttributeError "'str' object has no attribute 'name'")
  end.

(** [Pipeline.connect_input] on such a pipeline: once the test of the
    assertion has been evaluated without an exception, either the name is
    the name of a spec of the constructor, or no name has been appended;
    the call then goes on as [connect_input] does. *)
Definition connect_input_extended (self : Extended)
    (name node node_input : string) : result Extended :=
  _ ←r name_in_items name (input_items self);
  p ←r connect_input (extended self) name node node_input;
  Ok (mkExtended p (appended self)).

(** [Pipeline.assert_connected] reads the two sets of unconnected names
    only. *)
Definition assert_connected_extended (self : Extended) : result unit :=
  assert_connected (extended self).

End added_inputs.

(** ** Options as shared dictionaries *)

(** The constructor receives its [default_options] and [options] as
    references to dictionaries that the caller keeps.  Here the
    dictionaries live in a store, by address. *)
Section options_store.
Context {V : Type}.

Definition copy (h : gmap nat (gmap string V)) (d : nat)
    : gmap nat (gmap string V) * nat :=
  let d' := fresh (dom h) in
  (<[d' := default ∅ (h !! d)]> h, d').

(** [k in h[d]] and [h[d][k] = v] *)
Definition dict_contains (h : gmap nat (gmap string V)) (d : nat)
    (k : string) : bool :=
  bool_decide (is_Some (default ∅ (h !! d) !! k)).

Definition dict_setitem (h : gmap nat (gmap string V)) (d : nat)
    (k : string) (v : V) : gmap nat (gmap string V) :=
  <[d := <[k := v]> (default ∅ (h !! d))]> h.

(** Lines 116 to 119 of [__init__]: returns the store and the address
    held by [self._options].  The items iterated over are those of the
    dictionary at [options]; the loop writes to the fresh copy only. *)
Definition init_options (h : gmap nat (gmap string V))
    (default_options options : nat) : gmap nat (gmap string V) * nat :=
  let '(h1, self_options) := copy h default_options in
  (foldl (λ h' kv,
            if dict_contains h' self_options kv.1
            then dict_setitem h' self_options kv.1 kv.2
            else h')
         h1 (map_to_list (default ∅ (h1 !! options))),
   self_options).

End options_store.

(** ** Connecting a pipeline to the archive *)

(** A node of the complete workflow. Python tells objects apart by
    identity: two instances of a same-named pipeline have same-named but
    different nodes. Every instance is connected at most once in a run
    (the methods of the study build a new instance at each request), so a
    node is identified by the serial number of the call of
    [connect_to_archive] that embedded its instance, and by its name. *)
Record Node : Set := mkNode {
  node_owner : nat;
  node_name : string
}.

#[global] Instance Node_eq_dec : EqDecision Node.
Proof. solve_decision. Defined.

(** Modelled from the spec: the constants [INPUT_SUFFIX] and
    [OUTPUT_SUFFIX] of [nianalysis.utils], absent from the sources; the sink
    accepts each artifact under name+"_in" and the source exposes it
    under name+"_out". *)
Definition INPUT_SUFFIX : string := "_in".
Definition OUTPUT_SUFFIX : string := "_out".

Section connect.
Context {V : Type} `{!EqDecision V}.

(** The objects that the calls of one run share and mutate: the complete
    workflow (the embedded pipeline workflows, the iterables set on nodes
    and the connections) and the dictionary [connected_prereqs]. *)
Record Run : Type := mkRun {
  next_serial : nat;
  embedded : list (nat * string);
  iterating : list (Node * (string * iterable_values) * option (string * string));
  connections : list (Node * string * Node * string);
  connected_prereqs : gmap string (Pipeline (V:=V) * Node)
}.

(** A computation on the shared objects that may raise. *)
Definition M (A : Type) : Type := Run → result (A * Run).

Definition m_ret {A : Type} (a : A) : M A := λ st, Ok (a, st).

Definition m_raise {A : Type} (e : exn) : M A := λ _, Raise e.

Definition m_bind {A B : Type} (c : M A) (k : A → M B) : M B :=
  λ st, match c st with
        | Ok (a, st') => k a st'
        | Raise e => Raise e
        end.

Notation "x ←m e1 ; e2" := (m_bind e1 (λ x, e2))
  (at level 100, e1 at next level, e2 at level 200, right associativity).

Definition m_lift {A : Type} (r : result A) : M A :=
  λ st, match r with Ok a => Ok (a, st) | Raise e => Raise e end.

Fixpoint m_fold {A B : Type} (f : B → A → M A) (l : list B) (a : A) : M A :=
  match l with
  | [] => m_ret a
  | b :: l' => a' ←m f b a; m_fold f l' a'
  end.

Definition fresh_serial : M nat :=
  λ st, Ok (next_serial st,
            mkRun (S (next_serial st)) (embedded st) (iterating st)
                  (connections st) (connected_prereqs st)).

(** [complete_workflow.add_nodes([self._workflow])] *)
Definition add_workflow (serial : nat) (name : string) : M unit :=
  λ st, Ok (tt, mkRun (next_serial st) (embedded st ++ [(serial, name)])
                      (iterating st) (connections st) (connected_prereqs st)).

Definition set_iterables (n : Node) (its : string * iterable_values)
    (src : option (string * string)) : M unit :=
  λ st, Ok (tt, mkRun (next_serial st) (embedded st)
                      (iterating st ++ [(n, its, src)])
                      (connections st) (connected_prereqs st)).

(** [complete_workflow.connect(src, src_field, dst, dst_field)] *)
Definition connect (src : Node) (src_field : string) (dst : Node)
    (dst_field : string) : M unit :=
  λ st, Ok (tt, mkRun (next_serial st) (embedded st) (iterating st)
                      (connections st ++ [(src, src_field, dst, dst_field)])
                      (connected_prereqs st)).

(** [connected_prereqs[name] = prereq, prereq_report] *)
Definition store_prereq (name : string) (prereq : Pipeline (V:=V))
    (prereq_report : Node) : M unit :=
  λ st, Ok (tt, mkRun (next_serial st) (embedded st) (iterating st)
                      (connections st)
                      (<[name := (prereq, prereq_report)]> (connected_prereqs st))).

Definition lookup_prereq (name : string) : M (option (Pipeline (V:=V) * Node)) :=
  λ st, Ok (connected_prereqs st !! name, st).

(** The study, its methods that build pipelines, called by name with the
    options as keyword arguments, and the fields of the converter node that
    [get_converter_node] inserts between two formats. *)
Variable study : Study.
Variable getters : string → gmap string V → result (Pipeline (V:=V)).
Variable converter_fields : string → string → string * string.

(** [Pipeline.has_prerequisites] *)
Definition has_prerequisites (self : Pipeline (V:=V)) : bool :=
  bool_decide (Exists (λ i, processed (dataset study (spec_name i)) = true)
                      (inputs self)).

(** The set [pipeline_getters] of [Pipeline.prerequisities], in the order
    of the first input that needs each one. *)
Definition pipeline_getters (self : Pipeline (V:=V)) : list string :=
  remove_dups
    (pipeline <$>
     filter (λ comp, processed comp = true)
            ((λ i, dataset study (spec_name i)) <$> inputs self)).

(** [Pipeline._subject_and_session_iterators] for the instance embedded
    under [serial]. *)
Definition _subject_and_session_iterators (self : Pipeline (V:=V))
    (serial : nat) (sessions_to_process : list Session) : M (Node * Node) :=
  let subjects := mkNode serial (node_name_of (_name self) "subjects") in
  let sessions := mkNode serial (node_name_of (_name self) "sessions") in
  _ ←m set_iterables subjects (subjects_binding sessions_to_process) None;
  _ ←m set_iterables sessions
         (sessions_binding (_name self) sessions_to_process).1
         (sessions_binding (_name self) sessions_to_process).2;
  _ ←m connect subjects "subject_id" sessions "subject_id";
  m_ret (subjects, sessions).

(** The flag handed to a prerequisite:
    [reprocess if reprocess == 'all' else False]. *)
Definition prereq_reprocess (reprocess : reprocess_flag) : reprocess_flag :=
  if decide (reprocess = RAll) then reprocess else RFalse.

(** The body of the loop [for prereq in self.prerequisities]: one request
    of the pipeline built by the method [pg]; [rec] is
    [connect_to_archive]. *)
Definition request_prereq
    (rec : Pipeline (V:=V) → option (list string) → option (list string) →
           reprocess_flag → option Project → M (option Node))
    (self : Pipeline (V:=V)) (prereq_subject_ids : list string)
    (visit_ids : option (list string)) (reprocess : reprocess_flag)
    (project : Project) (pg : string) (reports : list Node)
    : M (list Node) :=
  prereq ←m m_lift (getters pg (_options self));
  cached ←m lookup_prereq (_name prereq);
  match cached with
  | Some (connected_prereq, prereq_report) =>
    if Pipeline_neb connected_prereq prereq
    then m_raise (NiAnalysisError
           "Name clash between non-matching prerequisite pipelines")
    else m_ret (reports ++ [prereq_report])
  | None =>
    prereq_report ←m rec prereq (Some prereq_subject_ids) visit_ids
                       (prereq_reprocess reprocess) (Some project);
    match prereq_report with
    | Some report =>
      _ ←m store_prereq (_name prereq) prereq report;
      m_ret (reports ++ [report])
    | None => m_ret reports
    end
  end.

(** The connections from the reports of the prerequisites to the merge
    node, numbered from 1. *)
Fixpoint connect_reports (prereq_reports : Node) (i : nat)
    (reports : list Node) : M unit :=
  match reports with
  | [] => m_ret tt
  | report :: rest =>
    _ ←m connect report "subject_session_pairs" prereq_reports
           ("in" +:+ pretty i);
    connect_reports prereq_reports (S i) rest
  end.

(** Lines 319 to 357: the prerequisites of [self]. Returns the list
    [reports]. *)
Definition connect_prerequisites
    (rec : Pipeline (V:=V) → option (list string) → option (list string) →
           reprocess_flag → option Project → M (option Node))
    (self : Pipeline (V:=V)) (serial : nat) (subjects : Node)
    (sessions_to_process : list Session) (visit_ids : option (list string))
    (reprocess : reprocess_flag) (project : Project) : M (list Node) :=
  if has_prerequisites self then
    let prereq_subject_ids :=
      elements (subject_ids_to_process sessions_to_process) in
    reports ←m m_fold (request_prereq rec self prereq_subject_ids visit_ids
                         reprocess project)
                 (pipeline_getters self) [];
    match reports with
    | [] => m_ret reports
    | _ :: _ =>
      let prereq_reports :=
        mkNode serial (node_name_of (_name self) "prereq_reports") in
      _ ←m connect_reports prereq_reports 1 reports;
      _ ←m connect prereq_reports "out" subjects "prereq_reports";
      m_ret reports
    end
  else m_ret [].

(** Lines 380 to 397: one input of the pipeline, read from the source, through
    a converter when the formats differ. *)
Definition connect_source_input (self : Pipeline (V:=V)) (serial : nat)
    (source : Node) (inpt : DatasetSpec) : M unit :=
  let d := dataset study (spec_name inpt) in
  let inputnode := mkNode serial (_inputnode self) in
  if decide (dataset_format d ≠ spec_format inpt) then
    let conv :=
      mkNode serial (_name self +:+ "_" +:+ spec_name inpt +:+ "_input_conversion") in
    let '(in_field, out_field) :=
      converter_fields (dataset_format d) (spec_format inpt) in
    _ ←m connect source (dataset_name d +:+ OUTPUT_SUFFIX) conv in_field;
    connect conv out_field inputnode (spec_name inpt)
  else
    connect source (dataset_name d +:+ OUTPUT_SUFFIX) inputnode (spec_name inpt).

(** Lines 419 to 436: one output of the pipeline, written to the sink. *)
Definition connect_sink_output (self : Pipeline (V:=V)) (serial : nat)
    (mult : multiplicity) (sink : Node) (output : DatasetSpec) : M unit :=
  let d := dataset study (spec_name output) in
  if processed d then
    outputnode ←m m_lift (match _outputnodes self !! mult with
                          | Some n => Ok (mkNode serial n)
                          | None => Raise (KeyError (multiplicity_str mult))
                          end);
    if decide (dataset_format d ≠ spec_format output) then
      let conv := mkNode serial (spec_name output +:+ "_output_conversion") in
      let '(in_field, out_field) :=
        converter_fields (spec_format output) (dataset_format d) in
      _ ←m connect outputnode (spec_name output) conv in_field;
      connect conv out_field sink (dataset_name d +:+ INPUT_SUFFIX)
    else
      connect outputnode (dataset_name d) sink (dataset_name d +:+ INPUT_SUFFIX)
  else m_ret tt.

(** [Pipeline._connect_to_reports] *)
Definition _connect_to_reports (self : Pipeline (V:=V)) (serial : nat)
    (sink output_summary : Node) (mult : multiplicity)
    (subjects sessions : Node) : M unit :=
  match mult with
  | per_session =>
    let session_outputs := mkNode serial (_name self +:+ "_session_outputs") in
    let subject_session_outputs :=
      mkNode serial (_name self +:+ "_subject_session_outputs") in
    _ ←m connect sink "subject_id" session_outputs "subjects";
    _ ←m connect sink "visit_id" session_outputs "sessions";
    _ ←m connect session_outputs "subject_session_pairs"
           subject_session_outputs "subject_session_pairs";
    connect subject_session_outputs "subject_session_pairs"
      output_summary "subject_session_pairs"
  | per_subject =>
    let subject_output_summary :=
      mkNode serial (_name self +:+ "_subject_summary_outputs") in
    _ ←m connect sink "subject_id" subject_output_summary "subjects";
    connect subject_output_summary "subjects" output_summary "subjects"
  | per_visit =>
    let visit_output_summary :=
      mkNode serial (_name self +:+ "_visit_summary_outputs") in
    _ ←m connect sink "visit_id" visit_output_summary "sessions";
    connect visit_output_summary "sessions" output_summary "visits"
  | per_project => connect sink "project_id" output_summary "project"
  end.

(** Lines 403 to 438: the sink of one multiplicity and its outputs. *)
Definition connect_sink (self : Pipeline (V:=V)) (serial : nat)
    (report subjects sessions : Node)
    (group : multiplicity * list DatasetSpec) (_ : unit) : M unit :=
  let '(mult, outs) := group in
  let sink :=
    mkNode serial (_name self +:+ "_" +:+ multiplicity_str mult +:+ "_sink") in
  _ ←m (if bool_decide (mult ∈ [per_session; per_subject])
        then connect sessions "subject_id" sink "subject_id" else m_ret tt);
  _ ←m (if bool_decide (mult ∈ [per_session; per_visit])
        then connect sessions "visit_id" sink "visit_id" else m_ret tt);
  _ ←m m_fold (λ output _, connect_sink_output self serial mult sink output)
         outs tt;
  _connect_to_reports self serial sink report mult subjects sessions.

(** Lines 358 to 439: source, inputs, report node and sinks. Returns the
    report node. *)
Definition connect_source_and_sinks (self : Pipeline (V:=V)) (serial : nat)
    (subjects sessions : Node) : M Node :=
  match archive_source study ((λ i, dataset study (spec_name i)) <$> inputs self) with
  | Some msg =>
    m_raise (NiAnalysisMissingDatasetError
      (msg +:+ ", which is required for pipeline '" +:+ _name self +:+ "'"))
  | None =>
    let source := mkNode serial (_name self +:+ "_source") in
    let inputnode := mkNode serial (_inputnode self) in
    _ ←m connect sessions "subject_id" inputnode "subject_id";
    _ ←m connect sessions "visit_id" inputnode "visit_id";
    _ ←m connect sessions "subject_id" source "subject_id";
    _ ←m connect sessions "visit_id" source "visit_id";
    _ ←m m_fold (λ inpt _, connect_source_input self serial source inpt)
           (inputs self) tt;
    let report := mkNode serial (node_name_of (_name self) "report") in
    _ ←m m_fold (connect_sink self serial report subjects sessions)
           (map_to_list (_outputs self)) tt;
    m_ret report
  end.

(** The body of [Pipeline.connect_to_archive], called with a dictionary
    [connected_prereqs] (the one of the run). *)
Definition connect_body
    (rec : Pipeline (V:=V) → option (list string) → option (list string) →
           reprocess_flag → option Project → M (option Node))
    (self : Pipeline (V:=V)) (subject_ids visit_ids : option (list string))
    (reprocess : reprocess_flag) (project : option Project)
    : M (option Node) :=
  _ ←m m_lift (assert_connected self);
  let project :=
    match project with
    | None => archive_project study subject_ids visit_ids
    | Some p => p
    end in
  let sessions_to_process :=
    _sessions_to_process (dataset study) (outputs self) project visit_ids
      reprocess in
  match sessions_to_process with
  | [] => m_ret None
  | _ :: _ =>
    serial ←m fresh_serial;
    _ ←m add_workflow serial (_name self);
    nodes ←m _subject_and_session_iterators self serial sessions_to_process;
    _ ←m connect_prerequisites rec self serial nodes.1 sessions_to_process
           visit_ids reprocess project;
    report ←m connect_source_and_sinks self serial nodes.1 nodes.2;
    m_ret (Some report)
  end.

(** [Pipeline.connect_to_archive]. The recursion follows the
    prerequisites and need not end; [depth] bounds the depth of the calls,
    as the interpreter does. *)
Fixpoint connect_to_archive (depth : nat) (self : Pipeline (V:=V))
    (subject_ids visit_ids : option (list string))
    (reprocess : reprocess_flag) (project : option Project)
    : M (option Node) :=
  match depth with
  | 0 => m_raise (RuntimeError "maximum recursion depth exceeded")
  | S depth' =>
    connect_body (connect_to_archive depth') self subject_ids visit_ids
      reprocess project
  end.

(** A call without [connected_prereqs], as made by [run], [submit] and
    [write_graph]: the dictionary is a new, empty one. *)
Definition connect_to_archive_top (depth : nat) (self : Pipeline (V:=V))
    (subject_ids visit_ids : option (list string))
    (reprocess : reprocess_flag) (project : option Project)
    : M (option Node) :=
  λ st, connect_to_archive depth self subject_ids visit_ids reprocess project
          (mkRun (next_serial st) (embedded st) (iterating st)
                 (connections st) ∅).

(** ** The instances that a run constructs

    [prerequisities] (line 549) calls the method of the study for each
    prerequisite every time the loop of line 323 runs over it, so a
    request starts with a new instance whether or not the name is in
    [connected_prereqs]. The functions below list the names of the
    instances that the methods of the study return during a call of
    [connect_to_archive], in the order of their construction. They
    follow the control flow of [request_prereq], [connect_prerequisites]
    and [connect_body], and take the shared objects from them. *)

(** One request: the instance is constructed, then [connected_prereqs]
    is read; after a KeyError the instance is connected, which constructs
    the instances that [rec_constructs] lists. *)
Definition request_constructs
    (rec_constructs : Pipeline (V:=V) → option (list string) →
                      option (list string) → reprocess_flag →
                      option Project → Run → list string)
    (self : Pipeline (V:=V)) (prereq_subject_ids : list string)
    (visit_ids : option (list string)) (reprocess : reprocess_flag)
    (project : Project) (pg : string) (st : Run) : list string :=
  match getters pg (_options self) with
  | Raise _ => []
  | Ok prereq =>
    _name prereq ::
    match connected_prereqs st !! _name prereq with
    | Some _ => []
    | None =>
      rec_constructs prereq (Some prereq_subject_ids) visit_ids
        (prereq_reprocess reprocess) (Some project) st
    end
  end.

(** The loop [for prereq in self.prerequisities]: the requests one after
    the other, each on the shared objects that the request before it
    left; an exception ends the loop. *)
Fixpoint requests_construct
    (rec_constructs : Pipeline (V:=V) → option (list string) →
                      option (list string) → reprocess_flag →
                      option Project → Run → list string)
    (rec : Pipeline (V:=V) → option (list string) → option (list string) →
           reprocess_flag → option Project → M (option Node))
    (self : Pipeline (V:=V)) (prereq_subject_ids : list string)
    (visit_ids : option (list string)) (reprocess : reprocess_flag)
    (project : Project) (pgs : list string) (reports : list Node)
    (st : Run) : list string :=
  match pgs with
  | [] => []
  | pg :: rest =>
    request_constructs rec_constructs self prereq_subject_ids visit_ids
      reprocess project pg st ++
    match request_prereq rec self prereq_subject_ids visit_ids reprocess
            project pg reports st with
    | Ok (reports', st') =>
      requests_construct rec_constructs rec self prereq_subject_ids
        visit_ids reprocess project rest reports' st'
    | Raise _ => []
    end
  end.

(** The body of [connect_to_archive]: nothing is constructed before the
    loop over the prerequisites, which is reached when the pipeline is
    connected, has sessions to process and has prerequisites. *)
Definition body_constructs
    (rec_constructs : Pipeline (V:=V) → option (list string) →
                      option (list string) → reprocess_flag →
                      option Project → Run → list string)
    (rec : Pipeline (V:=V) → option (list string) → option (list string) →
           reprocess_flag → option Project → M (option Node))
    (self : Pipeline (V:=V)) (subject_ids visit_ids : option (list string))
    (reprocess : reprocess_flag) (project : option Project) (st : Run)
    : list string :=
  match assert_connected self with
  | Raise _ => []
  | Ok _ =>
    let project :=
      match project with
      | None => archive_project study subject_ids visit_ids
      | Some p => p
      end in
    let sessions_to_process :=
      _sessions_to_process (dataset study) (outputs self) project visit_ids
        reprocess in
    match sessions_to_process with
    | [] => []
    | _ :: _ =>
      if has_prerequisites self then
        match (serial ←m fresh_serial;
               _ ←m add_workflow serial (_name self);
               _subject_and_session_iterators self serial sessions_to_process)
                st with
        | Ok (_, st') =>
          requests_construct rec_constructs rec self
            (elements (subject_ids_to_process sessions_to_process))
            visit_ids reprocess project (pipeline_getters self) [] st'
        | Raise _ => []
        end
      else []
    end
  end.

(** The names of the instances constructed during
    [connect_to_archive depth]. *)
Fixpoint constructs (depth : nat) (self : Pipeline (V:=V))
    (subject_ids visit_ids : option (list string))
    (reprocess : reprocess_flag) (project : option Project) (st : Run)
    : list string :=
  match depth with
  | 0 => []
  | S depth' =>
    body_constructs (constructs depth') (connect_to_archive depth') self
      subject_ids visit_ids reprocess project st
  end.

End connect.

(** ** A small study and project, for concrete runs *)

(** Two subjects with two visits each; the per-visit dataset 'mean' is
    recorded on the sessions of visit 1 only, and on no subject. *)
Definition ex_session (subject visit : string) : Session :=
  mkSession visit subject (if decide (visit = "1") then ["mean"] else []).

Definition ex_subject (subject : string) : Subject :=
  mkSubject subject [ex_session subject "1"; ex_session subject "2"] [].

Definition ex_project : Project :=
  mkProject [ex_subject "A"; ex_subject "B"] [].

Definition ex_dataset (name : string) : Dataset :=
  if decide (name = "mean")
  then mkDataset "mean" "nifti_gz" per_visit true "mean_pipeline" "mean"
  else if decide (name = "template")
  then mkDataset "template" "nifti_gz" per_project true "template_pipeline"
         "template"
  else if decide (name = "preproc")
  then mkDataset "preproc" "nifti_gz" per_session true "prep_pipeline" "preproc"
  else if decide (name = "brain")
  then mkDataset "brain" "nifti_gz" per_session true "extract_pipeline" "brain"
  else if decide (name = "wm_seg")
  then mkDataset "wm_seg" "nifti_gz" per_session true "segment_pipeline" "wm_seg"
  else if decide (name = "summary")
  then mkDataset "summary" "nifti_gz" per_session true "summary_pipeline"
         "summary"
  else mkDataset name "dicom" per_session false "" name.

(** A study over [ex_project]. Its dataset specs include one named after
    an iterable field. *)
Definition ex_study : Study :=
  mkStudy "S" "P1"
    ["primary"; "preproc"; "brain"; "wm_seg"; "summary"; "mean"; "template";
     "subject_id"]
    ex_dataset ex_dataset (λ _ _, ex_project) (λ _, None).

(** The methods of the study that build its pipelines: each constructs
    the pipeline and wires every declared name. 'summary' reads 'brain'
    and 'wm_seg', which both read 'preproc', which reads the primary
    scan. The default threshold of 'segment' is a parameter. *)
Definition ex_build (name : string) (ins outs : list string)
    (default_options options : gmap string nat) : result (Pipeline (V:=nat)) :=
  self ←r __init__ ex_study name
            ((λ n, mkDatasetSpec n "nifti_gz") <$> ins)
            ((λ n, mkDatasetSpec n "nifti_gz") <$> outs)
            "" default_options [] 1 options;
  do_calls ex_study self (wire_all self (λ n, name +:+ "_node") (λ n, n)).

Definition ex_getters (segment_threshold : nat) (pg : string)
    (options : gmap string nat) : result (Pipeline (V:=nat)) :=
  if decide (pg = "prep_pipeline")
  then ex_build "prep" ["primary"] ["preproc"] {[ "threshold" := 5 ]} options
  else if decide (pg = "extract_pipeline")
  then ex_build "extract" ["preproc"] ["brain"] {[ "threshold" := 5 ]} options
  else if decide (pg = "segment_pipeline")
  then ex_build "segment" ["preproc"] ["wm_seg"]
         {[ "threshold" := segment_threshold ]} options
  else if decide (pg = "summary_pipeline")
  then ex_build "summary" ["brain"; "wm_seg"] ["summary"] ∅ options
  else Raise (NameError pg).

Definition ex_converter_fields (from to : string) : string * string :=
  ("in_file", "out_file").

(** The shared objects before a run. *)
Definition ex_run : Run (V:=nat) := mkRun 0 [] [] [] ∅.

(** The pipeline that the method [pg] builds from the options of
    [dependent]; the four methods above always return one. *)
Definition ex_pipeline (segment_threshold : nat) (pg : string)
    (options : gmap string nat) : Pipeline (V:=nat) :=
  match ex_getters segment_threshold pg options with
  | Ok p => p
  | Raise _ => mkPipeline "" "" (mkWorkflow [] []) 0 [] "" ∅ ∅ ∅ ∅ [] ∅ ∅ ""
  end.

Definition ex_summary : Pipeline (V:=nat) := ex_pipeline 5 "summary_pipeline" ∅.
Definition ex_extract : Pipeline (V:=nat) := ex_pipeline 5 "extract_pipeline" ∅.
Definition ex_segment (segment_threshold : nat) : Pipeline (V:=nat) :=
  ex_pipeline segment_threshold "segment_pipeline" ∅.

(** The shared objects after 'extract' has requested 'prep' in a new
    run over [ex_project]. *)
Definition ex_run_after_extract (segment_threshold : nat) : Run (V:=nat) :=
  match request_prereq (ex_getters segment_threshold)
          (connect_to_archive ex_study (ex_getters segment_threshold)
             ex_converter_fields 3)
          ex_extract ["A"; "B"] None RFalse ex_project "prep_pipeline" []
          ex_run with
  | Ok (_, st) => st
  | Raise _ => ex_run
  end.

(** A project in which every session already has 'preproc'. *)
Definition ex_project_preprocessed : Project :=
  mkProject
    [mkSubject "A" [mkSession "1" "A" ["preproc"]; mkSession "2" "A" ["preproc"]] [];
     mkSubject "B" [mkSession "1" "B" ["preproc"]; mkSession "2" "B" ["preproc"]] []]
    [].

(** ** The statements of the design document, in terms of the model *)

(** Subject [sid] has a session of visit [v] in the work set. *)
Definition has_visit (sessions : list Session) (sid v : string) : Prop :=
  ∃ s, s ∈ sessions ∧ session_id s = v ∧ session_subject s = sid.

(** For every selected visit id, the subject ids having that visit are
    the selected subject ids. *)
Definition same_subjects_at_every_visit (sessions : list Session) : Prop :=
  ∀ v, v ∈ session_id <$> sessions →
    ∀ sid, has_visit sessions sid v ↔ sid ∈ session_subject <$> sessions.

(** The two shapes of the binding of the [sessions] node. *)
Definition flat_binding (sessions : list Session)
    (b : (string * iterable_values) * option (string * string)) : Prop :=
  ∃ ids, b = (("visit_id", values_flat ids), None) ∧
         ∀ v, v ∈ ids ↔ v ∈ session_id <$> sessions.

Definition sourced_binding (name : string) (sessions : list Session)
    (b : (string * iterable_values) * option (string * string)) : Prop :=
  ∃ m, b = (("visit_id", values_by_source m),
            Some (name +:+ "_subjects", "subject_id")) ∧
       ∀ sid, m !! sid =
         if decide (sid ∈ session_subject <$> sessions)
         then Some (session_id <$>
                    filter (λ s, session_subject s = sid) sessions)
         else None.

(** The subject ids that have a session of visit [v]. *)
Definition subjects_with (sessions : list Session) (v : string) : gset string :=
  list_to_set (session_subject <$> filter (λ s, session_id s = v) sessions).

(** [st'] is a later state of the shared objects than [st]: what
    [connected_prereqs] held it still holds, and the workflows embedded in
    the complete workflow are still embedded. *)
Definition later_run {V : Type} (st st' : Run (V:=V)) : Prop :=
  (∀ n e, connected_prereqs st !! n = Some e →
          connected_prereqs st' !! n = Some e) ∧
  (∀ w, w ∈ embedded st → w ∈ embedded st').

(** A computation that only ever leads to later states. *)
Definition monotone {V A : Type} (c : M (V:=V) A) : Prop :=
  ∀ st a st', c st = Ok (a, st') → later_run st st'.

(** ** Further statements, in terms of the model *)

(** The session [s] passes the visit filter. *)
Definition passes_filter (visit_ids : option (list string)) (s : Session)
    : Prop :=
  match visit_ids with
  | None => True
  | Some ids => session_id s ∈ ids
  end.

(** The desired output [o] is a project-level dataset that the project
    lacks. *)
Definition project_output_missing (dataset : string → Dataset)
    (project : Project) (o : DatasetSpec) : Prop :=
  dataset_multiplicity (dataset (spec_name o)) = per_project ∧
  prefixed_name (dataset (spec_name o)) ∉ project_dataset_names project.

(** The desired output [o] asks for the session [s]: [s] passes the visit
    filter and either [o] is a subject- or visit-level dataset that a
    subject holding [s] lacks, or [o] is a session-level dataset that [s]
    lacks. *)
Definition selects (dataset : string → Dataset) (project : Project)
    (visit_ids : option (list string)) (o : DatasetSpec) (s : Session)
    : Prop :=
  match dataset_multiplicity (dataset (spec_name o)) with
  | per_project => False
  | per_subject | per_visit =>
    ∃ sub, sub ∈ project_subjects project ∧
           (prefixed_name (dataset (spec_name o)) ∉ subject_dataset_names sub) ∧
           s ∈ subject_sessions sub ∧ passes_filter visit_ids s
  | per_session =>
    s ∈ all_sessions project ∧
    (prefixed_name (dataset (spec_name o)) ∉ session_dataset_names s) ∧
    passes_filter visit_ids s
  end.

(** The desired output [o] is in the archive wherever its level puts
    it. *)
Definition output_archived (dataset : string → Dataset) (project : Project)
    (o : DatasetSpec) : Prop :=
  match dataset_multiplicity (dataset (spec_name o)) with
  | per_project =>
    prefixed_name (dataset (spec_name o)) ∈ project_dataset_names project
  | per_subject | per_visit =>
    ∀ sub, sub ∈ project_subjects project →
      prefixed_name (dataset (spec_name o)) ∈ subject_dataset_names sub
  | per_session =>
    ∀ s, s ∈ all_sessions project →
      prefixed_name (dataset (spec_name o)) ∈ session_dataset_names s
  end.


(** The pairs of a subject id and a visit id that the two iterator nodes
    run over: the subject ids are those of the iterables of the
    [subjects] node; for each of them the visit ids are the flat list of
    the [sessions] node or, when that node has an itersource, the list
    kept for that subject id. *)
Definition iterated (subjects : string * iterable_values)
    (sessions : (string * iterable_values) * option (string * string))
    (sid v : string) : Prop :=
  match subjects.2 with
  | values_flat sids => sid ∈ sids
  | values_by_source _ => False
  end ∧
  match sessions.1.2 with
  | values_flat ids => v ∈ ids
  | values_by_source m => ∃ ids, m !! sid = Some ids ∧ v ∈ ids
  end.

(** The declared outputs whose dataset spec has the multiplicity
    [mult], in the order of their declaration. *)
Definition outputs_of_multiplicity (study : Study) (outs : list DatasetSpec)
    (mult : multiplicity) : list DatasetSpec :=
  filter (λ o, dataset_multiplicity (dataset_spec study (spec_name o)) = mult)
         outs.


(** The names that the calls of [connect_output] of a sequence are for,
    in the order of the calls. *)
Definition called_outputs (cs : list wiring_call) : list string :=
  omap (λ c, match c with
             | call_connect_output n _ _ => Some n
             | call_connect_input _ _ _ => None
             end) cs.

Section accessors.
Context {V : Type} `{!EqDecision V}.

(** The connection that a wiring call makes in the wrapped workflow:
    from the field of the input node, or to the field of the output node
    of the multiplicity of the output. *)
Definition connection_of (study : Study) (self : Pipeline (V:=V))
    (c : wiring_call) : option (string * string * string * string) :=
  match c with
  | call_connect_input n node node_input =>
    Some (_inputnode self, n, node, node_input)
  | call_connect_output n node node_output =>
    (λ outputnode, (node, node_output, outputnode, n)) <$>
    (_outputnodes self !! dataset_multiplicity (dataset_spec study n))
  end.

(** [Pipeline.option]: [self._options[name]]. *)
Definition option_of (self : Pipeline (V:=V)) (name : string) : result V :=
  match _options self !! name with
  | Some v => Ok v
  | None => Raise (KeyError name)
  end.

(** The generator of [Pipeline.non_default_options], consumed to its
    end: the items [(k, v)] of the options with
    [v != self.default_options[k]]; the lookup in the defaults raises
    KeyError for a key that is no default. [value_ne] is [!=] on the
    values of the options; it is what the class of the values makes it,
    and need not be the negation of an equality: a float NaN differs from
    itself. *)
Fixpoint non_default_items (value_ne : V → V → bool)
    (default_options : gmap string V) (items : list (string * V))
    : result (list (string * V)) :=
  match items with
  | [] => Ok []
  | (k, v) :: rest =>
    match default_options !! k with
    | None => Raise (KeyError k)
    | Some d =>
      rest' ←r non_default_items value_ne default_options rest;
      Ok (if value_ne v d then (k, v) :: rest' else rest')
    end
  end.

Definition non_default_options (value_ne : V → V → bool)
    (self : Pipeline (V:=V)) : result (list (string * V)) :=
  non_default_items value_ne (_default_options self)
    (map_to_list (_options self)).

End accessors.


(** Between [st] and [st'] the serial numbers, the embedded workflows
    and [connected_prereqs] are the same: only iterables and connections
    were added. *)
Definition same_frame {V : Type} (st st' : Run (V:=V)) : Prop :=
  next_serial st' = next_serial st ∧ embedded st' = embedded st ∧
  connected_prereqs st' = connected_prereqs st.

(** A computation that only adds iterables and connections. *)
Definition framed {V A : Type} (c : M (V:=V) A) : Prop :=
  ∀ st a st', c st = Ok (a, st') → same_frame st st'.

(** The shared objects are consistent: the serial numbers of the
    embedded workflows are distinct and below the next one to be given,
    and each name in [connected_prereqs] is the name of the pipeline
    stored under it, stored with the report node of an embedded workflow
    of that name. *)
Definition run_ok {V : Type} (st : Run (V:=V)) : Prop :=
  (∀ w, w ∈ embedded st → w.1 < next_serial st) ∧
  NoDup (embedded st).*1 ∧
  (∀ n p report, connected_prereqs st !! n = Some (p, report) →
     _name p = n ∧ node_name report = node_name_of n "report" ∧
     (node_owner report, n) ∈ embedded st).

(** [ex_study] with an archive that lacks the primary scan. *)
Definition ex_study_incomplete : Study :=
  mkStudy "S" "P1"
    ["primary"; "preproc"; "brain"; "wm_seg"; "summary"; "mean"; "template";
     "subject_id"]
    ex_dataset ex_dataset (λ _ _, ex_project)
    (λ _, Some "Dataset 'primary' is missing from the archive").


(** What is asked of [connect_to_archive] where it is called for a
    prerequisite: it keeps the shared objects consistent, does not lower
    the next serial number, and a report it returns is the report node of
    the instance, embedded under the serial number that was next. *)
Definition keeps_run_ok {V : Type}
    (rec : Pipeline (V:=V) → option (list string) → option (list string) →
           reprocess_flag → option Project → M (option Node)) : Prop :=
  ∀ q ids vis r proj (st : Run (V:=V)) res (st' : Run (V:=V)),
    run_ok st → rec q ids vis r proj st = Ok (res, st') →
    run_ok st' ∧ next_serial st ≤ next_serial st' ∧
    ∀ report, res = Some report →
      report = mkNode (next_serial st) (node_name_of (_name q) "report") ∧
      (next_serial st, _name q) ∈ embedded st'.



(** The shared objects after 'summary' has been connected in a new run
    over [ex_project]. *)
Definition ex_run_summary : Run (V:=nat) :=
  match connect_to_archive ex_study (ex_getters 5) ex_converter_fields 4
          ex_summary None None RFalse None ex_run with
  | Ok (_, st) => st
  | Raise _ => ex_run
  end.

(** ** Submission to a scheduler *)

(** What [submit] can raise: the usage error of [nianalysis.exceptions],
    or one of the exceptions above (its own NiAnalysisError, and what the
    connection to the archive raises). *)
Inductive submit_exn : Set :=
  | NiAnalysisUsageError (msg : string)
  | raised_exn (e : exn).

(** [sep.join(l)] *)
Fixpoint str_join (sep : string) (l : list string) : string :=
  match l with
  | [] => ""
  | x :: rest =>
    match rest with
    | [] => x
    | _ :: _ => x +:+ sep +:+ str_join sep rest
    end
  end.

(** The value of 'sbatch_args' in the arguments of the plugin. *)
Definition sbatch_args (email : string) (mail_on : list string) : string :=
  str_join " "
    ((λ a : string * string, "--" +:+ a.1 +:+ "=" +:+ a.2) <$>
     (("mail-user", email) :: ((λ mo, ("mail-type", mo)) <$> mail_on))).

Section submit.
Context {V : Type} `{!EqDecision V}.
Variable study : Study.
Variable getters : string → gmap string V → result (Pipeline (V:=V)).
Variable converter_fields : string → string → string * string.

(** [Pipeline.submit], up to the call of [complete_workflow.run]: returns
    the sbatch arguments of the plugin and the complete workflow that is
    run with it. [environ] is [os.environ]. *)
Definition submit (environ : gmap string string) (depth : nat)
    (self : Pipeline (V:=V)) (scheduler : string) (email : option string)
    (mail_on : list string) (subject_ids visit_ids : option (list string))
    (reprocess : reprocess_flag) (project : option Project)
    : submit_exn + (string * (option Node * Run (V:=V))) :=
  match (match email with
         | Some e => Some e
         | None => environ !! "EMAIL"
         end) with
  | None =>
    inl (raised_exn (NiAnalysisError
      "'email' needs to be provided if 'EMAIL' environment variable not set"))
  | Some email =>
    if decide (scheduler = "slurm") then
      match connect_to_archive_top study getters converter_fields depth self
              subject_ids visit_ids reprocess project (mkRun 0 [] [] [] ∅) with
      | Ok r => inr (sbatch_args email mail_on, r)
      | Raise e => inl (raised_exn e)
      end
    else inl (NiAnalysisUsageError
                ("Unsupported scheduler '" +:+ scheduler +:+ "'"))
  end.

End submit.

(** ** [nianalysis/utils.py] *)

(** What [get_atlas_path] can raise: ArcanaError, or the KeyError of
    [os.environ]. *)
Inductive utils_exn : Set :=
  | ArcanaError (msg : string)
  | EnvironKeyError (key : string).

Fixpoint ends_with_slash (s : string) : bool :=
  match s with
  | EmptyString => false
  | String c rest =>
    match rest with
    | EmptyString => bool_decide (String c EmptyString = "/")
    | String _ _ => ends_with_slash rest
    end
  end.

(** [os.path.join(a, b)] of posixpath *)
Definition path_join (a b : string) : string :=
  if String.prefix "/" b then b
  else if bool_decide (a = "") || ends_with_slash a then a +:+ b
  else a +:+ "/" +:+ b.

(** [get_fsl_reference_path] *)
Definition get_fsl_reference_path (environ : gmap string string)
    : utils_exn + string :=
  match environ !! "FSLDIR" with
  | Some fsldir => inr (path_join (path_join fsldir "data") "standard")
  | None => inl (EnvironKeyError "FSLDIR")
  end.

(** The file in the FSL reference directory. *)
Definition fsl_reference_file (environ : gmap string string) (file : string)
    : utils_exn + string :=
  match get_fsl_reference_path environ with
  | inr ref => inr (path_join ref file)
  | inl e => inl e
  end.

(** [get_atlas_path]; [abspath] is [os.path.abspath]. *)
Definition get_atlas_path (abspath : string → string)
    (environ : gmap string string) (name dataset resolution : string)
    : utils_exn + string :=
  if decide (name = "MNI152") then
    if decide (resolution ∉ ["0.5mm"; "1mm"; "2mm"]) then
      inl (ArcanaError ("Invalid resolution for MNI152, '" +:+ resolution +:+
             "', can be one of '0.5mm', '1mm' or '2mm'"))
    else
      match
        (if decide (dataset = "image") then
           fsl_reference_file environ ("MNI152_T1_" +:+ resolution +:+ ".nii.gz")
         else if decide (dataset = "mask") then
           fsl_reference_file environ
             ("MNI152_T1_" +:+ resolution +:+ "_brain_mask.nii.gz")
         else if decide (dataset = "mask_dilated") then
           if decide (resolution ≠ "2mm") then
             inl (ArcanaError ("Dilated MNI masks are not available for " +:+
                    resolution +:+ " resolution "))
           else fsl_reference_file environ
                  ("MNI152_T1_" +:+ resolution +:+ "_brain_mask_dil.nii.gz")
         else if decide (dataset = "brain") then
           fsl_reference_file environ
             ("MNI152_T1_" +:+ resolution +:+ "_brain.nii.gz")
         else inl (ArcanaError ("Unrecognised dataset '" +:+ dataset +:+ "'")))
      with
      | inr path => inr (abspath path)
      | inl e => inl e
      end
  else inl (ArcanaError ("Unrecognised atlas name '" +:+ name +:+ "'")).

(** The arguments that [get_atlas_path] accepts. *)
Definition atlas_arguments_valid (name dataset resolution : string) : Prop :=
  name = "MNI152" ∧ resolution ∈ ["0.5mm"; "1mm"; "2mm"] ∧
  (dataset ∈ ["image"; "mask"; "brain"] ∨
   dataset = "mask_dilated" ∧ resolution = "2mm").

(** The shared objects after 'segment' has been connected on top of
    what the request of 'prep' by 'extract' left. *)
Definition ex_run_after_segment : Run (V:=nat) :=
  match connect_to_archive ex_study (ex_getters 5) ex_converter_fields 3
          (ex_segment 5) None None RFalse None (ex_run_after_extract 5) with
  | Ok (_, st) => st
  | Raise _ => ex_run
  end.

(** Between [st] and [st'] the shared objects have only been added to:
    the embedded workflows, the iterables and the connections of [st] are
    those of [st'] up to where [st] ends, and what [connected_prereqs]
    held it still holds. *)
Definition grows {V : Type} (st st' : Run (V:=V)) : Prop :=
  embedded st `prefix_of` embedded st' ∧
  iterating st `prefix_of` iterating st' ∧
  connections st `prefix_of` connections st' ∧
  connected_prereqs st ⊆ connected_prereqs st'.

(** A computation that only adds to the shared objects. *)
Definition growing {V A : Type} (c : M (V:=V) A) : Prop :=
  ∀ st a st', c st = Ok (a, st') → grows st st'.

(** * Properties *)

(** ** Selection of the sessions to process *)

Section selector_facts.
Variable dataset : string → Dataset.
Variable project : Project.
Variable visit_ids : option (list string).

Lemma elem_of_all_sessions (s : Session) :
  s ∈ all_sessions project ↔
  ∃ sub, sub ∈ project_subjects project ∧ s ∈ subject_sessions sub.
Proof.
  unfold all_sessions. rewrite list_elem_of_join. split.
  - intros (l & Hs & Hl). apply list_elem_of_fmap in Hl as (sub & -> & Hsub).
    eauto.
  - intros (sub & Hsub & Hs). exists (subject_sessions sub). split; [done|].
    by apply list_elem_of_fmap_2.
Qed.

Lemma elem_of_sessions_of_subjects_lacking (name : string) (s : Session) :
  s ∈ sessions_of_subjects_lacking project visit_ids name ↔
  ∃ sub, sub ∈ project_subjects project ∧
         (name ∉ subject_dataset_names sub) ∧
         s ∈ filter_sessions visit_ids (subject_sessions sub).
Proof.
  unfold sessions_of_subjects_lacking. rewrite list_elem_of_join. split.
  - intros (l & Hs & Hl). apply list_elem_of_fmap in Hl as (sub & -> & Hsub).
    apply list_elem_of_filter in Hsub as [Hlack Hsub]. eauto.
  - intros (sub & Hsub & Hlack & Hs).
    exists (filter_sessions visit_ids (subject_sessions sub)). split; [done|].
    apply list_elem_of_fmap. exists sub. split; [done|].
    by apply list_elem_of_filter.
Qed.

Lemma elem_of_set_update (acc xs : list Session) (s : Session) :
  s ∈ set_update acc xs ↔ s ∈ acc ∨ s ∈ xs.
Proof. unfold set_update. by rewrite elem_of_remove_dups, elem_of_app. Qed.

(** A missing per_project output ends the loop with all the sessions,
    whatever was collected before it. *)
Lemma outputs_loop_project_missing (outs : list DatasetSpec) (o : DatasetSpec)
    (acc : list Session) :
  o ∈ outs →
  dataset_multiplicity (dataset (spec_name o)) = per_project →
  prefixed_name (dataset (spec_name o)) ∉ project_dataset_names project →
  outputs_loop dataset project visit_ids outs acc = all_sessions project.
Proof.
  intros Hin Hmult Hmiss. revert acc.
  induction outs as [|o' outs IH]; intros acc.
  - by apply elem_of_nil in Hin.
  - apply elem_of_cons in Hin as [<- | Hin]; simpl.
    + rewrite Hmult. by rewrite decide_False.
    + destruct (dataset_multiplicity (dataset (spec_name o'))); auto.
      case_decide; auto.
Qed.

(** C1. When a desired output is a project-level dataset whose prefixed
    name is not among the dataset names of the project,
    [_sessions_to_process] with [reprocess=False] returns all the sessions
    of all the subjects of the project, whatever [visit_ids] is. *)
Theorem project_output_missing_selects_all (outs : list DatasetSpec)
    (o : DatasetSpec) :
  o ∈ outs →
  dataset_multiplicity (dataset (spec_name o)) = per_project →
  prefixed_name (dataset (spec_name o)) ∉ project_dataset_names project →
  _sessions_to_process dataset outs project visit_ids RFalse
    = all_sessions project ∧
  ∀ sub s, sub ∈ project_subjects project → s ∈ subject_sessions sub →
    s ∈ _sessions_to_process dataset outs project visit_ids RFalse.
Proof.
  intros Hin Hmult Hmiss.
  assert (_sessions_to_process dataset outs project visit_ids RFalse
          = all_sessions project) as Heq.
  { unfold _sessions_to_process. simpl.
    by eapply outputs_loop_project_missing. }
  split; [done|]. intros sub s Hsub Hs. rewrite Heq.
  apply elem_of_all_sessions. eauto.
Qed.

(** C2, as amended. For a single desired per_visit output and
    [reprocess=False], the sessions returned are those (kept by the visit
    filter) of the subjects whose own dataset names lack the prefixed
    name: the test is the one made for per_subject outputs. *)
Theorem visit_output_selects_by_subject (o : DatasetSpec) (s : Session) :
  dataset_multiplicity (dataset (spec_name o)) = per_visit →
  s ∈ _sessions_to_process dataset [o] project visit_ids RFalse ↔
  ∃ sub, sub ∈ project_subjects project ∧
         (prefixed_name (dataset (spec_name o)) ∉ subject_dataset_names sub) ∧
         s ∈ filter_sessions visit_ids (subject_sessions sub).
Proof.
  intros Hmult. unfold _sessions_to_process. simpl. rewrite Hmult.
  rewrite elem_of_set_update, elem_of_sessions_of_subjects_lacking.
  split; [intros [H|H]; [by apply elem_of_nil in H | done] | auto].
Qed.

End selector_facts.

Lemma project_output_missing_selects_all_witness :
  _sessions_to_process ex_dataset
    [mkDatasetSpec "mean" "nifti_gz"; mkDatasetSpec "template" "nifti_gz"]
    ex_project (Some ["1"]) RFalse = all_sessions ex_project ∧
  ∀ sub s, sub ∈ project_subjects ex_project → s ∈ subject_sessions sub →
    s ∈ _sessions_to_process ex_dataset
      [mkDatasetSpec "mean" "nifti_gz"; mkDatasetSpec "template" "nifti_gz"]
      ex_project (Some ["1"]) RFalse.
Proof.
  apply (project_output_missing_selects_all ex_dataset ex_project (Some ["1"])
           _ (mkDatasetSpec "template" "nifti_gz")).
  - apply list_elem_of_In. simpl. auto.
  - reflexivity.
  - apply not_elem_of_nil.
Defined.

Lemma visit_output_selects_by_subject_witness :
  ex_session "A" "1" ∈ _sessions_to_process ex_dataset
    [mkDatasetSpec "mean" "nifti_gz"] ex_project None RFalse ↔
  ∃ sub, sub ∈ project_subjects ex_project ∧
         (prefixed_name (ex_dataset "mean") ∉ subject_dataset_names sub) ∧
         ex_session "A" "1" ∈ filter_sessions None (subject_sessions sub).
Proof.
  apply (visit_output_selects_by_subject ex_dataset ex_project None
           (mkDatasetSpec "mean" "nifti_gz")).
  reflexivity.
Defined.

(** C2 as stated does not hold: the dataset is on every session of visit 1 and
    on none of visit 2, there is no visit filter, and the sessions
    returned are not those of visit 2: the session of subject A at visit 1
    is returned too. *)
Lemma visit_output_not_by_visit :
  (∀ s, s ∈ all_sessions ex_project →
        (prefixed_name (ex_dataset "mean") ∈ session_dataset_names s ↔
         session_id s = "1")) ∧
  ¬ (∀ s, s ∈ _sessions_to_process ex_dataset
              [mkDatasetSpec "mean" "nifti_gz"] ex_project None RFalse ↔
          s ∈ all_sessions ex_project ∧ session_id s = "2").
Proof.
  split.
  - intros s Hs. apply list_elem_of_In in Hs. simpl in Hs.
    destruct Hs as [<-|[<-|[<-|[<-|[]]]]];
      rewrite list_elem_of_In; vm_compute; intuition congruence.
  - intros H. destruct (H (ex_session "A" "1")) as [H1 _].
    destruct H1 as [_ H1]; [|discriminate H1].
    apply list_elem_of_In. vm_compute. auto.
Qed.

(** ** The subject and visit iterators *)

Section iterator_facts.

Lemma filter_none {A : Type} (P : A → Prop) `{!∀ x, Decision (P x)}
    (l : list A) :
  (∀ x, x ∈ l → ¬ P x) → filter P l = [].
Proof.
  induction l as [|a l IH]; intros Hnone; [done|].
  rewrite filter_cons_False by (apply Hnone; left).
  apply IH. intros x Hx. apply Hnone. by right.
Qed.

Lemma elem_of_subjects_with (sessions : list Session) (v sid : string) :
  sid ∈ subjects_with sessions v ↔ has_visit sessions sid v.
Proof.
  unfold subjects_with, has_visit.
  rewrite elem_of_list_to_set, list_elem_of_fmap. split.
  - intros (s & -> & Hs). apply list_elem_of_filter in Hs as [? ?]. eauto.
  - intros (s & Hs & Hv & Hsid). exists s. split; [done|].
    by apply list_elem_of_filter.
Qed.

Lemma session_subjects_snoc (l : list Session) (s : Session) :
  session_subjects (l ++ [s]) =
  <[session_id s := default ∅ (session_subjects l !! session_id s)
                    ∪ {[session_subject s]}]> (session_subjects l).
Proof. unfold session_subjects. by rewrite foldl_snoc. Qed.

Lemma subject_sessions_of_snoc (l : list Session) (s : Session) :
  subject_sessions_of (l ++ [s]) =
  <[session_subject s := default [] (subject_sessions_of l !! session_subject s)
                         ++ [session_id s]]> (subject_sessions_of l).
Proof. unfold subject_sessions_of. by rewrite foldl_snoc. Qed.

(** The dictionary built by the first loop. *)
Lemma session_subjects_lookup (l : list Session) (v : string) :
  session_subjects l !! v =
  if decide (v ∈ session_id <$> l) then Some (subjects_with l v) else None.
Proof.
  induction l as [|s l IH] using rev_ind.
  - by rewrite decide_False by apply not_elem_of_nil.
  - rewrite session_subjects_snoc, fmap_app. simpl.
    destruct (decide (session_id s = v)) as [Hv|Hv].
    + subst v. rewrite lookup_insert_eq.
      rewrite decide_True by (apply elem_of_app; right; apply list_elem_of_singleton; done).
      f_equal. rewrite IH. unfold subjects_with.
      rewrite list.filter_app, fmap_app, list_to_set_app_L.
      rewrite (filter_cons_True _ s []) by done. rewrite filter_nil. simpl.
      case_decide as Hin; simpl; [by rewrite (right_id_L ∅ (∪))|].
      assert (filter (λ s0, session_id s0 = session_id s) l = []) as ->;
        [|by rewrite (right_id_L ∅ (∪))].
      apply filter_none. intros s' Hs' Heq.
      apply Hin, list_elem_of_fmap. eauto.
    + rewrite lookup_insert_ne by done. rewrite IH.
      unfold subjects_with. rewrite list.filter_app.
      rewrite (filter_cons_False _ s []) by done. rewrite filter_nil, app_nil_r.
      assert (v ∈ (session_id <$> l) ++ [session_id s] ↔ v ∈ session_id <$> l)
        as Hiff
        by (rewrite elem_of_app, list_elem_of_singleton;
            split; [intros [?|?]; [done|congruence] | by left]).
      destruct (decide (v ∈ session_id <$> l)),
        (decide (v ∈ (session_id <$> l) ++ [session_id s]));
        try done; exfalso; tauto.
Qed.

(** The dictionary built by the second loop. *)
Lemma subject_sessions_of_lookup (l : list Session) (sid : string) :
  subject_sessions_of l !! sid =
  if decide (sid ∈ session_subject <$> l)
  then Some (session_id <$> filter (λ s, session_subject s = sid) l)
  else None.
Proof.
  induction l as [|s l IH] using rev_ind.
  - by rewrite decide_False by apply not_elem_of_nil.
  - rewrite subject_sessions_of_snoc, fmap_app. simpl.
    destruct (decide (session_subject s = sid)) as [Hv|Hv].
    + subst sid. rewrite lookup_insert_eq.
      rewrite decide_True by (apply elem_of_app; right; apply list_elem_of_singleton; done).
      f_equal. rewrite IH.
      rewrite list.filter_app, fmap_app.
      rewrite (filter_cons_True _ s []) by done. rewrite filter_nil. simpl.
      case_decide as Hin; simpl; [done|].
      assert (filter (λ s0, session_subject s0 = session_subject s) l = []) as ->;
        [|done].
      apply filter_none. intros s' Hs' Heq.
      apply Hin, list_elem_of_fmap. eauto.
    + rewrite lookup_insert_ne by done. rewrite IH.
      rewrite list.filter_app.
      rewrite (filter_cons_False _ s []) by done. rewrite filter_nil, app_nil_r.
      assert (sid ∈ (session_subject <$> l) ++ [session_subject s] ↔
              sid ∈ session_subject <$> l)
        as Hiff
        by (rewrite elem_of_app, list_elem_of_singleton;
            split; [intros [?|?]; [done|congruence] | by left]).
      destruct (decide (sid ∈ session_subject <$> l)),
        (decide (sid ∈ (session_subject <$> l) ++ [session_subject s]));
        try done; exfalso; tauto.
Qed.

(** The test of [all(...)] is the condition on visits and subjects. *)
Lemma visits_uniform_spec (l : list Session) :
  visits_uniform l = true ↔ same_subjects_at_every_visit l.
Proof.
  unfold visits_uniform, same_subjects_at_every_visit.
  rewrite bool_decide_eq_true, map_Forall_lookup. split.
  - intros H v Hv sid.
    specialize (H v (subjects_with l v)).
    rewrite session_subjects_lookup, decide_True in H by done.
    specialize (H eq_refl). rewrite <- elem_of_subjects_with, H.
    unfold subject_ids_to_process. by rewrite elem_of_list_to_set.
  - intros H v ss. rewrite session_subjects_lookup.
    case_decide as Hv; [|done]. intros [= <-].
    apply set_eq. intros sid. rewrite elem_of_subjects_with, (H v Hv).
    unfold subject_ids_to_process. by rewrite elem_of_list_to_set.
Qed.

Lemma sessions_binding_uniform (name : string) (l : list Session) :
  visits_uniform l = true → flat_binding l (sessions_binding name l).
Proof.
  intros Hu. unfold sessions_binding. rewrite Hu.
  eexists. split; [done|]. intros v.
  rewrite list_elem_of_fmap. split.
  - intros ([v' ss] & -> & Hin). apply elem_of_map_to_list in Hin. simpl.
    rewrite session_subjects_lookup in Hin. by case_decide.
  - intros Hv. exists (v, subjects_with l v). split; [done|].
    apply elem_of_map_to_list. rewrite session_subjects_lookup.
    by rewrite decide_True.
Qed.

Lemma sessions_binding_not_uniform (name : string) (l : list Session) :
  visits_uniform l = false → sourced_binding name l (sessions_binding name l).
Proof.
  intros Hu. unfold sessions_binding. rewrite Hu.
  eexists. split; [done|]. apply subject_sessions_of_lookup.
Qed.

Lemma flat_not_sourced (name : string) (l : list Session) b :
  flat_binding l b → ¬ sourced_binding name l b.
Proof. intros (ids & -> & _) (m & Hm & _). discriminate Hm. Qed.

End iterator_facts.

(** C3. For a non-empty work set, the visit axis is bound as a flat list
    of the selected visit ids, without [itersource], if and only if for
    every selected visit id the subject ids having that visit are all the
    selected subject ids; otherwise it is bound as a dictionary from each
    selected subject id to its visit ids, with the subjects node as
    [itersource]. When all the selected subjects have the same visit ids
    the binding is flat; when two selected subjects have no visit id in
    common it is sourced. *)
Theorem visit_axis_binding (name : string) (sessions : list Session) :
  sessions ≠ [] →
  (flat_binding sessions (sessions_binding name sessions) ↔
   same_subjects_at_every_visit sessions) ∧
  (sourced_binding name sessions (sessions_binding name sessions) ↔
   ¬ same_subjects_at_every_visit sessions) ∧
  ((∀ a b v, a ∈ session_subject <$> sessions →
             b ∈ session_subject <$> sessions →
             has_visit sessions a v → has_visit sessions b v) →
   flat_binding sessions (sessions_binding name sessions)) ∧
  (∀ a b, a ∈ session_subject <$> sessions →
          b ∈ session_subject <$> sessions →
          (∀ v, ¬ (has_visit sessions a v ∧ has_visit sessions b v)) →
          sourced_binding name sessions (sessions_binding name sessions)).
Proof.
  intros _.
  assert (flat_binding sessions (sessions_binding name sessions) ↔
          same_subjects_at_every_visit sessions) as Hflat.
  { rewrite <- visits_uniform_spec. split.
    - intros Hf. destruct (visits_uniform sessions) eqn:Hu; [done|].
      exfalso. eapply flat_not_sourced; [exact Hf|].
      by apply sessions_binding_not_uniform.
    - apply sessions_binding_uniform. }
  assert (sourced_binding name sessions (sessions_binding name sessions) ↔
          ¬ same_subjects_at_every_visit sessions) as Hsrc.
  { rewrite <- visits_uniform_spec. split.
    - intros Hs Hu. apply sessions_binding_uniform with (name := name) in Hu.
      by eapply flat_not_sourced.
    - intros Hn. apply sessions_binding_not_uniform.
      by destruct (visits_uniform sessions). }
  split; [done|]. split; [done|]. split.
  - intros Hsame. apply Hflat. intros v Hv sid. split.
    + intros (s & Hs & _ & <-). by apply list_elem_of_fmap_2.
    + intros Hsid. apply list_elem_of_fmap in Hv as (s & -> & Hs).
      apply (Hsame (session_subject s) sid); [by apply list_elem_of_fmap_2|done|].
      by exists s.
  - intros a b Ha Hb Hdisj. apply Hsrc. intros Hsame.
    apply list_elem_of_fmap in Ha as (s & -> & Hs).
    apply (Hdisj (session_id s)). split; [by exists s|].
    apply Hsame; [by apply list_elem_of_fmap_2|done].
Qed.

Lemma visit_axis_binding_witness :
  flat_binding (all_sessions ex_project)
    (sessions_binding "prep" (all_sessions ex_project)) ↔
  same_subjects_at_every_visit (all_sessions ex_project).
Proof.
  apply (visit_axis_binding "prep" (all_sessions ex_project)).
  discriminate.
Defined.

(** Two subjects at the same two visits, and two subjects at different
    visits. *)
Example sessions_binding_same_visits :
  sessions_binding "prep"
    [ex_session "A" "1"; ex_session "A" "2";
     ex_session "B" "1"; ex_session "B" "2"]
  = (("visit_id", values_flat ["1"; "2"]), None).
Proof. vm_compute. reflexivity. Qed.

Example sessions_binding_disjoint_visits :
  sessions_binding "prep" [ex_session "A" "1"; ex_session "B" "2"]
  = (("visit_id", values_by_source {[ "A" := ["1"]; "B" := ["2"] ]}),
     Some ("prep_subjects", "subject_id")).
Proof. vm_compute. reflexivity. Qed.

(** ** The options of a pipeline *)

Section options_facts.
Context {V : Type}.

Lemma update_options_cons (R0 : gmap string V) (k : string) (v : V)
    (its : list (string * V)) :
  update_options R0 ((k, v) :: its) =
  update_options (if decide (is_Some (R0 !! k)) then <[k := v]> R0 else R0) its.
Proof. reflexivity. Qed.

(** The loop over the items of [options], for items with distinct keys. *)
Lemma update_options_lookup (its : list (string * V)) (R0 : gmap string V)
    (k : string) :
  NoDup its.*1 →
  update_options R0 its !! k =
  match R0 !! k with
  | Some dv => Some (default dv ((list_to_map its : gmap string V) !! k))
  | None => None
  end.
Proof.
  revert R0. induction its as [|[k1 v1] its IH]; intros R0 Hnd.
  - simpl. rewrite lookup_empty. by destruct (R0 !! k).
  - apply list.NoDup_cons in Hnd as [Hk1 Hnd]. rewrite update_options_cons.
    rewrite IH by done. simpl.
    destruct (decide (k = k1)) as [->|Hne].
    + rewrite lookup_insert_eq.
      rewrite (not_elem_of_list_to_map_1 _ k1 Hk1).
      case_decide as Hs.
      * rewrite lookup_insert_eq. by destruct Hs as [dv ->].
      * apply eq_None_not_Some in Hs. by rewrite Hs.
    + rewrite (lookup_insert_ne _ k1 k) by done.
      case_decide; [by rewrite lookup_insert_ne|done].
Qed.

Lemma update_options_map (D O : gmap string V) (k : string) :
  update_options D (map_to_list O) !! k =
  match D !! k with
  | Some dv => Some (default dv (O !! k))
  | None => None
  end.
Proof.
  rewrite update_options_lookup by apply NoDup_fst_map_to_list.
  by rewrite list_to_map_to_list.
Qed.

Lemma dict_contains_lookup (h : gmap nat (gmap string V)) (l : nat)
    (R0 : gmap string V) (k : string) :
  h !! l = Some R0 → dict_contains h l k = bool_decide (is_Some (R0 !! k)).
Proof. intros Hl. unfold dict_contains. by rewrite Hl. Qed.

Lemma dict_setitem_lookup (h : gmap nat (gmap string V)) (l : nat)
    (R0 : gmap string V) (k : string) (v : V) :
  h !! l = Some R0 → dict_setitem h l k v = <[l := <[k := v]> R0]> h.
Proof. intros Hl. unfold dict_setitem. by rewrite Hl. Qed.

(** The loop on the store writes to the dictionary of [self._options]
    only, and computes [update_options] there. *)
Lemma store_loop (its : list (string * V)) (h : gmap nat (gmap string V))
    (l : nat) (R0 : gmap string V) :
  h !! l = Some R0 →
  foldl (λ h' kv, if dict_contains h' l kv.1
                  then dict_setitem h' l kv.1 kv.2 else h') h its
  = <[l := update_options R0 its]> h.
Proof.
  revert h R0. induction its as [|[k v] its IH]; intros h R0 Hl.
  - simpl. by rewrite insert_id.
  - rewrite update_options_cons. cbn [foldl fst snd].
    rewrite (dict_contains_lookup h l R0 k Hl),
      (dict_setitem_lookup h l R0 k v Hl).
    case_bool_decide as Hs.
    + rewrite decide_True by done.
      rewrite (IH _ (<[k := v]> R0)) by apply lookup_insert_eq.
      by rewrite insert_insert_eq.
    + rewrite decide_False by done. by apply IH.
Qed.

(** C10. The options of a constructed pipeline are held by a new
    dictionary with exactly the keys of [default_options]; each key has
    the value of [options] when [options] has the key and the default
    value otherwise; the keys of [options] that are not defaults are
    dropped without error; the dictionaries of the caller are left as
    they were. The value-level constructor [__init__] stores the same
    options. *)
Theorem options_override_defaults `{!EqDecision V}
    (h : gmap nat (gmap string V)) (default_options options : nat)
    (D O : gmap string V) :
  h !! default_options = Some D →
  h !! options = Some O →
  ∃ R, (init_options h default_options options).1
         !! (init_options h default_options options).2 = Some R ∧
       (init_options h default_options options).2 ≠ default_options ∧
       dom R = dom D ∧
       (∀ k dv, D !! k = Some dv → R !! k = Some (default dv (O !! k))) ∧
       (∀ k, D !! k = None → R !! k = None) ∧
       (init_options h default_options options).1 !! default_options = Some D ∧
       (init_options h default_options options).1 !! options = Some O ∧
       ∀ study name ins outs description citations version p,
         __init__ study name ins outs description D citations version O = Ok p →
         _options p = R ∧ _default_options p = D.
Proof.
  intros HD HO. unfold init_options, copy. simpl.
  set (l := fresh (dom h)).
  assert (h !! l = None) as Hl.
  { apply not_elem_of_dom. apply is_fresh. }
  assert (l ≠ default_options) as Hld by (intros ->; congruence).
  assert (l ≠ options) as Hlo by (intros ->; congruence).
  rewrite HD. simpl. rewrite (lookup_insert_ne _ l options) by done.
  rewrite HO. simpl.
  rewrite (store_loop _ _ l D) by apply lookup_insert_eq.
  rewrite insert_insert_eq.
  exists (update_options D (map_to_list O)).
  split; [apply lookup_insert_eq|]. split; [done|]. split.
  { apply set_eq. intros k. rewrite !elem_of_dom, update_options_map.
    destruct (D !! k); [by split; eauto | by split; intros []]. }
  split. { intros k dv Hk. by rewrite update_options_map, Hk. }
  split. { intros k Hk. by rewrite update_options_map, Hk. }
  split. { by rewrite lookup_insert_ne. }
  split. { by rewrite lookup_insert_ne. }
  intros study name ins outs description citations version p.
  unfold __init__. destruct (_check_spec_names study ins "input"); [|done].
  simpl. case_bool_decide; [done|].
  destruct (_check_spec_names study outs "output"); [|done]. simpl.
  repeat case_decide; try done. by intros [= <-].
Qed.

End options_facts.

Lemma options_override_defaults_witness :
  ∃ R : gmap string nat,
    (init_options {[ 0 := {[ "robust" := 1; "threshold" := 5 ]};
                     1 := {[ "threshold" := 7; "verbose" := 1 ]} ]} 0 1).1
      !! (init_options {[ 0 := {[ "robust" := 1; "threshold" := 5 ]};
                          1 := {[ "threshold" := 7; "verbose" := 1 ]} ]} 0 1).2
      = Some R ∧
    dom R = dom ({[ "robust" := 1; "threshold" := 5 ]} : gmap string nat).
Proof.
  destruct (options_override_defaults
              {[ 0 := {[ "robust" := 1; "threshold" := 5 ]};
                 1 := {[ "threshold" := 7; "verbose" := 1 ]} ]} 0 1
              {[ "robust" := 1; "threshold" := 5 ]}
              {[ "threshold" := 7; "verbose" := 1 ]})
    as (R & HR & _ & Hdom & _); [reflexivity | reflexivity |].
  exists R. split; [exact HR | exact Hdom].
Defined.

Example init_options_run :
  (init_options {[ 0 := {[ "robust" := 1; "threshold" := 5 ]};
                   1 := {[ "threshold" := 7; "verbose" := 1 ]} ]} 0 1)
  = ({[ 0 := {[ "robust" := 1; "threshold" := 5 ]};
        1 := {[ "threshold" := 7; "verbose" := 1 ]};
        2 := {[ "robust" := 1; "threshold" := 7 ]} ]}, 2).
Proof. vm_compute. reflexivity. Qed.

(** ** Construction *)

Lemma size_list_to_set_le (l : list string) :
  size (list_to_set l : gset string) ≤ length l.
Proof.
  induction l as [|a l IH].
  - change (size (∅ : gset string) ≤ 0). by rewrite size_empty.
  - change (size ({[a]} ∪ list_to_set l : gset string) ≤ S (length l)).
    rewrite size_union_alt, size_singleton.
    pose proof (subseteq_size (list_to_set l ∖ {[a]}) (list_to_set l : gset string))
      as Hle.
    specialize (Hle (subseteq_difference_l _ _ _ (reflexivity _))). lia.
Qed.

(** The assertion on the lengths holds only for names without duplicates. *)
Lemma size_list_to_set_NoDup (l : list string) :
  length l = size (list_to_set l : gset string) → NoDup l.
Proof.
  induction l as [|a l IH]; intros Hsize.
  - constructor.
  - change (S (length l) = size ({[a]} ∪ list_to_set l : gset string)) in Hsize.
    apply list.NoDup_cons. destruct (decide (a ∈ l)) as [Hin|Hin].
    + exfalso. pose proof (size_list_to_set_le l) as Hle.
      assert ({[a]} ∪ list_to_set l = (list_to_set l : gset string)) as Heq.
      { apply set_eq. intros x.
        rewrite elem_of_union, elem_of_singleton, elem_of_list_to_set.
        split; [intros [->|?]; done | auto]. }
      rewrite Heq in Hsize. lia.
    + split; [done|]. apply IH.
      rewrite size_union, size_singleton in Hsize.
      * lia.
      * intros x Hx1 Hx2. apply elem_of_singleton in Hx1 as ->.
        by apply elem_of_list_to_set in Hx2.
Qed.

Section construction_facts.
Context {V : Type} `{!EqDecision V}.
Variable study : Study.

Lemma group_outputs_snoc (outs : list DatasetSpec) (o : DatasetSpec) :
  group_outputs study (outs ++ [o]) =
  <[dataset_multiplicity (dataset_spec study (spec_name o)) :=
      default [] (group_outputs study outs
                  !! dataset_multiplicity (dataset_spec study (spec_name o)))
      ++ [o]]> (group_outputs study outs).
Proof. unfold group_outputs. by rewrite foldl_snoc. Qed.

(** Appending to the list kept under a key appends to the chained
    values, up to the order of the keys. *)
Lemma values_insert_append (m : gmap multiplicity (list DatasetSpec))
    (k : multiplicity) (o : DatasetSpec) :
  mjoin (map_to_list (<[k := default [] (m !! k) ++ [o]]> m)).*2
  ≡ₚ mjoin (map_to_list m).*2 ++ [o].
Proof.
  destruct (m !! k) as [l|] eqn:Hk; simpl.
  - rewrite <- insert_delete_eq.
    rewrite map_to_list_insert by apply lookup_delete_eq.
    rewrite <- (map_to_list_delete m k l Hk). simpl.
    rewrite <- !app_assoc. apply Permutation_app_head, Permutation_app_comm.
  - rewrite map_to_list_insert by done. simpl.
    apply Permutation_cons_append.
Qed.

(** The outputs chained from the groups are the declared outputs, in some
    order. *)
Lemma grouped_outputs_permutation (outs : list DatasetSpec) :
  mjoin (map_to_list (group_outputs study outs)).*2 ≡ₚ outs.
Proof.
  induction outs as [|o outs IH] using rev_ind.
  - unfold group_outputs. simpl. by rewrite map_to_list_empty.
  - rewrite group_outputs_snoc, values_insert_append. by rewrite IH.
Qed.

Lemma group_outputs_key (outs : list DatasetSpec) (o : DatasetSpec) :
  o ∈ outs →
  is_Some (group_outputs study outs
           !! dataset_multiplicity (dataset_spec study (spec_name o))).
Proof.
  induction outs as [|o' outs IH] using rev_ind; intros Hin.
  - by apply elem_of_nil in Hin.
  - rewrite group_outputs_snoc.
    apply elem_of_app in Hin as [Hin|Hin].
    + rewrite lookup_insert. case_decide; [eauto|]. by apply IH.
    + apply list_elem_of_singleton in Hin as ->. rewrite lookup_insert_eq. eauto.
Qed.

(** What a successful construction says of its arguments and of the
    object built. *)
Lemma init_ok (name : string) (ins outs : list DatasetSpec)
    (description : string) (default_options : gmap string V)
    (citations : list string) (version : Z) (options : gmap string V)
    (p : Pipeline) :
  __init__ study name ins outs description default_options citations
    version options = Ok p →
  ¬ Exists (λ i, spec_name i ∈ iterfields) ins ∧
  NoDup (spec_name <$> ins) ∧ NoDup (spec_name <$> outs) ∧
  _inputs p = ins ∧ _outputs p = group_outputs study outs ∧
  _unconnected_inputs p = list_to_set (input_names p) ∧
  _unconnected_outputs p = list_to_set (output_names p) ∧
  (∀ mult, is_Some (_outputnodes p !! mult) ↔ is_Some (_outputs p !! mult)).
Proof.
  unfold __init__. destruct (_check_spec_names study ins "input"); [|done].
  simpl. case_bool_decide as Hres; [done|].
  destruct (_check_spec_names study outs "output"); [|done]. simpl.
  case_decide as Hin; [|done]. case_decide as Hout; [|done].
  intros [= <-]. simpl.
  split; [done|]. split; [by apply size_list_to_set_NoDup; rewrite length_fmap|].
  split.
  { rewrite <- (grouped_outputs_permutation outs).
    apply size_list_to_set_NoDup. rewrite length_fmap.
    by rewrite (grouped_outputs_permutation outs) at 1. }
  split; [done|]. split; [done|]. split; [done|]. split; [done|].
  intros mult. rewrite map_lookup_imap.
  destruct (group_outputs study outs !! mult); simpl; split; eauto;
    intros [? ?]; done.
Qed.

(** C9, as amended. Construction raises whenever a declared input name
    is one of the two iterable fields, and whenever the declared input
    names or the declared output names contain a duplicate. *)
Theorem construction_rejects (name : string) (ins outs : list DatasetSpec)
    (description : string) (default_options : gmap string V)
    (citations : list string) (version : Z) (options : gmap string V) :
  Exists (λ i, spec_name i ∈ iterfields) ins ∨
  ¬ NoDup (spec_name <$> ins) ∨ ¬ NoDup (spec_name <$> outs) →
  raised (__init__ study name ins outs description default_options
            citations version options).
Proof.
  intros Hbad.
  destruct (__init__ study name ins outs description default_options
              citations version options) as [p|e] eqn:Hinit; [|done].
  apply init_ok in Hinit as (Hres & Hins & Houts & _). simpl. tauto.
Qed.

End construction_facts.

Lemma construction_rejects_witness :
  raised (__init__ (V:=nat) ex_study "prep"
            [mkDatasetSpec "primary" "nifti_gz"; mkDatasetSpec "primary" "dicom"]
            [mkDatasetSpec "preproc" "nifti_gz"] "" ∅ [] 1 ∅).
Proof.
  apply (construction_rejects ex_study "prep"
           [mkDatasetSpec "primary" "nifti_gz"; mkDatasetSpec "primary" "dicom"]
           [mkDatasetSpec "preproc" "nifti_gz"] "" ∅ [] 1 ∅).
  right; left. intros Hnd. apply list.NoDup_cons in Hnd as [Hnotin _].
  apply Hnotin. left.
Defined.

(** C9 as stated does not hold for outputs: a declared output named after an
    iterable field, known to the study, is accepted. *)
Lemma output_named_as_iterfield_accepted :
  Exists (λ o, spec_name o ∈ iterfields) [mkDatasetSpec "subject_id" "nifti_gz"] ∧
  ¬ raised (__init__ (V:=nat) ex_study "prep"
              [mkDatasetSpec "primary" "nifti_gz"]
              [mkDatasetSpec "subject_id" "nifti_gz"] "" ∅ [] 1 ∅).
Proof.
  split.
  - apply Exists_cons_hd. simpl. left.
  - vm_compute. tauto.
Qed.

(** An input named after an iterable field is rejected. *)
Example input_named_as_iterfield_rejected :
  __init__ (V:=nat) ex_study "prep" [mkDatasetSpec "subject_id" "nifti_gz"]
    [mkDatasetSpec "preproc" "nifti_gz"] "" ∅ [] 1 ∅
  = Raise (NameError "global name 'i' is not defined").
Proof. vm_compute. reflexivity. Qed.

(** ** Wiring and validation *)

Section wiring_facts.
Context {V : Type} `{!EqDecision V}.
Variable study : Study.

Lemma connect_input_ok (p p1 : Pipeline (V:=V)) (name node node_input : string) :
  connect_input p name node node_input = Ok p1 →
  name ∈ input_names p ∧
  _inputs p1 = _inputs p ∧ _outputs p1 = _outputs p ∧
  _outputnodes p1 = _outputnodes p ∧
  _unconnected_inputs p1 = _unconnected_inputs p ∖ {[name]} ∧
  _unconnected_outputs p1 = _unconnected_outputs p.
Proof.
  unfold connect_input. case_decide as Hin; [|by destruct (_inputs p)].
  intros [= <-]. simpl. repeat split; try done.
  case_decide as Hun; [done|].
  apply set_eq. intros x. rewrite elem_of_difference, elem_of_singleton.
  split; [|tauto]. intros Hx. split; [done|]. by intros ->.
Qed.

Lemma connect_output_ok (p p1 : Pipeline (V:=V)) (name node node_output : string) :
  connect_output study p name node node_output = Ok p1 →
  name ∈ output_names p ∧ name ∈ _unconnected_outputs p ∧
  _inputs p1 = _inputs p ∧ _outputs p1 = _outputs p ∧
  _outputnodes p1 = _outputnodes p ∧
  _unconnected_inputs p1 = _unconnected_inputs p ∧
  _unconnected_outputs p1 = _unconnected_outputs p ∖ {[name]}.
Proof.
  unfold connect_output. case_decide as Hin; [|done].
  case_decide as Hun; [|done].
  destruct (_outputnodes p !! _) as [outputnode|]; [|done].
  intros [= <-]. simpl. by repeat split.
Qed.

Lemma input_called_cons (c : wiring_call) (cs : list wiring_call) (n : string) :
  input_called (c :: cs) n ↔
  (∃ node node_input, c = call_connect_input n node node_input) ∨
  input_called cs n.
Proof.
  unfold input_called. split.
  - intros (node & f & Hin). apply elem_of_cons in Hin as [<-|Hin]; eauto.
  - intros [(node & f & ->)|(node & f & Hin)].
    + exists node, f. left.
    + exists node, f. by right.
Qed.

Lemma output_called_cons (c : wiring_call) (cs : list wiring_call) (n : string) :
  output_called (c :: cs) n ↔
  (∃ node node_output, c = call_connect_output n node node_output) ∨
  output_called cs n.
Proof.
  unfold output_called. split.
  - intros (node & f & Hin). apply elem_of_cons in Hin as [<-|Hin]; eauto.
  - intros [(node & f & ->)|(node & f & Hin)].
    + exists node, f. left.
    + exists node, f. by right.
Qed.

(** The two sets of unconnected names after a sequence of calls: the
    names that were unconnected before and that no call was for. *)
Lemma do_calls_unconnected (cs : list wiring_call) (p p' : Pipeline (V:=V)) :
  do_calls study p cs = Ok p' →
  _inputs p' = _inputs p ∧ _outputs p' = _outputs p ∧
  (∀ n, n ∈ _unconnected_inputs p' ↔
        n ∈ _unconnected_inputs p ∧ ¬ input_called cs n) ∧
  (∀ n, n ∈ _unconnected_outputs p' ↔
        n ∈ _unconnected_outputs p ∧ ¬ output_called cs n).
Proof.
  revert p. induction cs as [|c cs IH]; intros p; simpl.
  - intros [= <-]. split; [done|]. split; [done|].
    split; intros n; (split; [|tauto]); intros Hn; (split; [done|]);
      intros (? & ? & Habs); by apply elem_of_nil in Habs.
  - destruct (do_call study p c) as [p1|e] eqn:Hc; [|done]. simpl.
    intros Hcs. apply IH in Hcs as (Hi & Ho & Hui & Huo).
    destruct c as [name node f|name node f]; simpl in Hc.
    + apply connect_input_ok in Hc as (_ & Hi1 & Ho1 & _ & Hui1 & Huo1).
      split; [congruence|]. split; [congruence|]. split.
      * intros n. rewrite Hui, Hui1, elem_of_difference, elem_of_singleton,
          input_called_cons.
        split.
        -- intros [[Hn Hne] Hnc]. split; [done|].
           intros [(? & ? & [= ? ? ?])|?]; [congruence|done].
        -- intros [Hn Hnc]. split; [split; [done|]|].
           ++ intros ->. apply Hnc. left. eauto.
           ++ intros Hc'. apply Hnc. by right.
      * intros n. rewrite Huo, Huo1, output_called_cons.
        split.
        -- intros [Hn Hnc]. split; [done|].
           intros [(? & ? & [=])|?]; done.
        -- intros [Hn Hnc]. split; [done|]. intros Hc'. apply Hnc. by right.
    + apply connect_output_ok in Hc as (_ & _ & Hi1 & Ho1 & _ & Hui1 & Huo1).
      split; [congruence|]. split; [congruence|]. split.
      * intros n. rewrite Hui, Hui1, input_called_cons.
        split.
        -- intros [Hn Hnc]. split; [done|].
           intros [(? & ? & [=])|?]; done.
        -- intros [Hn Hnc]. split; [done|]. intros Hc'. apply Hnc. by right.
      * intros n. rewrite Huo, Huo1, elem_of_difference, elem_of_singleton,
          output_called_cons.
        split.
        -- intros [[Hn Hne] Hnc]. split; [done|].
           intros [(? & ? & [= ? ? ?])|?]; [congruence|done].
        -- intros [Hn Hnc]. split; [split; [done|]|].
           ++ intros ->. apply Hnc. left. eauto.
           ++ intros Hc'. apply Hnc. by right.
Qed.

Lemma assert_connected_raised (p : Pipeline (V:=V)) :
  raised (assert_connected p) ↔
  ∃ n, n ∈ _unconnected_inputs p ∨ n ∈ _unconnected_outputs p.
Proof.
  unfold assert_connected. case_decide as Hi; [case_decide as Ho|]; simpl.
  - rewrite Hi, Ho. split; [done|]. intros (n & [Hn|Hn]); by apply elem_of_empty in Hn.
  - split; [intros _|done]. apply set_choose_L in Ho as [n Hn]. eauto.
  - split; [intros _|done]. apply set_choose_L in Hi as [n Hn]. eauto.
Qed.

Lemma do_calls_app (cs1 cs2 : list wiring_call) (p : Pipeline (V:=V)) :
  do_calls study p (cs1 ++ cs2) =
  (p1 ←r do_calls study p cs1; do_calls study p1 cs2).
Proof.
  revert p. induction cs1 as [|c cs1 IH]; intros p; simpl; [done|].
  destruct (do_call study p c); simpl; [apply IH|done].
Qed.

(** Calls of [connect_input] for declared input names all return. *)
Lemma connect_inputs_return (names : list string) (node field : string → string)
    (p : Pipeline (V:=V)) :
  (∀ n, n ∈ names → n ∈ input_names p) →
  ∃ p', do_calls study p
          ((λ n, call_connect_input n (node n) (field n)) <$> names) = Ok p' ∧
        _inputs p' = _inputs p ∧ _outputs p' = _outputs p ∧
        _outputnodes p' = _outputnodes p ∧
        _unconnected_outputs p' = _unconnected_outputs p.
Proof.
  revert p. induction names as [|n names IH]; intros p Hin; simpl.
  - by exists p.
  - unfold connect_input at 1. rewrite decide_True by (apply Hin; left). simpl.
    match goal with |- ∃ _, do_calls _ ?q _ = _ ∧ _ => destruct (IH q) as (p' & Hp' & H1 & H2 & H3 & H4) end.
    { intros n' Hn'. unfold input_names, inputs. simpl. apply Hin. by right. }
    exists p'. by repeat split.
Qed.

(** Calls of [connect_output], once for each of distinct declared output
    names that are still unconnected and have an output node, all
    return. *)
Lemma connect_outputs_return (names : list string)
    (node field : string → string) (p : Pipeline (V:=V)) :
  NoDup names →
  (∀ n, n ∈ names →
        n ∈ output_names p ∧ n ∈ _unconnected_outputs p ∧
        is_Some (_outputnodes p
                 !! dataset_multiplicity (dataset_spec study n))) →
  ∃ p', do_calls study p
          ((λ n, call_connect_output n (node n) (field n)) <$> names) = Ok p'.
Proof.
  revert p. induction names as [|n names IH]; intros p Hnd Hin; simpl.
  - by exists p.
  - apply list.NoDup_cons in Hnd as [Hn Hnd].
    destruct (Hin n) as (Hn1 & Hn2 & [outputnode Hn3]); [left|].
    unfold connect_output at 1.
    rewrite decide_True by done. rewrite decide_True by done. rewrite Hn3.
    simpl. apply IH; [done|].
    intros n' Hn'. destruct (Hin n') as (H1 & H2 & H3); [by right|].
    unfold output_names, outputs. simpl. split; [done|]. split; [|done].
    apply elem_of_difference. split; [done|].
    rewrite elem_of_singleton. by intros ->.
Qed.

(** Validation of a pipeline whose inputs are those of the constructor:
    for a pipeline as constructed and then wired by calls of
    [connect_input] and [connect_output], [assert_connected] raises if
    and only if some declared input or output name was not connected; and
    connecting every declared input name and every declared output name
    succeeds and leaves a pipeline on which [assert_connected] does not
    raise. [add_input] is not among these calls. *)
Theorem validation_fails_iff_unconnected (name : string)
    (ins outs : list DatasetSpec) (description : string)
    (default_options : gmap string V) (citations : list string)
    (version : Z) (options : gmap string V) (p0 : Pipeline (V:=V)) :
  __init__ study name ins outs description default_options citations
    version options = Ok p0 →
  (∀ cs p, do_calls study p0 cs = Ok p →
     (raised (assert_connected p) ↔
      ∃ n, (n ∈ input_names p0 ∧ ¬ input_called cs n) ∨
           (n ∈ output_names p0 ∧ ¬ output_called cs n))) ∧
  (∀ node field, ∃ p,
     do_calls study p0 (wire_all p0 node field) = Ok p ∧
     assert_connected p = Ok tt).
Proof.
  intros Hinit.
  apply init_ok in Hinit
    as (_ & Hndi & Hndo & Hins & Houts & Hui & Huo & Hnodes).
  assert (∀ cs p, do_calls study p0 cs = Ok p →
     (raised (assert_connected p) ↔
      ∃ n, (n ∈ input_names p0 ∧ ¬ input_called cs n) ∨
           (n ∈ output_names p0 ∧ ¬ output_called cs n))) as Hiff.
  { intros cs p Hcs. apply do_calls_unconnected in Hcs as (_ & _ & Hi & Ho).
    rewrite assert_connected_raised.
    split; intros (n & Hn); exists n; revert Hn;
      rewrite Hi, Ho, Hui, Huo, !elem_of_list_to_set; tauto. }
  split; [exact Hiff|]. intros node field.
  assert (∃ p, do_calls study p0 (wire_all p0 node field) = Ok p) as [p Hp].
  { unfold wire_all. rewrite do_calls_app.
    destruct (connect_inputs_return (input_names p0) node field p0)
      as (p1 & -> & Hi1 & Ho1 & Hn1 & Hu1); [done|]. simpl.
    assert (output_names p1 = output_names p0) as Hnames
      by (unfold output_names, outputs; by rewrite Ho1).
    rewrite <- Hnames. apply connect_outputs_return.
    - rewrite Hnames. unfold output_names, outputs. rewrite Houts.
      by rewrite grouped_outputs_permutation.
    - intros n Hn. split; [done|]. rewrite Hu1, Huo, Hn1, <- Hnames.
      split; [by apply elem_of_list_to_set|].
      apply Hnodes. rewrite Hnames in Hn. unfold output_names, outputs in Hn.
      apply list_elem_of_fmap in Hn as (o & -> & Ho).
      rewrite Houts in Ho |- *. rewrite grouped_outputs_permutation in Ho.
      by apply group_outputs_key. }
  exists p. split; [done|].
  destruct (assert_connected p) as [[]|e] eqn:Ha; [done|]. exfalso.
  assert (raised (assert_connected p)) as Hr by (by rewrite Ha).
  apply (Hiff _ _ Hp) in Hr as (n & [[Hn Hc]|[Hn Hc]]); apply Hc.
  - exists (node n), (field n). unfold wire_all. apply elem_of_app. left.
    apply list_elem_of_fmap. eauto.
  - exists (node n), (field n). unfold wire_all. apply elem_of_app. right.
    apply list_elem_of_fmap. eauto.
Qed.

End wiring_facts.

Lemma validation_fails_iff_unconnected_witness :
  ∃ p : Pipeline (V:=nat),
    ex_build "prep" ["primary"] ["preproc"] {[ "threshold" := 5 ]} ∅ = Ok p ∧
    assert_connected p = Ok tt.
Proof.
  destruct (validation_fails_iff_unconnected ex_study "prep"
              [mkDatasetSpec "primary" "nifti_gz"]
              [mkDatasetSpec "preproc" "nifti_gz"] ""
              ({[ "threshold" := 5 ]} : gmap string nat) [] 1 ∅
              (match __init__ ex_study "prep"
                       [mkDatasetSpec "primary" "nifti_gz"]
                       [mkDatasetSpec "preproc" "nifti_gz"] ""
                       ({[ "threshold" := 5 ]} : gmap string nat) [] 1 ∅ with
               | Ok p => p
               | Raise _ => mkPipeline "" "" (mkWorkflow [] []) 0 [] "" ∅ ∅ ∅ ∅
                              [] ∅ ∅ ""
               end))
    as [_ Hwire]; [vm_compute; reflexivity|].
  destruct (Hwire (λ n, "prep" +:+ "_node") (λ n, n)) as (p & Hp & Ha).
  exists p. split; [|exact Ha]. rewrite <- Hp. vm_compute. reflexivity.
Defined.

(** A declared output left unconnected: validation raises. *)
Example unconnected_output_raises :
  (p ←r __init__ (V:=nat) ex_study "prep" [mkDatasetSpec "primary" "nifti_gz"]
          [mkDatasetSpec "preproc" "nifti_gz"] "" ∅ [] 1 ∅;
   p ←r connect_input p "primary" "node" "in_file";
   assert_connected p)
  = Raise (AssertionError "output not connected").
Proof. vm_compute. reflexivity. Qed.

(** ** Connection to the archive *)

Create HintDb monotone discriminated.

Section monad_facts.
Context {V : Type} `{!EqDecision V}.

Lemma later_run_refl (st : Run (V:=V)) : later_run st st.
Proof. by split. Qed.

Lemma later_run_trans (st1 st2 st3 : Run (V:=V)) :
  later_run st1 st2 → later_run st2 st3 → later_run st1 st3.
Proof. intros [H1 H2] [H3 H4]. split; eauto. Qed.

Lemma m_bind_ok {A B : Type} (c : M (V:=V) A) (k : A → M B) st b st'' :
  m_bind c k st = Ok (b, st'') ↔
  ∃ a st', c st = Ok (a, st') ∧ k a st' = Ok (b, st'').
Proof.
  unfold m_bind. destruct (c st) as [[a st']|e]; split.
  - eauto.
  - by intros (? & ? & [= <- <-] & ?).
  - done.
  - by intros (? & ? & ? & ?).
Qed.

Lemma monotone_ret {A : Type} (a : A) : monotone (V:=V) (m_ret a).
Proof. intros st a' st' [= <- <-]. apply later_run_refl. Qed.

Lemma monotone_raise {A : Type} (e : exn) : monotone (V:=V) (m_raise (A:=A) e).
Proof. intros st a st' [=]. Qed.

Lemma monotone_lift {A : Type} (r : result A) : monotone (V:=V) (m_lift r).
Proof.
  intros st a st'. unfold m_lift. destruct r; intros [=]; subst.
  apply later_run_refl.
Qed.

Lemma monotone_bind {A B : Type} (c : M (V:=V) A) (k : A → M B) :
  monotone c → (∀ a, monotone (k a)) → monotone (m_bind c k).
Proof.
  intros Hc Hk st b st'' Hb. apply m_bind_ok in Hb as (a & st' & H1 & H2).
  eapply later_run_trans; [by eapply Hc | by eapply Hk].
Qed.

Lemma monotone_fold {A B : Type} (f : B → A → M (V:=V) A) (l : list B) (a : A) :
  (∀ b a, monotone (f b a)) → monotone (m_fold f l a).
Proof.
  intros Hf. revert a. induction l as [|b l IH]; intros a; simpl.
  - apply monotone_ret.
  - apply monotone_bind; [apply Hf | intros a'; apply IH].
Qed.

Lemma monotone_fresh_serial : monotone (V:=V) fresh_serial.
Proof. intros st a st' [= <- <-]. by split. Qed.

Lemma monotone_add_workflow (serial : nat) (name : string) :
  monotone (V:=V) (add_workflow serial name).
Proof.
  intros st a st' [= <- <-]. split; simpl; [done|].
  intros w Hw. apply elem_of_app. by left.
Qed.

Lemma monotone_set_iterables n its src :
  monotone (V:=V) (set_iterables n its src).
Proof. intros st a st' [= <- <-]. by split. Qed.

Lemma monotone_connect src src_field dst dst_field :
  monotone (V:=V) (connect src src_field dst dst_field).
Proof. intros st a st' [= <- <-]. by split. Qed.

Lemma monotone_lookup_prereq (name : string) :
  monotone (V:=V) (lookup_prereq name).
Proof. intros st a st' [= <- <-]. apply later_run_refl. Qed.

Lemma monotone_if {A : Type} (b : bool) (c1 c2 : M (V:=V) A) :
  monotone c1 → monotone c2 → monotone (if b then c1 else c2).
Proof. by destruct b. Qed.

Lemma monotone_connect_reports (prereq_reports : Node) (reports : list Node)
    (i : nat) :
  monotone (V:=V) (connect_reports prereq_reports i reports).
Proof.
  revert i. induction reports as [|r reports IH]; intros i; simpl.
  - apply monotone_ret.
  - apply monotone_bind; [apply monotone_connect | intros _; apply IH].
Qed.

End monad_facts.

#[global] Hint Resolve monotone_ret monotone_raise monotone_lift
  monotone_fresh_serial monotone_add_workflow monotone_set_iterables
  monotone_connect monotone_lookup_prereq monotone_connect_reports : monotone.
#[global] Hint Extern 2 (monotone (m_bind _ _)) =>
  apply monotone_bind; [|intros ?] : monotone.
#[global] Hint Extern 2 (monotone (m_fold _ _ _)) =>
  apply monotone_fold; intros ? ? : monotone.
#[global] Hint Extern 2 (monotone (if _ then _ else _)) =>
  apply monotone_if : monotone.

Section connect_facts.
Context {V : Type} `{!EqDecision V}.
Variable study : Study.
Variable getters : string → gmap string V → result (Pipeline (V:=V)).
Variable converter_fields : string → string → string * string.

Lemma monotone_iterators (self : Pipeline (V:=V)) (serial : nat)
    (sessions : list Session) :
  monotone (_subject_and_session_iterators self serial sessions).
Proof. unfold _subject_and_session_iterators. auto 10 with monotone. Qed.

Lemma monotone_connect_source_input (self : Pipeline (V:=V)) serial source inpt :
  monotone (connect_source_input study converter_fields self serial source inpt).
Proof.
  unfold connect_source_input. case_decide; [|auto with monotone].
  destruct (converter_fields _ _). auto with monotone.
Qed.

Lemma monotone_connect_sink_output (self : Pipeline (V:=V)) serial mult sink
    output :
  monotone (connect_sink_output study converter_fields self serial mult sink
              output).
Proof.
  unfold connect_sink_output. destruct (processed _); [|auto with monotone].
  apply monotone_bind; [auto with monotone|]. intros outputnode.
  case_decide; [|auto with monotone].
  destruct (converter_fields _ _). auto with monotone.
Qed.

Lemma monotone_connect_to_reports (self : Pipeline (V:=V)) serial sink summary
    mult subjects sessions :
  monotone (_connect_to_reports self serial sink summary mult subjects sessions).
Proof. destruct mult; simpl; auto 10 with monotone. Qed.

Lemma monotone_connect_sink (self : Pipeline (V:=V)) serial report subjects
    sessions group u :
  monotone (connect_sink study converter_fields self serial report subjects
              sessions group u).
Proof.
  unfold connect_sink. destruct group as [mult outs].
  pose proof monotone_connect_sink_output. pose proof monotone_connect_to_reports.
  auto 10 with monotone.
Qed.

Lemma monotone_connect_source_and_sinks (self : Pipeline (V:=V)) serial subjects
    sessions :
  monotone (connect_source_and_sinks study converter_fields self serial
              subjects sessions).
Proof.
  unfold connect_source_and_sinks.
  destruct (archive_source _ _); [auto with monotone|].
  pose proof monotone_connect_source_input. pose proof monotone_connect_sink.
  auto 12 with monotone.
Qed.

(** The report node returned is the one of the instance. *)
Lemma connect_source_and_sinks_report (self : Pipeline (V:=V)) serial subjects
    sessions st report st' :
  connect_source_and_sinks study converter_fields self serial subjects sessions st
    = Ok (report, st') →
  report = mkNode serial (node_name_of (_name self) "report").
Proof.
  unfold connect_source_and_sinks. destruct (archive_source _ _); [done|].
  intros H. repeat (apply m_bind_ok in H as (? & ? & _ & H)).
  by injection H as <- <-.
Qed.

End connect_facts.

Section equality_facts.
Context {V : Type} `{!EqDecision V}.

Lemma Pipeline_eqb_refl (p : Pipeline (V:=V)) : Pipeline_eqb p p = true.
Proof. unfold Pipeline_eqb. by rewrite !bool_decide_eq_true_2. Qed.

Lemma Pipeline_eqb_true (p q : Pipeline (V:=V)) :
  Pipeline_eqb p q = true ↔
  _name p = _name q ∧ _study p = _study q ∧ _inputs p = _inputs q ∧
  _outputs p = _outputs q ∧ _options p = _options q ∧
  _citations p = _citations q.
Proof.
  unfold Pipeline_eqb. rewrite !andb_true_iff, !bool_decide_eq_true. tauto.
Qed.

End equality_facts.

Section resolver_facts.
Context {V : Type} `{!EqDecision V}.
Variable study : Study.
Variable getters : string → gmap string V → result (Pipeline (V:=V)).
Variable converter_fields : string → string → string * string.

(** One request of a prerequisite leads to a later state, when the
    calls it makes do. *)
Lemma monotone_request_prereq rec (self : Pipeline (V:=V)) ids vis r project
    pg reports :
  (∀ q ids vis r proj, monotone (rec q ids vis r proj)) →
  monotone (request_prereq getters rec self ids vis r project pg reports).
Proof.
  intros Hrec st rs st'. unfold request_prereq. intros H.
  apply m_bind_ok in H as (prereq & st1 & Hg & H).
  unfold m_lift in Hg. destruct (getters pg (_options self)) as [q|]; [|done].
  injection Hg as <- <-.
  apply m_bind_ok in H as (cached & st2 & Hl & H).
  injection Hl as <- <-.
  destruct (connected_prereqs st !! _name q) as [[cp tok]|] eqn:Hc.
  - destruct (Pipeline_neb cp q); [done|].
    injection H as <- <-. apply later_run_refl.
  - apply m_bind_ok in H as (res & st3 & Hr & H).
    apply Hrec in Hr as [Hc1 He1]. destruct res as [report|].
    + apply m_bind_ok in H as ([] & st4 & Hs & H).
      injection Hs as <-. injection H as <- <-. split; simpl; [|done].
      intros n e Hn. rewrite lookup_insert_ne; [by apply Hc1|].
      intros <-. congruence.
    + injection H as <- <-. by split.
Qed.

Lemma monotone_connect_prerequisites rec (self : Pipeline (V:=V)) serial
    subjects sessions vis r project :
  (∀ q ids vis r proj, monotone (rec q ids vis r proj)) →
  monotone (connect_prerequisites study getters rec self serial subjects
              sessions vis r project).
Proof.
  intros Hrec. unfold connect_prerequisites.
  destruct (has_prerequisites study self); [|auto with monotone].
  apply monotone_bind.
  - apply monotone_fold. intros pg reports.
    by apply monotone_request_prereq.
  - intros [|? ?]; auto 10 with monotone.
Qed.

(** What a call that returns a report has done. *)
Lemma connect_body_report rec (self : Pipeline (V:=V)) sids vis r proj st
    (res : option Node) st' :
  (∀ q ids vis r proj, monotone (rec q ids vis r proj)) →
  connect_body study getters converter_fields rec self sids vis r proj st
    = Ok (res, st') →
  later_run st st' ∧
  ∀ report, res = Some report →
    report = mkNode (next_serial st) (node_name_of (_name self) "report") ∧
    (next_serial st, _name self) ∈ embedded st'.
Proof.
  intros Hrec. unfold connect_body. intros H.
  apply m_bind_ok in H as ([] & st0 & Ha & H).
  unfold m_lift in Ha. destruct (assert_connected self) as [[]|]; [|done].
  injection Ha as <-.
  destruct (_sessions_to_process _ _ _ _ _) as [|s sessions].
  { injection H as <- <-. split; [apply later_run_refl|done]. }
  apply m_bind_ok in H as (serial & st1 & Hf & H). injection Hf as <- <-.
  apply m_bind_ok in H as ([] & st2 & Hw & H). injection Hw as <-.
  apply m_bind_ok in H as (nodes & st3 & Hi & H).
  apply monotone_iterators in Hi.
  apply m_bind_ok in H as (reports & st4 & Hp & H).
  apply monotone_connect_prerequisites in Hp; [|done].
  apply m_bind_ok in H as (report & st5 & Hs & H).
  pose proof (connect_source_and_sinks_report _ _ _ _ _ _ _ _ _ Hs) as ->.
  apply monotone_connect_source_and_sinks in Hs.
  injection H as <- <-.
  assert (later_run
            (mkRun (next_serial st) (embedded st ++ [(next_serial st, _name self)])
               (iterating st) (connections st) (connected_prereqs st)) st5)
    as Hl by eauto using later_run_trans.
  split.
  - split; [apply Hl|]. intros w Hw. apply Hl. simpl. apply elem_of_app. by left.
  - intros ? [= <-]. split; [done|]. apply Hl. simpl.
    apply elem_of_app. right. left.
Qed.

Lemma monotone_connect_to_archive (depth : nat) (self : Pipeline (V:=V)) sids vis
    r proj :
  monotone (connect_to_archive study getters converter_fields depth self sids
              vis r proj).
Proof.
  revert self sids vis r proj. induction depth as [|depth IH];
    intros self sids vis r proj; simpl.
  - apply monotone_raise.
  - intros st res st' H. by apply connect_body_report in H as [? _].
Qed.

(** A report returned by [connect_to_archive] is the report node of the
    instance, whose workflow is embedded in the complete workflow. *)
Lemma connect_to_archive_report (depth : nat) (self : Pipeline (V:=V)) sids vis
    r proj st report st' :
  connect_to_archive study getters converter_fields depth self sids vis r proj
    st = Ok (Some report, st') →
  report = mkNode (next_serial st) (node_name_of (_name self) "report") ∧
  (next_serial st, _name self) ∈ embedded st'.
Proof.
  destruct depth as [|depth]; simpl; [done|]. intros H.
  apply connect_body_report in H as [_ H]; [by apply H|].
  intros. apply monotone_connect_to_archive.
Qed.

(** A pipeline whose inputs and outputs are connected and for which no
    session is left to process is skipped: nothing is returned and the
    shared objects are untouched. *)
Lemma connect_to_archive_skips (depth : nat) (self : Pipeline (V:=V)) sids vis r
    proj st :
  assert_connected self = Ok tt →
  _sessions_to_process (dataset study) (outputs self)
    (match proj with
     | None => archive_project study sids vis
     | Some p => p
     end) vis r = [] →
  connect_to_archive study getters converter_fields (S depth) self sids vis r
    proj st = Ok (None, st).
Proof.
  intros Ha Hs. simpl. unfold connect_body, m_bind, m_lift.
  by rewrite Ha, Hs.
Qed.

(** The result of a request depends on [connect_to_archive] at the flag
    [prereq_reprocess reprocess] only. *)
Lemma request_prereq_flag rec1 rec2 (self : Pipeline (V:=V)) ids vis r project
    pg reports st :
  (∀ q ids vis proj st,
     rec1 q ids vis (prereq_reprocess r) proj st
     = rec2 q ids vis (prereq_reprocess r) proj st) →
  request_prereq getters rec1 self ids vis r project pg reports st
  = request_prereq getters rec2 self ids vis r project pg reports st.
Proof.
  intros Hrec. unfold request_prereq, m_bind, m_lift, lookup_prereq.
  destruct (getters pg (_options self)) as [prereq|]; [|done].
  destruct (connected_prereqs st !! _name prereq) as [[cp tok]|]; [done|].
  by rewrite Hrec.
Qed.

Lemma m_fold_ext {A B : Type} (f g : B → A → M (V:=V) A) (l : list B) (a : A) st :
  (∀ b a st, f b a st = g b a st) → m_fold f l a st = m_fold g l a st.
Proof.
  intros Hfg. revert a st. induction l as [|b l IH]; intros a st; simpl; [done|].
  unfold m_bind. rewrite Hfg. destruct (g b a st) as [[a' st']|]; [apply IH|done].
Qed.

Lemma connect_body_flag rec1 rec2 (self : Pipeline (V:=V)) sids vis r proj st :
  (∀ q ids vis proj st,
     rec1 q ids vis (prereq_reprocess r) proj st
     = rec2 q ids vis (prereq_reprocess r) proj st) →
  connect_body study getters converter_fields rec1 self sids vis r proj st
  = connect_body study getters converter_fields rec2 self sids vis r proj st.
Proof.
  intros Hrec. unfold connect_body, m_bind.
  destruct (m_lift (assert_connected self) st) as [[[] st0]|]; [|done].
  destruct (_sessions_to_process _ _ _ _ _) as [|s sessions]; [done|].
  destruct (fresh_serial st0) as [[serial st1]|]; [|done].
  destruct (add_workflow serial (_name self) st1) as [[[] st2]|]; [|done].
  destruct (_subject_and_session_iterators _ _ _ _) as [[nodes st3]|]; [|done].
  assert (∀ st, connect_prerequisites study getters rec1 self serial nodes.1
                  (s :: sessions) vis r
                  (match proj with
                   | None => archive_project study sids vis
                   | Some p => p
                   end) st
              = connect_prerequisites study getters rec2 self serial nodes.1
                  (s :: sessions) vis r
                  (match proj with
                   | None => archive_project study sids vis
                   | Some p => p
                   end) st) as ->; [|done].
  intros st'. unfold connect_prerequisites.
  destruct (has_prerequisites study self); [|done]. unfold m_bind.
  rewrite (m_fold_ext _ (request_prereq getters rec2 self
             (elements (subject_ids_to_process (s :: sessions))) vis r
             (match proj with
              | None => archive_project study sids vis
              | Some p => p
              end))); [done|].
  intros pg reports st''. by apply request_prereq_flag.
Qed.

End resolver_facts.

Section resolver_properties.
Context {V : Type} `{!EqDecision V}.
Variable study : Study.
Variable getters : string → gmap string V → result (Pipeline (V:=V)).
Variable converter_fields : string → string → string * string.

(** C4. When a dependent [a] requests a prerequisite that is not in
    [connected_prereqs] and gets a report for it, the prerequisite
    instance is embedded in the complete workflow, and the instance and
    its report node are stored under its name; when, in any later state
    of the run ([connect_to_archive] and the requests only lead to later
    states: [monotone_connect_to_archive], [monotone_request_prereq]),
    a dependent [b] with the same options requests the same
    prerequisite, it gets the same report node and nothing is connected:
    the shared objects are left as they are. Each of the two requests
    constructs an instance of the prerequisite: the first goes on to
    connect the one it constructed, the second constructs nothing
    else. *)
Theorem shared_prerequisite_connected_once (depth1 depth2 : nat)
    (a b : Pipeline (V:=V)) (pg : string) (q : Pipeline (V:=V))
    (ids_a ids_b : list string) (vis_a vis_b : option (list string))
    (r_a r_b : reprocess_flag) (proj_a proj_b : Project)
    (reports_a reports_a' reports_b : list Node) (st0 st1 st2 : Run (V:=V)) :
  getters pg (_options a) = Ok q →
  _options b = _options a →
  connected_prereqs st0 !! _name q = None →
  request_prereq getters
    (connect_to_archive study getters converter_fields depth1)
    a ids_a vis_a r_a proj_a pg reports_a st0 = Ok (reports_a', st1) →
  reports_a' ≠ reports_a →
  later_run st1 st2 →
  ∃ report,
    reports_a' = reports_a ++ [report] ∧
    report = mkNode (node_owner report) (node_name_of (_name q) "report") ∧
    (node_owner report, _name q) ∈ embedded st1 ∧
    connected_prereqs st1 !! _name q = Some (q, report) ∧
    request_prereq getters
      (connect_to_archive study getters converter_fields depth2)
      b ids_b vis_b r_b proj_b pg reports_b st2
    = Ok (reports_b ++ [report], st2) ∧
    request_constructs getters
      (constructs study getters converter_fields depth1)
      a ids_a vis_a r_a proj_a pg st0
    = _name q :: constructs study getters converter_fields depth1 q
                   (Some ids_a) vis_a (prereq_reprocess r_a) (Some proj_a)
                   st0 ∧
    request_constructs getters
      (constructs study getters converter_fields depth2)
      b ids_b vis_b r_b proj_b pg st2
    = [_name q].
Proof.
  intros Hq Hopts Hmiss Hreq Hne Hlater.
  unfold request_prereq in Hreq.
  apply m_bind_ok in Hreq as (q' & st' & Hg & Hreq).
  unfold m_lift in Hg. rewrite Hq in Hg. injection Hg as <- <-.
  apply m_bind_ok in Hreq as (cached & st' & Hl & Hreq).
  injection Hl as <- <-. rewrite Hmiss in Hreq.
  apply m_bind_ok in Hreq as (res & st' & Hrec & Hreq).
  destruct res as [report|]; [|by injection Hreq as <- <-].
  apply connect_to_archive_report in Hrec as [Hrep Hemb].
  apply m_bind_ok in Hreq as ([] & st'' & Hs & Hreq).
  injection Hs as <-. injection Hreq as <- <-.
  exists report. split; [done|]. split; [by rewrite Hrep|].
  split; [by rewrite Hrep|]. split; [apply lookup_insert_eq|].
  destruct Hlater as [Hcache _].
  assert (connected_prereqs st2 !! _name q = Some (q, report)) as Hhit
    by (apply Hcache, lookup_insert_eq).
  split; [|split].
  - unfold request_prereq, m_bind, m_lift, lookup_prereq.
    rewrite Hopts, Hq, Hhit.
    unfold Pipeline_neb. by rewrite Pipeline_eqb_refl.
  - unfold request_constructs. by rewrite Hq, Hmiss.
  - unfold request_constructs. by rewrite Hopts, Hq, Hhit.
Qed.

(** C5. A request of a prerequisite whose name is in
    [connected_prereqs] with an instance that differs from the requested
    one in its name, study, inputs, outputs, options or citations raises
    the name-clash error; so does, in particular, a request whose
    instance has other options than the stored one. *)
Theorem prerequisite_conflict_raises
    (rec : Pipeline (V:=V) → option (list string) → option (list string) →
           reprocess_flag → option Project → M (option Node))
    (self : Pipeline (V:=V)) (ids : list string) (vis : option (list string))
    (r : reprocess_flag) (project : Project) (pg : string)
    (reports : list Node) (st : Run (V:=V))
    (prereq connected_prereq : Pipeline (V:=V)) (prereq_report : Node) :
  getters pg (_options self) = Ok prereq →
  connected_prereqs st !! _name prereq = Some (connected_prereq, prereq_report) →
  ¬ (_name connected_prereq = _name prereq ∧
     _study connected_prereq = _study prereq ∧
     _inputs connected_prereq = _inputs prereq ∧
     _outputs connected_prereq = _outputs prereq ∧
     _options connected_prereq = _options prereq ∧
     _citations connected_prereq = _citations prereq) ∨
  _options connected_prereq ≠ _options prereq →
  request_prereq getters rec self ids vis r project pg reports st
  = Raise (NiAnalysisError
             "Name clash between non-matching prerequisite pipelines").
Proof using getters.
  intros Hq Hhit Hdiff.
  assert (Pipeline_eqb connected_prereq prereq = false) as Hneq.
  { apply not_true_is_false. rewrite Pipeline_eqb_true. intros Heq.
    destruct Hdiff as [Hd|Hd]; [by apply Hd | apply Hd, Heq]. }
  unfold request_prereq, m_bind, m_lift, lookup_prereq.
  rewrite Hq, Hhit. unfold Pipeline_neb. by rewrite Hneq.
Qed.

(** C7. A call of [connect_to_archive] on a connected pipeline for
    which no session is left to process returns [None] and leaves the
    complete workflow and [connected_prereqs] as they are; a dependent
    that requests such a prerequisite gets its list of reports back
    unchanged. *)
Theorem up_to_date_step_skipped (depth : nat) (self : Pipeline (V:=V))
    (sids vis : option (list string)) (r : reprocess_flag)
    (proj : option Project) :
  assert_connected self = Ok tt →
  _sessions_to_process (dataset study) (outputs self)
    (match proj with
     | None => archive_project study sids vis
     | Some p => p
     end) vis r = [] →
  (∀ st, connect_to_archive study getters converter_fields (S depth) self sids
           vis r proj st = Ok (None, st)) ∧
  (∀ dependent ids r' p pg reports st,
     proj = Some p → r = prereq_reprocess r' →
     getters pg (_options dependent) = Ok self →
     connected_prereqs st !! _name self = None →
     request_prereq getters
       (connect_to_archive study getters converter_fields (S depth))
       dependent ids vis r' p pg reports st = Ok (reports, st)).
Proof.
  intros Ha Hs. split.
  - intros st. by apply connect_to_archive_skips.
  - intros dependent ids r' p pg reports st -> -> Hq Hmiss.
    unfold request_prereq, m_bind, m_lift, lookup_prereq.
    rewrite Hq, Hmiss. by rewrite connect_to_archive_skips.
Qed.

(** C6. The flag handed to a prerequisite is 'all' exactly when the
    flag of the parent is 'all', and [False] otherwise, for [True] in
    particular; the body of [connect_to_archive] calls
    [connect_to_archive] with that flag only; and under a parent called
    with [True], a prerequisite whose outputs are all in the archive is
    not processed again. *)
Theorem reprocess_propagates_only_all (r : reprocess_flag) :
  (prereq_reprocess r = RAll ↔ r = RAll) ∧
  (r ≠ RAll → prereq_reprocess r = RFalse) ∧
  prereq_reprocess RTrue = RFalse ∧
  (∀ rec1 rec2 (self : Pipeline (V:=V)) sids vis proj st,
     (∀ q ids vis proj st,
        rec1 q ids vis (prereq_reprocess r) proj st
        = rec2 q ids vis (prereq_reprocess r) proj st) →
     connect_body study getters converter_fields rec1 self sids vis r proj st
     = connect_body study getters converter_fields rec2 self sids vis r proj st) ∧
  (∀ depth (dependent q : Pipeline (V:=V)) ids vis p pg reports st,
     getters pg (_options dependent) = Ok q →
     connected_prereqs st !! _name q = None →
     assert_connected q = Ok tt →
     _sessions_to_process (dataset study) (outputs q) p vis RFalse = [] →
     request_prereq getters
       (connect_to_archive study getters converter_fields (S depth))
       dependent ids vis RTrue p pg reports st = Ok (reports, st)).
Proof.
  split; [by destruct r|]. split; [by destruct r|]. split; [done|]. split.
  - intros. by apply connect_body_flag.
  - intros depth dependent q ids vis p pg reports st Hq Hmiss Ha Hs.
    unfold request_prereq, m_bind, m_lift, lookup_prereq.
    rewrite Hq, Hmiss. by rewrite connect_to_archive_skips.
Qed.

End resolver_properties.

(** *** Concrete runs: 'summary' reads 'brain' and 'wm_seg', whose
    pipelines both read 'preproc' *)

Lemma shared_prerequisite_connected_once_witness :
  ∃ report,
    report = mkNode 0 "prep_report" ∧
    (node_owner report, "prep") ∈ embedded (ex_run_after_extract 5) ∧
    request_prereq (ex_getters 5)
      (connect_to_archive ex_study (ex_getters 5) ex_converter_fields 3)
      (ex_segment 5) ["A"; "B"] None RFalse ex_project "prep_pipeline" []
      (ex_run_after_extract 5)
    = Ok ([report], ex_run_after_extract 5).
Proof.
  destruct (shared_prerequisite_connected_once ex_study (ex_getters 5)
              ex_converter_fields 3 3 ex_extract (ex_segment 5) "prep_pipeline"
              (ex_pipeline 5 "prep_pipeline" {[ "threshold" := 5 ]})
              ["A"; "B"] ["A"; "B"] None None RFalse RFalse
              ex_project ex_project [] [mkNode 0 "prep_report"] []
              ex_run (ex_run_after_extract 5) (ex_run_after_extract 5))
    as (report & Hrep & _ & Hemb & _ & Hreq & _).
  - vm_compute. reflexivity.
  - vm_compute. reflexivity.
  - vm_compute. reflexivity.
  - vm_compute. reflexivity.
  - discriminate.
  - apply later_run_refl.
  - exists report. injection Hrep as <-. split; [reflexivity|].
    split; [exact Hemb | exact Hreq].
Defined.

(** C4 as stated does not hold: in the run of 'summary', whose inputs
    are made by 'extract' and by 'segment', which have the same options
    and both read the output of 'prep', the method of the study
    constructs two instances of 'prep', one at the request of each
    dependent, and not exactly one; one workflow of 'prep' is embedded
    in the complete workflow. *)
Lemma prerequisite_constructed_at_each_request :
  _options ex_extract = _options (ex_segment 5) ∧
  constructs ex_study (ex_getters 5) ex_converter_fields 4 ex_summary
    None None RFalse None ex_run
  = ["extract"; "prep"; "segment"; "prep"] ∧
  ¬ length (filter (λ n, n = "prep")
              (constructs ex_study (ex_getters 5) ex_converter_fields 4
                 ex_summary None None RFalse None ex_run)) = 1 ∧
  (embedded ex_run_summary).*2 = ["summary"; "extract"; "prep"; "segment"].
Proof.
  split; [vm_compute; reflexivity|].
  split; [vm_compute; reflexivity|].
  split; [vm_compute; discriminate|].
  vm_compute. reflexivity.
Qed.

(** In the whole run the workflow of 'prep' is embedded once, and the
    merge nodes of 'extract' and of 'segment' are fed by the same report
    node. *)
Example summary_run_shares_prep :
  match connect_to_archive_top ex_study (ex_getters 5) ex_converter_fields 4
          ex_summary None None RFalse None ex_run with
  | Ok (report, st) =>
    report = Some (mkNode 0 "summary_report") ∧
    embedded st = [(0, "summary"); (1, "extract"); (2, "prep"); (3, "segment")] ∧
    filter (λ c, c.1.1.2 = "subject_session_pairs" ∧
                 node_name c.1.2 ∈ ["extract_prereq_reports";
                                    "segment_prereq_reports"])
           (connections st)
    = [(mkNode 2 "prep_report", "subject_session_pairs",
        mkNode 1 "extract_prereq_reports", "in1");
       (mkNode 2 "prep_report", "subject_session_pairs",
        mkNode 3 "segment_prereq_reports", "in1")]
  | Raise _ => False
  end.
Proof. vm_compute. done. Qed.

Lemma prerequisite_conflict_raises_witness :
  request_prereq (ex_getters 9)
    (connect_to_archive ex_study (ex_getters 9) ex_converter_fields 3)
    (ex_segment 9) ["A"; "B"] None RFalse ex_project "prep_pipeline" []
    (ex_run_after_extract 9)
  = Raise (NiAnalysisError
             "Name clash between non-matching prerequisite pipelines").
Proof.
  apply (prerequisite_conflict_raises (ex_getters 9)
           (connect_to_archive ex_study (ex_getters 9) ex_converter_fields 3)
           (ex_segment 9) ["A"; "B"] None RFalse ex_project "prep_pipeline" []
           (ex_run_after_extract 9)
           (ex_pipeline 9 "prep_pipeline" {[ "threshold" := 9 ]})
           (ex_pipeline 9 "prep_pipeline" {[ "threshold" := 5 ]})
           (mkNode 0 "prep_report")).
  - vm_compute. reflexivity.
  - vm_compute. reflexivity.
  - right. vm_compute. discriminate.
Defined.

(** The whole run with two defaults for the threshold ends with the
    error. *)
Example summary_run_conflict :
  connect_to_archive_top ex_study (ex_getters 9) ex_converter_fields 4
    ex_summary None None RFalse None ex_run
  = Raise (NiAnalysisError
             "Name clash between non-matching prerequisite pipelines").
Proof. vm_compute. reflexivity. Qed.

Lemma up_to_date_step_skipped_witness :
  connect_to_archive ex_study (ex_getters 5) ex_converter_fields 1
    (ex_pipeline 5 "prep_pipeline" ∅) None None RFalse
    (Some ex_project_preprocessed) ex_run = Ok (None, ex_run).
Proof.
  destruct (up_to_date_step_skipped ex_study (ex_getters 5) ex_converter_fields 0
              (ex_pipeline 5 "prep_pipeline" ∅) None None RFalse
              (Some ex_project_preprocessed)) as [Hskip _].
  - vm_compute. reflexivity.
  - vm_compute. reflexivity.
  - apply (Hskip ex_run).
Defined.

(** A dependent of a skipped prerequisite is connected without a merge
    node for reports. *)
Example extract_run_skips_prep :
  match connect_to_archive_top ex_study (ex_getters 5) ex_converter_fields 4
          ex_extract None None RFalse (Some ex_project_preprocessed)
          ex_run with
  | Ok (report, st) =>
    report = Some (mkNode 0 "extract_report") ∧
    embedded st = [(0, "extract")] ∧ connected_prereqs st = ∅ ∧
    filter (λ c, node_name c.1.2 = "extract_prereq_reports") (connections st)
    = []
  | Raise _ => False
  end.
Proof. vm_compute. done. Qed.

Lemma reprocess_propagates_only_all_witness :
  request_prereq (ex_getters 5)
    (connect_to_archive ex_study (ex_getters 5) ex_converter_fields 1)
    ex_extract ["A"; "B"] None RTrue ex_project_preprocessed "prep_pipeline" []
    ex_run
  = Ok ([], ex_run).
Proof.
  destruct (reprocess_propagates_only_all ex_study (ex_getters 5)
              ex_converter_fields RTrue) as (_ & _ & _ & _ & Hskip).
  apply (Hskip 0 ex_extract (ex_pipeline 5 "prep_pipeline" {[ "threshold" := 5 ]})).
  - vm_compute. reflexivity.
  - vm_compute. reflexivity.
  - vm_compute. reflexivity.
  - vm_compute. reflexivity.
Defined.

(** With [True] the pipeline itself is processed again on all sessions
    and its prerequisite is left alone; with 'all' the prerequisite is
    processed again too. *)
Example reprocess_true_run :
  match connect_to_archive_top ex_study (ex_getters 5) ex_converter_fields 4
          ex_extract None None RTrue (Some ex_project_preprocessed)
          ex_run with
  | Ok (_, st) => embedded st = [(0, "extract")]
  | Raise _ => False
  end.
Proof. vm_compute. done. Qed.

Example reprocess_all_run :
  match connect_to_archive_top ex_study (ex_getters 5) ex_converter_fields 4
          ex_extract None None RAll (Some ex_project_preprocessed)
          ex_run with
  | Ok (_, st) => embedded st = [(0, "extract"); (1, "prep")]
  | Raise _ => False
  end.
Proof. vm_compute. done. Qed.

(** * Further properties *)

(** ** Selection of the sessions to process *)

Section selection_properties.
Variable dataset : string → Dataset.
Variable project : Project.

Lemma elem_of_filter_sessions (visit_ids : option (list string))
    (l : list Session) (s : Session) :
  s ∈ filter_sessions visit_ids l ↔ s ∈ l ∧ passes_filter visit_ids s.
Proof.
  destruct visit_ids as [ids|]; simpl; [|tauto].
  rewrite list_elem_of_filter. tauto.
Qed.

Lemma elem_of_sessions_lacking (visit_ids : option (list string))
    (name : string) (s : Session) :
  s ∈ sessions_lacking project visit_ids name ↔
  s ∈ all_sessions project ∧ (name ∉ session_dataset_names s) ∧
  passes_filter visit_ids s.
Proof.
  unfold sessions_lacking.
  rewrite elem_of_filter_sessions, list_elem_of_filter. tauto.
Qed.

Lemma elem_of_subjects_lacking (visit_ids : option (list string))
    (name : string) (s : Session) :
  s ∈ sessions_of_subjects_lacking project visit_ids name ↔
  ∃ sub, sub ∈ project_subjects project ∧
         (name ∉ subject_dataset_names sub) ∧
         s ∈ subject_sessions sub ∧ passes_filter visit_ids s.
Proof.
  rewrite elem_of_sessions_of_subjects_lacking.
  split; intros (sub & Hsub & Hlack & Hs); exists sub;
    rewrite elem_of_filter_sessions in *; tauto.
Qed.

Lemma selects_in_project (visit_ids : option (list string))
    (o : DatasetSpec) (s : Session) :
  selects dataset project visit_ids o s → s ∈ all_sessions project.
Proof.
  unfold selects. destruct (dataset_multiplicity _); try tauto;
    intros (sub & Hsub & _ & Hs & _); apply elem_of_all_sessions; eauto.
Qed.

(** The sessions collected by the loop when no project-level output is
    missing: those collected before and those that an output asks for. *)
Lemma outputs_loop_elem (visit_ids : option (list string))
    (outs : list DatasetSpec) (acc : list Session) (s : Session) :
  (∀ o, o ∈ outs → ¬ project_output_missing dataset project o) →
  s ∈ outputs_loop dataset project visit_ids outs acc ↔
  s ∈ acc ∨ ∃ o, o ∈ outs ∧ selects dataset project visit_ids o s.
Proof.
  revert acc. induction outs as [|o outs IH]; intros acc Hnone; simpl.
  - split; [auto|]. intros [?|(o & Ho & _)]; [done|].
    by apply elem_of_nil in Ho.
  - assert (∀ o', o' ∈ outs → ¬ project_output_missing dataset project o')
      as Hrest by (intros o' Ho'; apply Hnone; by right).
    assert (∀ acc',
      (s ∈ acc' ↔ s ∈ acc ∨ selects dataset project visit_ids o s) →
      (s ∈ outputs_loop dataset project visit_ids outs acc' ↔
       s ∈ acc ∨ ∃ o', o' ∈ o :: outs ∧ selects dataset project visit_ids o' s))
      as Hstep.
    { intros acc' Hacc'. rewrite (IH acc' Hrest), Hacc'. split.
      - intros [[?|?]|(o' & Ho' & Hsel)]; [by left| |].
        + right. exists o. split; [left|done].
        + right. exists o'. split; [by right|done].
      - intros [?|(o' & Ho' & Hsel)]; [by left; left|].
        apply elem_of_cons in Ho' as [->|Ho']; [by left; right|].
        right. eauto. }
    pose proof (Hnone o (list_elem_of_here _ _)) as Ho.
    unfold project_output_missing in Ho. unfold selects in Hstep.
    destruct (dataset_multiplicity (dataset (spec_name o))) eqn:Hmult.
    + apply Hstep. by rewrite elem_of_set_update, elem_of_sessions_lacking.
    + apply Hstep. by rewrite elem_of_set_update, elem_of_subjects_lacking.
    + apply Hstep. by rewrite elem_of_set_update, elem_of_subjects_lacking.
    + rewrite decide_True; [apply Hstep; tauto|].
      destruct (decide (prefixed_name (dataset (spec_name o))
                        ∈ project_dataset_names project)); [done|].
      exfalso. by apply Ho.
Qed.

Lemma outputs_loop_in_project (visit_ids : option (list string))
    (outs : list DatasetSpec) (acc : list Session) (s : Session) :
  (∀ s', s' ∈ acc → s' ∈ all_sessions project) →
  s ∈ outputs_loop dataset project visit_ids outs acc →
  s ∈ all_sessions project.
Proof.
  revert acc. induction outs as [|o outs IH]; intros acc Hacc; simpl; [auto|].
  destruct (dataset_multiplicity (dataset (spec_name o))).
  - apply IH. intros s'. rewrite elem_of_set_update, elem_of_sessions_lacking.
    intros [?|(? & _)]; auto.
  - apply IH. intros s'. rewrite elem_of_set_update, elem_of_subjects_lacking.
    intros [?|(sub & ? & _ & ? & _)]; [auto|]. apply elem_of_all_sessions. eauto.
  - apply IH. intros s'. rewrite elem_of_set_update, elem_of_subjects_lacking.
    intros [?|(sub & ? & _ & ? & _)]; [auto|]. apply elem_of_all_sessions. eauto.
  - case_decide; [by apply IH|done].
Qed.

Lemma sessions_to_process_elem (outs : list DatasetSpec)
    (visit_ids : option (list string)) (s : Session) :
  (∀ o, o ∈ outs → ¬ project_output_missing dataset project o) →
  s ∈ _sessions_to_process dataset outs project visit_ids RFalse ↔
  ∃ o, o ∈ outs ∧ selects dataset project visit_ids o s.
Proof.
  intros Hnone. unfold _sessions_to_process. simpl.
  rewrite outputs_loop_elem by done.
  split; [intros [Hs|?]; [by apply elem_of_nil in Hs|done] | auto].
Qed.

(** A project-level output that is missing makes the result all the
    sessions. *)
Lemma sessions_to_process_all (outs : list DatasetSpec)
    (visit_ids : option (list string)) (o : DatasetSpec) :
  o ∈ outs → project_output_missing dataset project o →
  _sessions_to_process dataset outs project visit_ids RFalse
  = all_sessions project.
Proof.
  intros Ho [Hmult Hmiss]. unfold _sessions_to_process. simpl.
  by eapply outputs_loop_project_missing.
Qed.

Lemma project_output_missing_dec (o : DatasetSpec) :
  Decision (project_output_missing dataset project o).
Proof. unfold project_output_missing. apply _. Defined.

(** Either some desired output is a missing project-level one, or none
    is. *)
Lemma project_output_missing_cases (outs : list DatasetSpec) :
  (∃ o, o ∈ outs ∧ project_output_missing dataset project o) ∨
  (∀ o, o ∈ outs → ¬ project_output_missing dataset project o).
Proof.
  induction outs as [|o outs [(o' & Ho' & Hm)|IH]].
  - right. intros o Ho. by apply elem_of_nil in Ho.
  - left. exists o'. split; [by right|done].
  - destruct (project_output_missing_dec o) as [Hm|Hm].
    + left. exists o. split; [left|done].
    + right. intros o' Ho'. apply elem_of_cons in Ho' as [->|Ho']; auto.
Qed.

(** X1. Whatever the desired outputs, the visit filter and the flag,
    every session returned by [_sessions_to_process] is a session of a
    subject of the project. *)
Theorem selected_sessions_in_project (outs : list DatasetSpec)
    (visit_ids : option (list string)) (reprocess : reprocess_flag)
    (s : Session) :
  s ∈ _sessions_to_process dataset outs project visit_ids reprocess →
  ∃ sub, sub ∈ project_subjects project ∧ s ∈ subject_sessions sub.
Proof.
  intros Hs. apply elem_of_all_sessions. revert Hs.
  unfold _sessions_to_process. destruct (truthy reprocess); [done|].
  apply outputs_loop_in_project. intros s' Hs'. by apply elem_of_nil in Hs'.
Qed.

(** X2. With [reprocess=False] and no project-level output missing, the
    sessions returned are the union over the desired outputs of the
    sessions each one asks for. *)
Theorem selected_sessions_union (outs : list DatasetSpec)
    (visit_ids : option (list string)) (s : Session) :
  (∀ o, o ∈ outs → ¬ project_output_missing dataset project o) →
  s ∈ _sessions_to_process dataset outs project visit_ids RFalse ↔
  ∃ o, o ∈ outs ∧ selects dataset project visit_ids o s.
Proof.
  intros Hnone. unfold _sessions_to_process. simpl.
  rewrite outputs_loop_elem by done.
  split; [intros [Hs|?]; [by apply elem_of_nil in Hs|done] | auto].
Qed.

(** X3. When every desired output is in the archive at its level (in
    the project, in every subject, or in every session),
    [_sessions_to_process] with [reprocess=False] returns no session. *)
Theorem archived_outputs_select_nothing (outs : list DatasetSpec)
    (visit_ids : option (list string)) :
  (∀ o, o ∈ outs → output_archived dataset project o) →
  _sessions_to_process dataset outs project visit_ids RFalse = [].
Proof.
  intros Harch. apply elem_of_nil_inv. intros s Hs.
  apply sessions_to_process_elem in Hs as (o & Ho & Hsel).
  - specialize (Harch o Ho). unfold output_archived in Harch.
    unfold selects in Hsel.
    destruct (dataset_multiplicity (dataset (spec_name o))).
    + destruct Hsel as (Hin & Hlack & _). by apply Hlack, Harch.
    + destruct Hsel as (sub & Hsub & Hlack & _). by apply Hlack, Harch.
    + destruct Hsel as (sub & Hsub & Hlack & _). by apply Hlack, Harch.
    + done.
  - intros o Ho [Hmult Hmiss]. specialize (Harch o Ho).
    unfold output_archived in Harch. rewrite Hmult in Harch. done.
Qed.

(** X4. With [reprocess=False], a visit filter and no project-level
    output missing, every session returned has a visit id of the
    filter. *)
Theorem visit_filter_respected (outs : list DatasetSpec) (ids : list string)
    (s : Session) :
  (∀ o, o ∈ outs → ¬ project_output_missing dataset project o) →
  s ∈ _sessions_to_process dataset outs project (Some ids) RFalse →
  session_id s ∈ ids.
Proof.
  intros Hnone Hs. apply sessions_to_process_elem in Hs as (o & Ho & Hsel);
    [|done].
  unfold selects in Hsel.
  destruct (dataset_multiplicity (dataset (spec_name o)));
    [by destruct Hsel as (_ & _ & ?) | | | done];
    by destruct Hsel as (sub & _ & _ & _ & ?).
Qed.

(** X5. The sessions returned do not depend on the order in which the
    desired outputs are listed. *)
Theorem selection_order_irrelevant (outs outs' : list DatasetSpec)
    (visit_ids : option (list string)) (reprocess : reprocess_flag)
    (s : Session) :
  outs ≡ₚ outs' →
  s ∈ _sessions_to_process dataset outs project visit_ids reprocess ↔
  s ∈ _sessions_to_process dataset outs' project visit_ids reprocess.
Proof.
  intros Hperm. destruct reprocess; [|done|done].
  destruct (project_output_missing_cases outs) as [(o & Ho & Hm)|Hnone].
  - rewrite (sessions_to_process_all outs visit_ids o Ho Hm).
    rewrite (sessions_to_process_all outs' visit_ids o); [done| |done].
    by rewrite <- Hperm.
  - rewrite !sessions_to_process_elem; [|intros o Ho; apply Hnone; by rewrite Hperm|done].
    split; intros (o & Ho & Hsel); exists o; split; try done.
    + by rewrite <- Hperm.
    + by rewrite Hperm.
Qed.

(** X6. Asking for more outputs never removes a session from the
    result. *)
Theorem selection_grows_with_outputs (outs more : list DatasetSpec)
    (visit_ids : option (list string)) (reprocess : reprocess_flag)
    (s : Session) :
  s ∈ _sessions_to_process dataset outs project visit_ids reprocess →
  s ∈ _sessions_to_process dataset (outs ++ more) project visit_ids reprocess.
Proof.
  destruct reprocess; [|done|done]. intros Hs.
  destruct (project_output_missing_cases (outs ++ more))
    as [(o & Ho & Hm)|Hnone].
  - rewrite (sessions_to_process_all _ visit_ids o Ho Hm).
    revert Hs. apply outputs_loop_in_project.
    intros s' Hs'. by apply elem_of_nil in Hs'.
  - apply sessions_to_process_elem; [done|].
    apply sessions_to_process_elem in Hs as (o & Ho & Hsel).
    + exists o. split; [|done]. apply elem_of_app. by left.
    + intros o Ho. apply Hnone, elem_of_app. by left.
Qed.

End selection_properties.

Lemma selected_sessions_in_project_witness :
  ∃ sub, sub ∈ project_subjects ex_project ∧
         ex_session "B" "2" ∈ subject_sessions sub.
Proof.
  apply (selected_sessions_in_project ex_dataset ex_project
           [mkDatasetSpec "mean" "nifti_gz"] (Some ["2"]) RFalse).
  apply list_elem_of_In. vm_compute. auto.
Defined.

Lemma selected_sessions_union_witness :
  ex_session "A" "2" ∈ _sessions_to_process ex_dataset
    [mkDatasetSpec "mean" "nifti_gz"; mkDatasetSpec "preproc" "nifti_gz"]
    ex_project (Some ["2"]) RFalse ↔
  ∃ o, o ∈ [mkDatasetSpec "mean" "nifti_gz"; mkDatasetSpec "preproc" "nifti_gz"] ∧
       selects ex_dataset ex_project (Some ["2"]) o (ex_session "A" "2").
Proof.
  apply (selected_sessions_union ex_dataset ex_project
           [mkDatasetSpec "mean" "nifti_gz"; mkDatasetSpec "preproc" "nifti_gz"]
           (Some ["2"])).
  intros o Ho [Hmult _]. apply list_elem_of_In in Ho. simpl in Ho.
  destruct Ho as [<-|[<-|[]]]; vm_compute in Hmult; discriminate Hmult.
Defined.

Lemma archived_outputs_select_nothing_witness :
  _sessions_to_process ex_dataset [mkDatasetSpec "preproc" "nifti_gz"]
    ex_project_preprocessed None RFalse = [].
Proof.
  apply (archived_outputs_select_nothing ex_dataset ex_project_preprocessed
           [mkDatasetSpec "preproc" "nifti_gz"] None).
  intros o Ho. apply list_elem_of_singleton in Ho as ->.
  intros s Hs. apply list_elem_of_In in Hs. vm_compute in Hs.
  destruct Hs as [<-|[<-|[<-|[<-|[]]]]]; apply list_elem_of_In; vm_compute; auto.
Defined.

Lemma visit_filter_respected_witness :
  session_id (ex_session "A" "2") ∈ ["2"].
Proof.
  apply (visit_filter_respected ex_dataset ex_project
           [mkDatasetSpec "preproc" "nifti_gz"] ["2"] (ex_session "A" "2")).
  - intros o Ho [Hmult _]. apply list_elem_of_singleton in Ho as ->.
    vm_compute in Hmult. discriminate Hmult.
  - apply list_elem_of_In. vm_compute. auto.
Defined.

Lemma selection_order_irrelevant_witness :
  ex_session "A" "1" ∈ _sessions_to_process ex_dataset
    [mkDatasetSpec "mean" "nifti_gz"; mkDatasetSpec "template" "nifti_gz"]
    ex_project (Some ["2"]) RFalse ↔
  ex_session "A" "1" ∈ _sessions_to_process ex_dataset
    [mkDatasetSpec "template" "nifti_gz"; mkDatasetSpec "mean" "nifti_gz"]
    ex_project (Some ["2"]) RFalse.
Proof.
  apply (selection_order_irrelevant ex_dataset ex_project).
  apply Permutation_swap.
Defined.

Lemma selection_grows_with_outputs_witness :
  ex_session "A" "2" ∈ _sessions_to_process ex_dataset
    ([mkDatasetSpec "mean" "nifti_gz"] ++ [mkDatasetSpec "template" "nifti_gz"])
    ex_project (Some ["2"]) RFalse.
Proof.
  apply (selection_grows_with_outputs ex_dataset ex_project).
  apply list_elem_of_In. vm_compute. auto.
Defined.

(** ** The subject and visit iterators *)

Section iteration_properties.

Lemma elem_of_subjects_binding (l : list Session) (sid : string) :
  sid ∈ elements (subject_ids_to_process l) ↔ sid ∈ session_subject <$> l.
Proof.
  unfold subject_ids_to_process. by rewrite elem_of_elements, elem_of_list_to_set.
Qed.

Lemma has_visit_elems (l : list Session) (sid v : string) :
  has_visit l sid v →
  sid ∈ session_subject <$> l ∧ v ∈ session_id <$> l.
Proof.
  intros (s & Hs & <- & <-). split; by apply list_elem_of_fmap_2.
Qed.

Lemma elem_of_visits_of (l : list Session) (sid v : string) :
  v ∈ session_id <$> filter (λ s, session_subject s = sid) l ↔
  has_visit l sid v.
Proof.
  unfold has_visit. rewrite list_elem_of_fmap. split.
  - intros (s & -> & Hs). apply list_elem_of_filter in Hs as [? ?]. eauto.
  - intros (s & Hs & <- & Hsid). exists s. split; [done|].
    by apply list_elem_of_filter.
Qed.

(** X7. In both bindings the two iterator nodes run over exactly the
    pairs of subject id and visit id that have a session in the work
    set: no pair is left out and none is made up. *)
Theorem iteration_space_exact (name : string) (l : list Session)
    (sid v : string) :
  iterated (subjects_binding l) (sessions_binding name l) sid v ↔
  has_visit l sid v.
Proof.
  unfold iterated, subjects_binding. cbn [snd].
  rewrite elem_of_subjects_binding.
  destruct (visits_uniform l) eqn:Hu.
  - pose proof (sessions_binding_uniform name l Hu) as (ids & -> & Hids).
    cbn [fst snd]. rewrite Hids.
    apply visits_uniform_spec in Hu. split.
    + intros [Hsid Hv]. by apply (Hu v Hv sid).
    + apply has_visit_elems.
  - pose proof (sessions_binding_not_uniform name l Hu) as (m & -> & Hm).
    cbn [fst snd]. split.
    + intros (Hsid & ids & Hl & Hv). rewrite Hm, decide_True in Hl by done.
      injection Hl as <-. by apply elem_of_visits_of.
    + intros Hv. pose proof (has_visit_elems _ _ _ Hv) as [Hsid _].
      split; [done|]. eexists. rewrite Hm, decide_True by done.
      split; [done|]. by apply elem_of_visits_of.
Qed.

(** X8. A work set whose sessions all belong to one subject, or all
    have the same visit id, gets the flat binding. *)
Theorem one_subject_or_one_visit_flat (name : string) (l : list Session) :
  (∀ s s', s ∈ l → s' ∈ l → session_subject s = session_subject s') ∨
  (∀ s s', s ∈ l → s' ∈ l → session_id s = session_id s') →
  flat_binding l (sessions_binding name l).
Proof.
  intros Hone. apply sessions_binding_uniform, visits_uniform_spec.
  intros v Hv sid. split; [by intros (s & Hs & _ & <-); apply list_elem_of_fmap_2|].
  intros Hsid.
  apply list_elem_of_fmap in Hv as (s2 & -> & Hs2).
  apply list_elem_of_fmap in Hsid as (s1 & -> & Hs1).
  destruct Hone as [Hone|Hone].
  - exists s2. split; [done|]. split; [done|]. by apply Hone.
  - exists s1. split; [done|]. split; [by apply Hone|done].
Qed.

End iteration_properties.

Lemma one_subject_or_one_visit_flat_witness :
  flat_binding [ex_session "A" "1"; ex_session "B" "1"; ex_session "C" "1"]
    (sessions_binding "prep"
       [ex_session "A" "1"; ex_session "B" "1"; ex_session "C" "1"]).
Proof.
  apply (one_subject_or_one_visit_flat "prep").
  right. intros s s' Hs Hs'.
  apply list_elem_of_In in Hs. apply list_elem_of_In in Hs'. simpl in Hs, Hs'.
  destruct Hs as [<-|[<-|[<-|[]]]]; destruct Hs' as [<-|[<-|[<-|[]]]];
    reflexivity.
Defined.

Section iterator_node_properties.
Context {V : Type} `{!EqDecision V}.

(** X9. [_subject_and_session_iterators] connects the subject id of
    the [subjects] node to the [sessions] node of the same instance;
    when the [sessions] node is given an itersource, it names that
    [subjects] node and the field that node iterates over. *)
Theorem itersource_is_subjects_node (self : Pipeline (V:=V)) (serial : nat)
    (l : list Session) (st st' : Run (V:=V)) (nodes : Node * Node) :
  _subject_and_session_iterators self serial l st = Ok (nodes, st') →
  node_owner nodes.1 = serial ∧ node_owner nodes.2 = serial ∧
  (nodes.1, "subject_id", nodes.2, "subject_id") ∈ connections st' ∧
  (nodes.1, subjects_binding l, None) ∈ iterating st' ∧
  (nodes.2, (sessions_binding (_name self) l).1,
   (sessions_binding (_name self) l).2) ∈ iterating st' ∧
  ∀ src field, (sessions_binding (_name self) l).2 = Some (src, field) →
    src = node_name nodes.1 ∧ field = (subjects_binding l).1.
Proof.
  unfold _subject_and_session_iterators, m_bind, set_iterables, connect, m_ret.
  intros [= <- <-]. cbn [fst snd node_owner node_name connections iterating].
  split; [done|]. split; [done|].
  split; [apply elem_of_app; right; left|].
  split; [apply elem_of_app; left; apply elem_of_app; right; left|].
  split; [apply elem_of_app; right; left|].
  intros src field. unfold sessions_binding, subjects_binding.
  destruct (visits_uniform l); [done|]. cbn [snd fst].
  by intros [= <- <-].
Qed.

End iterator_node_properties.

Lemma itersource_is_subjects_node_witness :
  node_owner (mkNode 0 "prep_subjects") = 0 ∧
  node_owner (mkNode 0 "prep_sessions") = 0.
Proof.
  destruct (itersource_is_subjects_node (ex_pipeline 5 "prep_pipeline" ∅) 0
              [ex_session "A" "1"; ex_session "B" "2"] ex_run
              (match _subject_and_session_iterators
                       (ex_pipeline 5 "prep_pipeline" ∅) 0
                       [ex_session "A" "1"; ex_session "B" "2"] ex_run with
               | Ok (_, st) => st
               | Raise _ => ex_run
               end)
              (mkNode 0 "prep_subjects", mkNode 0 "prep_sessions"))
    as (H1 & H2 & _).
  - vm_compute. reflexivity.
  - split; [exact H1 | exact H2].
Defined.

(** ** Construction *)

Section construction_properties.
Context {V : Type} `{!EqDecision V}.
Variable study : Study.

Lemma check_spec_names_ok (specs : list DatasetSpec) (spec_type : string) :
  _check_spec_names study specs spec_type = Ok tt ↔
  ∀ s, s ∈ specs → spec_name s ∈ dataset_spec_names study.
Proof.
  unfold _check_spec_names. case_decide as Hf.
  - split; [intros _|done]. intros s Hs.
    destruct (decide (spec_name s ∈ dataset_spec_names study)) as [|Hn]; [done|].
    exfalso. eapply filter_nil_not_elem_of; [exact Hf|exact Hn|exact Hs].
  - split; [done|]. intros Hall. exfalso. apply Hf.
    apply filter_none. intros s Hs Hn. by apply Hn, Hall.
Qed.

Lemma size_list_to_set_names (l : list string) :
  NoDup l → length l = size (list_to_set l : gset string).
Proof. intros Hnd. by rewrite size_list_to_set. Qed.

(** X10. [__init__] returns a pipeline exactly when every declared
    input and output name is a dataset spec name of the study, no input
    name is an iterable field, the input names are distinct and the
    output names are distinct; otherwise it raises. *)
Theorem construction_succeeds_iff (name : string) (ins outs : list DatasetSpec)
    (description : string) (default_options : gmap string V)
    (citations : list string) (version : Z) (options : gmap string V) :
  (∃ p, __init__ study name ins outs description default_options citations
          version options = Ok p) ↔
  (∀ i, i ∈ ins → spec_name i ∈ dataset_spec_names study) ∧
  (∀ o, o ∈ outs → spec_name o ∈ dataset_spec_names study) ∧
  (∀ i, i ∈ ins → spec_name i ∉ iterfields) ∧
  NoDup (spec_name <$> ins) ∧ NoDup (spec_name <$> outs).
Proof.
  split.
  - intros [p Hinit].
    pose proof (init_ok _ _ _ _ _ _ _ _ _ _ Hinit) as (Hres & Hi & Ho & _).
    unfold __init__ in Hinit.
    destruct (_check_spec_names study ins "input") as [[]|] eqn:Hci; [|done].
    simpl in Hinit. case_bool_decide; [done|].
    destruct (_check_spec_names study outs "output") as [[]|] eqn:Hco; [|done].
    pose proof (proj1 (check_spec_names_ok _ _) Hci) as Hci'.
    pose proof (proj1 (check_spec_names_ok _ _) Hco) as Hco'.
    split; [done|]. split; [done|]. split; [|done].
    intros i Hin Hr. apply Hres, Exists_exists. exists i.
    split; [by apply list_elem_of_In|done].
  - intros (Hci & Hco & Hres & Hi & Ho). unfold __init__.
    apply (proj2 (check_spec_names_ok ins "input")) in Hci.
    apply (proj2 (check_spec_names_ok outs "output")) in Hco.
    rewrite Hci. simpl. rewrite bool_decide_eq_false_2.
    + rewrite Hco. simpl.
      rewrite decide_True
        by (rewrite <- size_list_to_set_names, length_fmap; done).
      rewrite decide_True; [eauto|].
      rewrite <- size_list_to_set_names, length_fmap.
      * by rewrite grouped_outputs_permutation.
      * by rewrite grouped_outputs_permutation.
    + intros Hex. apply Exists_exists in Hex as (i & Hin & Hr).
      apply list_elem_of_In in Hin. by apply (Hres i).
Qed.

(** The dictionary built by the grouping loop. *)
Lemma group_outputs_lookup (outs : list DatasetSpec) (mult : multiplicity) :
  group_outputs study outs !! mult =
  if decide (outputs_of_multiplicity study outs mult = []) then None
  else Some (outputs_of_multiplicity study outs mult).
Proof.
  unfold outputs_of_multiplicity.
  induction outs as [|o outs IH] using rev_ind.
  - by rewrite decide_True.
  - rewrite group_outputs_snoc, list.filter_app.
    destruct (decide (dataset_multiplicity (dataset_spec study (spec_name o))
                      = mult)) as [<-|Hne].
    + rewrite lookup_insert_eq, IH.
      rewrite (filter_cons_True _ o []) by done. rewrite filter_nil.
      destruct (decide (_ ++ [o] = [])) as [Hnil|_];
        [by apply app_eq_nil in Hnil as [_ ?]|].
      f_equal. by case_decide as Hnil; [rewrite Hnil|].
    + rewrite lookup_insert_ne by done. rewrite IH.
      rewrite (filter_cons_False _ o []) by done.
      by rewrite filter_nil, app_nil_r.
Qed.

(** X11. A constructed pipeline files its outputs by the multiplicity
    of their dataset specs: under each multiplicity that some declared
    output has, it keeps those outputs in the order of declaration and an
    output node named after the pipeline and the multiplicity; it keeps
    nothing under the other multiplicities. *)
Theorem outputs_filed_by_multiplicity (name : string)
    (ins outs : list DatasetSpec) (description : string)
    (default_options : gmap string V) (citations : list string)
    (version : Z) (options : gmap string V) (p : Pipeline (V:=V))
    (mult : multiplicity) :
  __init__ study name ins outs description default_options citations
    version options = Ok p →
  (outputs_of_multiplicity study outs mult = [] →
   _outputs p !! mult = None ∧ _outputnodes p !! mult = None) ∧
  (outputs_of_multiplicity study outs mult ≠ [] →
   _outputs p !! mult = Some (outputs_of_multiplicity study outs mult) ∧
   _outputnodes p !! mult =
     Some (name +:+ "_" +:+ multiplicity_str mult +:+ "_outputnode") ∧
   (name +:+ "_" +:+ multiplicity_str mult +:+ "_outputnode")
     ∈ wf_nodes (_workflow p)).
Proof.
  unfold __init__. destruct (_check_spec_names study ins "input"); [|done].
  simpl. case_bool_decide; [done|].
  destruct (_check_spec_names study outs "output"); [|done]. simpl.
  case_decide; [|done]. case_decide; [|done]. intros [= <-]. simpl.
  rewrite map_lookup_imap, group_outputs_lookup.
  split; intros Hl.
  - by rewrite decide_True.
  - rewrite decide_False by done. simpl. split; [done|]. split; [done|].
    assert (∀ (ns : list string) w n,
              n ∈ ns → n ∈ wf_nodes (foldl wf_add_node w ns)) as Hfold.
    { intros ns. induction ns as [|n' ns IH]; intros w n Hn;
        [by apply elem_of_nil in Hn|]. simpl.
      apply elem_of_cons in Hn as [->|Hn]; [|by apply IH].
      clear IH. assert (∀ w', n' ∈ wf_nodes w' →
                          n' ∈ wf_nodes (foldl wf_add_node w' ns)) as Hkeep.
      { induction ns as [|n'' ns IH]; intros w' Hw'; [done|]. simpl.
        apply IH. simpl. apply elem_of_app. by left. }
      apply Hkeep. simpl. apply elem_of_app. right. left. }
    apply Hfold. apply list_elem_of_fmap.
    exists (mult, node_name_of name (multiplicity_str mult +:+ "_outputnode")).
    split; [done|]. apply elem_of_map_to_list.
    rewrite map_lookup_imap, group_outputs_lookup.
    by rewrite decide_False.
Qed.

End construction_properties.

Lemma outputs_filed_by_multiplicity_witness :
  _outputs (ex_pipeline 5 "prep_pipeline" ∅) !! per_visit = None ∧
  _outputnodes (ex_pipeline 5 "prep_pipeline" ∅) !! per_visit = None.
Proof.
  destruct (outputs_filed_by_multiplicity ex_study "prep"
              [mkDatasetSpec "primary" "nifti_gz"]
              [mkDatasetSpec "preproc" "nifti_gz"] ""
              ({[ "threshold" := 5 ]} : gmap string nat) [] 1 ∅
              (match __init__ ex_study "prep"
                       [mkDatasetSpec "primary" "nifti_gz"]
                       [mkDatasetSpec "preproc" "nifti_gz"] ""
                       ({[ "threshold" := 5 ]} : gmap string nat) [] 1 ∅ with
               | Ok p => p
               | Raise _ => ex_summary
               end) per_visit) as [Hnone _]; [vm_compute; reflexivity|].
  destruct Hnone as [H1 H2]; [vm_compute; reflexivity|].
  split; [vm_compute; reflexivity | vm_compute; reflexivity].
Defined.

(** ** Wiring *)

Section wiring_properties.
Context {V : Type} `{!EqDecision V}.
Variable study : Study.

(** What one successful wiring call changes and what it keeps. *)
Lemma do_call_effect (p p1 : Pipeline (V:=V)) (c : wiring_call) :
  do_call study p c = Ok p1 →
  (∃ e, connection_of study p c = Some e ∧
        wf_connections (_workflow p1) = wf_connections (_workflow p) ++ [e]) ∧
  wf_nodes (_workflow p1) = wf_nodes (_workflow p) ∧
  _inputnode p1 = _inputnode p ∧ _outputnodes p1 = _outputnodes p ∧
  _name p1 = _name p ∧ _study p1 = _study p ∧ _inputs p1 = _inputs p ∧
  _outputs p1 = _outputs p ∧ _options p1 = _options p ∧
  _citations p1 = _citations p ∧ _version p1 = _version p ∧
  _description p1 = _description p ∧
  _default_options p1 = _default_options p.
Proof.
  destruct c as [n node f|n node f]; simpl.
  - unfold connect_input. case_decide; [|by destruct (_inputs p)].
    intros [= <-]. simpl. split; [eauto|]. by repeat split.
  - unfold connect_output. case_decide; [|done]. case_decide; [|done].
    destruct (_outputnodes p !! _) as [outputnode|]; [|done].
    intros [= <-]. simpl. split; [eauto|]. by repeat split.
Qed.

Lemma connection_of_stable (p p1 : Pipeline (V:=V)) (c : wiring_call) :
  _inputnode p1 = _inputnode p → _outputnodes p1 = _outputnodes p →
  connection_of study p1 c = connection_of study p c.
Proof. intros Hi Ho. destruct c; simpl; by rewrite ?Hi, ?Ho. Qed.

Lemma do_calls_effect (cs : list wiring_call) (p p' : Pipeline (V:=V)) :
  do_calls study p cs = Ok p' →
  (∃ es, Forall2 (λ c e, connection_of study p c = Some e) cs es ∧
         wf_connections (_workflow p') = wf_connections (_workflow p) ++ es) ∧
  wf_nodes (_workflow p') = wf_nodes (_workflow p) ∧
  _inputnode p' = _inputnode p ∧ _outputnodes p' = _outputnodes p ∧
  _name p' = _name p ∧ _study p' = _study p ∧ _inputs p' = _inputs p ∧
  _outputs p' = _outputs p ∧ _options p' = _options p ∧
  _citations p' = _citations p ∧ _version p' = _version p ∧
  _description p' = _description p ∧
  _default_options p' = _default_options p.
Proof.
  revert p. induction cs as [|c cs IH]; intros p; simpl.
  - intros [= <-]. split; [|by repeat split].
    exists []. split; [constructor|by rewrite app_nil_r].
  - destruct (do_call study p c) as [p1|] eqn:Hc; [|done]. simpl. intros Hcs.
    apply do_call_effect in Hc
      as ((e & He & Hconn) & Hn & Hi & Ho & H1 & H2 & H3 & H4 & H5 & H6 & H7 & H8 & H9).
    apply IH in Hcs
      as ((es & Hes & Hconn') & Hn' & Hi' & Ho' & H1' & H2' & H3' & H4' & H5' & H6' & H7' & H8' & H9').
    split; [|repeat split; congruence].
    exists (e :: es). split.
    + constructor; [done|].
      assert (∀ c' e', connection_of study p1 c' = Some e' →
                       connection_of study p c' = Some e') as Himp
        by (intros c' e'; by rewrite (connection_of_stable p p1 c')).
      clear -Hes Himp. induction Hes; constructor; auto.
    + rewrite Hconn', Hconn. by rewrite <- app_assoc.
Qed.

Lemma output_names_outputs (p p1 : Pipeline (V:=V)) :
  _outputs p1 = _outputs p → output_names p1 = output_names p.
Proof. intros Ho. unfold output_names, outputs. by rewrite Ho. Qed.

Lemma input_names_inputs (p p1 : Pipeline (V:=V)) :
  _inputs p1 = _inputs p → input_names p1 = input_names p.
Proof. intros Hi. unfold input_names, inputs. by rewrite Hi. Qed.

Lemma elem_of_called_outputs (cs : list wiring_call) (n : string) :
  n ∈ called_outputs cs ↔ output_called cs n.
Proof.
  unfold called_outputs, output_called. rewrite list_elem_of_omap. split.
  - intros (c & Hc & Hn). destruct c as [|n' node f]; [done|].
    injection Hn as ->. eauto.
  - intros (node & f & Hc). eauto.
Qed.

(** The calls of a sequence that returns are for declared names, and
    those for outputs are for outputs not yet connected. *)
Lemma do_calls_names (cs : list wiring_call) (p p' : Pipeline (V:=V)) :
  do_calls study p cs = Ok p' →
  (∀ n, input_called cs n → n ∈ input_names p) ∧
  (∀ n, output_called cs n →
        n ∈ output_names p ∧ n ∈ _unconnected_outputs p) ∧
  NoDup (called_outputs cs).
Proof.
  revert p. induction cs as [|c cs IH]; intros p; simpl.
  - intros _. split; [|split; [|constructor]].
    + intros n (? & ? & Habs). by apply elem_of_nil in Habs.
    + intros n (? & ? & Habs). by apply elem_of_nil in Habs.
  - destruct (do_call study p c) as [p1|] eqn:Hc; [|done]. simpl. intros Hcs.
    destruct (IH p1 Hcs) as (Hi & Ho & Hnd).
    destruct c as [n' node f|n' node f]; simpl in Hc.
    + apply connect_input_ok in Hc as (Hn' & Hi1 & Ho1 & _ & _ & Hu1).
      split; [|split].
      * intros n Hn. apply input_called_cons in Hn as [(? & ? & [= <- _ _])|Hn];
          [done|]. rewrite <- (input_names_inputs p p1 Hi1). by apply Hi.
      * intros n Hn.
        apply output_called_cons in Hn as [(? & ? & [=])|Hn].
        rewrite <- (output_names_outputs p p1 Ho1), <- Hu1. by apply Ho.
      * done.
    + apply connect_output_ok in Hc as (Hn' & Hun' & Hi1 & Ho1 & _ & _ & Hu1).
      split; [|split].
      * intros n Hn. apply input_called_cons in Hn as [(? & ? & [=])|Hn].
        rewrite <- (input_names_inputs p p1 Hi1). by apply Hi.
      * intros n Hn.
        apply output_called_cons in Hn as [(? & ? & [= <- _ _])|Hn]; [done|].
        destruct (Ho n Hn) as [Hd Hu]. rewrite Hu1 in Hu.
        apply elem_of_difference in Hu as [Hu _].
        by rewrite <- (output_names_outputs p p1 Ho1).
      * simpl. apply list.NoDup_cons. split; [|done].
        rewrite elem_of_called_outputs. intros Hc'.
        destruct (Ho n' Hc') as [_ Hu]. rewrite Hu1 in Hu.
        apply elem_of_difference in Hu as [_ Hu]. apply Hu.
        by apply elem_of_singleton.
Qed.

(** X12. An output can be connected once: after a sequence of wiring
    calls that returned and that had a call of [connect_output] for a
    name, a further call of [connect_output] for that name raises the
    assertion error, whatever node it is for. A declared input can be
    connected again. *)
Theorem output_connected_once (cs : list wiring_call) (p p' : Pipeline (V:=V)) :
  do_calls study p cs = Ok p' →
  (∀ n node node_output, output_called cs n →
     connect_output study p' n node node_output
     = Raise (AssertionError "'{}' output has been connected already")) ∧
  (∀ n node node_input, n ∈ input_names p →
     ∃ p'', connect_input p' n node node_input = Ok p'').
Proof.
  intros Hcs. pose proof (do_calls_names _ _ _ Hcs) as (_ & Ho & _).
  pose proof (do_calls_unconnected _ _ _ _ Hcs) as (Hi' & Ho' & _ & Huo).
  split.
  - intros n node f Hn. destruct (Ho n Hn) as [Hd _].
    unfold connect_output.
    rewrite decide_True by (by rewrite (output_names_outputs p p' Ho')).
    rewrite decide_False; [done|]. rewrite Huo. tauto.
  - intros n node f Hn. unfold connect_input.
    rewrite decide_True by (by rewrite (input_names_inputs p p' Hi')). eauto.
Qed.

(** X13. Every call of a sequence of wiring calls that returns is for
    a declared name, and no output name has two calls. *)
Theorem wiring_calls_declared (cs : list wiring_call) (p p' : Pipeline (V:=V)) :
  do_calls study p cs = Ok p' →
  (∀ n, input_called cs n → n ∈ input_names p) ∧
  (∀ n, output_called cs n → n ∈ output_names p) ∧
  NoDup (called_outputs cs).
Proof.
  intros Hcs. pose proof (do_calls_names _ _ _ Hcs) as (Hi & Ho & Hnd).
  split; [done|]. split; [|done]. intros n Hn. by apply Ho.
Qed.


(** X15. [==] on pipelines is reflexive, symmetric and transitive, and
    [!=] is its negation; it does not look at the version, the
    description or the wiring: two pipelines constructed from the same
    study, name, inputs, outputs, default options, citations and options
    are equal whatever their versions and descriptions, and stay equal
    when one of them is wired. *)
Theorem equality_ignores_version_and_wiring (name : string)
    (ins outs : list DatasetSpec) (description1 description2 : string)
    (default_options : gmap string V) (citations : list string)
    (version1 version2 : Z) (options : gmap string V)
    (p1 p2 p1' : Pipeline (V:=V)) (cs : list wiring_call) :
  __init__ study name ins outs description1 default_options citations
    version1 options = Ok p1 →
  __init__ study name ins outs description2 default_options citations
    version2 options = Ok p2 →
  do_calls study p1 cs = Ok p1' →
  Pipeline_eqb p1 p2 = true ∧ Pipeline_eqb p1' p2 = true ∧
  Pipeline_neb p1' p2 = false ∧
  (∀ p q : Pipeline (V:=V), Pipeline_eqb p q = Pipeline_eqb q p) ∧
  (∀ p q r : Pipeline (V:=V),
     Pipeline_eqb p q = true → Pipeline_eqb q r = true →
     Pipeline_eqb p r = true).
Proof.
  intros H1 H2 Hcs.
  assert (Pipeline_eqb p1 p2 = true) as Heq.
  { revert H1 H2. unfold __init__.
    destruct (_check_spec_names study ins "input"); [|done]. simpl.
    case_bool_decide; [done|].
    destruct (_check_spec_names study outs "output"); [|done]. simpl.
    case_decide; [|done]. case_decide; [|done].
    intros [= <-] [= <-]. apply Pipeline_eqb_true. by repeat split. }
  assert (Pipeline_eqb p1' p2 = true) as Heq'.
  { apply do_calls_effect in Hcs
      as (_ & _ & _ & _ & E1 & E2 & E3 & E4 & E5 & E6 & _).
    apply Pipeline_eqb_true in Heq. apply Pipeline_eqb_true.
    rewrite E1, E2, E3, E4, E5, E6. exact Heq. }
  split; [done|]. split; [done|].
  split; [unfold Pipeline_neb; by rewrite Heq'|]. split.
  - intros p q. apply eq_true_iff_eq. rewrite !Pipeline_eqb_true.
    split; intros (?&?&?&?&?&?); by repeat split.
  - intros p q r. rewrite !Pipeline_eqb_true.
    intros (?&?&?&?&?&?) (?&?&?&?&?&?). repeat split; congruence.
Qed.

End wiring_properties.

Lemma output_connected_once_witness :
  connect_output ex_study (ex_pipeline 5 "prep_pipeline" ∅) "preproc"
    "other_node" "out_file"
  = Raise (AssertionError "'{}' output has been connected already").
Proof.
  destruct (output_connected_once ex_study
              [call_connect_input "primary" "prep_node" "primary";
               call_connect_output "preproc" "prep_node" "preproc"]
              (match __init__ ex_study "prep"
                       [mkDatasetSpec "primary" "nifti_gz"]
                       [mkDatasetSpec "preproc" "nifti_gz"] ""
                       ({[ "threshold" := 5 ]} : gmap string nat) [] 1 ∅ with
               | Ok p => p
               | Raise _ => ex_summary
               end)
              (ex_pipeline 5 "prep_pipeline" ∅)) as [Hout _].
  - vm_compute. reflexivity.
  - apply Hout. exists "prep_node", "preproc". right. left.
Defined.

Lemma wiring_calls_declared_witness :
  NoDup (called_outputs
           [call_connect_input "primary" "prep_node" "primary";
            call_connect_output "preproc" "prep_node" "preproc"]).
Proof.
  destruct (wiring_calls_declared ex_study
              [call_connect_input "primary" "prep_node" "primary";
               call_connect_output "preproc" "prep_node" "preproc"]
              (match __init__ ex_study "prep"
                       [mkDatasetSpec "primary" "nifti_gz"]
                       [mkDatasetSpec "preproc" "nifti_gz"] ""
                       ({[ "threshold" := 5 ]} : gmap string nat) [] 1 ∅ with
               | Ok p => p
               | Raise _ => ex_summary
               end)
              (ex_pipeline 5 "prep_pipeline" ∅)) as (_ & _ & Hnd).
  - vm_compute. reflexivity.
  - exact Hnd.
Defined.


Lemma equality_ignores_version_and_wiring_witness :
  Pipeline_eqb (ex_pipeline 5 "prep_pipeline" ∅)
    (match __init__ ex_study "prep" [mkDatasetSpec "primary" "nifti_gz"]
             [mkDatasetSpec "preproc" "nifti_gz"] "another description"
             ({[ "threshold" := 5 ]} : gmap string nat) [] 2 ∅ with
     | Ok p => p
     | Raise _ => ex_summary
     end) = true.
Proof.
  destruct (equality_ignores_version_and_wiring ex_study "prep"
              [mkDatasetSpec "primary" "nifti_gz"]
              [mkDatasetSpec "preproc" "nifti_gz"] "" "another description"
              ({[ "threshold" := 5 ]} : gmap string nat) [] 1 2 ∅
              (match __init__ ex_study "prep"
                       [mkDatasetSpec "primary" "nifti_gz"]
                       [mkDatasetSpec "preproc" "nifti_gz"] ""
                       ({[ "threshold" := 5 ]} : gmap string nat) [] 1 ∅ with
               | Ok p => p
               | Raise _ => ex_summary
               end)
              (match __init__ ex_study "prep"
                       [mkDatasetSpec "primary" "nifti_gz"]
                       [mkDatasetSpec "preproc" "nifti_gz"] "another description"
                       ({[ "threshold" := 5 ]} : gmap string nat) [] 2 ∅ with
               | Ok p => p
               | Raise _ => ex_summary
               end)
              (ex_pipeline 5 "prep_pipeline" ∅)
              [call_connect_input "primary" "prep_node" "primary";
               call_connect_output "preproc" "prep_node" "preproc"])
    as (_ & Heq & _).
  - vm_compute. reflexivity.
  - vm_compute. reflexivity.
  - vm_compute. reflexivity.
  - exact Heq.
Defined.

(** ** Inputs added after the construction *)

Section added_input_properties.
Context {V : Type} `{!EqDecision V}.
Variable study : Study.

Lemma name_in_items_appended (n : string) (specs : list DatasetSpec)
    (names : list string) :
  n ∉ spec_name <$> specs →
  name_in_items n ((spec_item <$> specs) ++ (name_item <$> names ++ [n]))
  = Raise (AttributeError "'str' object has no attribute 'name'").
Proof.
  induction specs as [|s specs IH]; simpl.
  - intros _. by destruct names.
  - intros Hn. apply not_elem_of_cons in Hn as [Hne Hn].
    rewrite decide_False by done. by apply IH.
Qed.

(** C8. Code bug: [add_input] appends a name to the inputs of a
    pipeline and leaves the set of unconnected inputs as it is. For a
    pipeline that has been wired by calls of [connect_input] and
    [connect_output] and passes [assert_connected], and a dataset spec
    name of the study that is not yet an input, [add_input] returns; the
    name is then among the inputs, no call has connected it and
    [connect_input] raises for it, and [assert_connected] still does not
    raise. *)
Theorem added_input_escapes_validation (p0 p : Pipeline (V:=V))
    (cs : list wiring_call) (input_name : string) :
  do_calls study p0 cs = Ok p →
  assert_connected p = Ok tt →
  input_name ∈ dataset_spec_names study →
  input_name ∉ input_names p0 →
  ∃ e, add_input study (mkExtended p []) input_name = Ok e ∧
       name_item input_name ∈ input_items e ∧
       ¬ input_called cs input_name ∧
       (∀ node node_input,
          connect_input_extended e input_name node node_input
          = Raise (AttributeError "'str' object has no attribute 'name'")) ∧
       assert_connected_extended e = Ok tt.
Proof.
  intros Hcs Hok Hspec Hnew.
  exists (mkExtended p [input_name]).
  split; [unfold add_input; by rewrite decide_True|].
  split.
  { unfold input_items. simpl. apply elem_of_app. right. left. }
  split.
  { intros Hcalled. apply Hnew.
    by apply (proj1 (do_calls_names study cs p0 p Hcs)). }
  split; [|exact Hok].
  intros node node_input. unfold connect_input_extended, input_items. simpl.
  apply do_calls_unconnected in Hcs as (Hin & _).
  assert (input_name ∉ spec_name <$> _inputs p) as Hnotin
    by (unfold input_names, inputs in Hnew; by rewrite Hin).
  pose proof (name_in_items_appended input_name (_inputs p) [] Hnotin)
    as Hraise.
  simpl in Hraise. by rewrite Hraise.
Qed.

End added_input_properties.

Lemma added_input_escapes_validation_witness :
  ∃ e : Extended (V:=nat),
    add_input ex_study (mkExtended (ex_pipeline 5 "prep_pipeline" ∅) [])
      "template" = Ok e ∧
    name_item "template" ∈ input_items e ∧
    assert_connected_extended e = Ok tt.
Proof.
  destruct (added_input_escapes_validation ex_study
              (match __init__ ex_study "prep"
                       [mkDatasetSpec "primary" "nifti_gz"]
                       [mkDatasetSpec "preproc" "nifti_gz"] ""
                       ({[ "threshold" := 5 ]} : gmap string nat) [] 1 ∅ with
               | Ok p => p
               | Raise _ => ex_summary
               end)
              (ex_pipeline 5 "prep_pipeline" ∅)
              [call_connect_input "primary" "prep_node" "primary";
               call_connect_output "preproc" "prep_node" "preproc"]
              "template") as (e & Hadd & Hitem & _ & _ & Hok).
  - vm_compute. reflexivity.
  - vm_compute. reflexivity.
  - vm_compute. repeat (first [left | right]).
  - vm_compute. intros Hin. inversion Hin as [|? ? ? Hin']; inversion Hin'.
  - exists e. split; [exact Hadd|]. split; [exact Hitem | exact Hok].
Defined.

(** ** Options *)

Section option_properties.
Context {V : Type} `{!EqDecision V}.
Variable study : Study.

Lemma init_options_fields (name : string) (ins outs : list DatasetSpec)
    (description : string) (default_options : gmap string V)
    (citations : list string) (version : Z) (options : gmap string V)
    (p : Pipeline (V:=V)) :
  __init__ study name ins outs description default_options citations
    version options = Ok p →
  _options p = update_options default_options (map_to_list options) ∧
  _default_options p = default_options.
Proof.
  unfold __init__. destruct (_check_spec_names study ins "input"); [|done].
  simpl. case_bool_decide; [done|].
  destruct (_check_spec_names study outs "output"); [|done]. simpl.
  case_decide; [|done]. case_decide; [|done]. by intros [= <-].
Qed.

Lemma non_default_items_elem (value_ne : V → V → bool)
    (default_options : gmap string V) (items : list (string * V)) :
  (∀ k v, (k, v) ∈ items → is_Some (default_options !! k)) →
  ∃ res, non_default_items value_ne default_options items = Ok res ∧
    ∀ k v, (k, v) ∈ res ↔
      (k, v) ∈ items ∧
      ∃ d, default_options !! k = Some d ∧ value_ne v d = true.
Proof.
  induction items as [|[k0 v0] items IH]; intros Hdef.
  - exists []. split; [done|]. intros k v. split.
    + intros Hin. by apply elem_of_nil in Hin.
    + intros [Hin _]. by apply elem_of_nil in Hin.
  - destruct IH as (res & Hres & Hiff).
    { intros k v Hin. apply (Hdef k v). by right. }
    destruct (Hdef k0 v0) as [d0 Hd0]; [left|]. simpl. rewrite Hd0, Hres.
    simpl. destruct (value_ne v0 d0) eqn:Hne; eexists; (split; [done|]);
      intros k v.
    + rewrite !elem_of_cons, Hiff. split.
      * intros [[= -> ->]|[Hin Hd]]; [|tauto]. split; [by left|eauto].
      * intros [[[= -> ->]|Hin] Hd]; [by left|by right].
    + rewrite elem_of_cons, Hiff. split; [tauto|].
      intros [[[= -> ->]|Hin] Hd]; [|done].
      destruct Hd as (d & Hd & Hv). rewrite Hd0 in Hd.
      injection Hd as <-. congruence.
Qed.

(** X16. For a constructed pipeline [non_default_options] does not
    raise, and its items are the options of the pipeline (for each key
    that is a default, the value given to the constructor, else the
    default value) whose value is [!=] to the default value. When no
    value is [!=] to itself, every item is an option that was given to
    the constructor. *)
Theorem non_default_options_differ_from_defaults
    (value_ne : V → V → bool) (name : string)
    (ins outs : list DatasetSpec) (description : string)
    (default_options : gmap string V) (citations : list string)
    (version : Z) (options : gmap string V) (p : Pipeline (V:=V)) :
  __init__ study name ins outs description default_options citations
    version options = Ok p →
  ∃ items, non_default_options value_ne p = Ok items ∧
    (∀ k v, (k, v) ∈ items ↔
       ∃ d, default_options !! k = Some d ∧ v = default d (options !! k) ∧
            value_ne v d = true) ∧
    ((∀ d, value_ne d d = false) →
     ∀ k v, (k, v) ∈ items → options !! k = Some v).
Proof.
  intros Hinit. apply init_options_fields in Hinit as [Hopt Hdef].
  unfold non_default_options. rewrite Hopt, Hdef.
  assert (∀ k v, (k, v) ∈ map_to_list
                   (update_options default_options (map_to_list options)) ↔
                 ∃ d, default_options !! k = Some d ∧
                      v = default d (options !! k)) as Hitems.
  { intros k v. rewrite elem_of_map_to_list, update_options_map.
    destruct (default_options !! k) as [d|]; split.
    - intros [= <-]. eauto.
    - by intros (d' & [= <-] & ->).
    - done.
    - by intros (d' & ? & _). }
  destruct (non_default_items_elem value_ne default_options
              (map_to_list (update_options default_options
                              (map_to_list options))))
    as (items & Hres & Hiff).
  { intros k v Hin. apply Hitems in Hin as (d & Hd & _). eauto. }
  assert (∀ k v, (k, v) ∈ items ↔
            ∃ d, default_options !! k = Some d ∧
                 v = default d (options !! k) ∧ value_ne v d = true)
    as Hchar.
  { intros k v. rewrite Hiff, Hitems. split.
    - intros ((d & Hd & Hv) & d' & Hd' & Hne). exists d.
      rewrite Hd in Hd'. injection Hd' as <-. done.
    - intros (d & Hd & Hv & Hne). split; eauto. }
  exists items. split; [done|]. split; [exact Hchar|].
  intros Hirr k v Hin. apply Hchar in Hin as (d & Hd & Hv & Hne).
  destruct (options !! k) as [v'|]; simpl in Hv; [by rewrite Hv|].
  subst v. by rewrite Hirr in Hne.
Qed.

(** X17. [option] on a constructed pipeline returns the value given
    to the constructor for a key that is a default, else the default
    value; for a key that is not a default it raises KeyError, also when
    the key was among the options given to the constructor. *)
Theorem option_of_constructed (name : string) (ins outs : list DatasetSpec)
    (description : string) (default_options : gmap string V)
    (citations : list string) (version : Z) (options : gmap string V)
    (p : Pipeline (V:=V)) (k : string) :
  __init__ study name ins outs description default_options citations
    version options = Ok p →
  option_of p k =
  match default_options !! k with
  | Some d => Ok (default d (options !! k))
  | None => Raise (KeyError k)
  end.
Proof.
  intros Hinit. apply init_options_fields in Hinit as [Hopt _].
  unfold option_of. rewrite Hopt, update_options_map.
  by destruct (default_options !! k).
Qed.

End option_properties.

Lemma non_default_options_differ_from_defaults_witness :
  ∃ items,
    non_default_options (λ v d : nat, negb (v =? d))
      (ex_pipeline 5 "prep_pipeline" {[ "threshold" := 7; "verbose" := 1 ]})
    = Ok items ∧
    (("threshold", 7) ∈ items ↔
     ∃ d, ({[ "threshold" := 5 ]} : gmap string nat) !! "threshold" = Some d ∧
          7 = default d (({[ "threshold" := 7; "verbose" := 1 ]}
                            : gmap string nat) !! "threshold") ∧
          negb (7 =? d) = true).
Proof.
  destruct (non_default_options_differ_from_defaults ex_study
              (λ v d : nat, negb (v =? d)) "prep"
              [mkDatasetSpec "primary" "nifti_gz"]
              [mkDatasetSpec "preproc" "nifti_gz"] ""
              ({[ "threshold" := 5 ]} : gmap string nat) [] 1
              {[ "threshold" := 7; "verbose" := 1 ]}
              (match __init__ ex_study "prep"
                       [mkDatasetSpec "primary" "nifti_gz"]
                       [mkDatasetSpec "preproc" "nifti_gz"] ""
                       ({[ "threshold" := 5 ]} : gmap string nat) [] 1
                       {[ "threshold" := 7; "verbose" := 1 ]} with
               | Ok p => p
               | Raise _ => ex_summary
               end)) as (items & Hitems & Hiff & _);
    [vm_compute; reflexivity|].
  exists items. split; [|apply Hiff].
  rewrite <- Hitems. vm_compute. reflexivity.
Defined.

Lemma option_of_constructed_witness :
  option_of (match __init__ ex_study "prep"
                     [mkDatasetSpec "primary" "nifti_gz"]
                     [mkDatasetSpec "preproc" "nifti_gz"] ""
                     ({[ "threshold" := 5 ]} : gmap string nat) [] 1
                     {[ "threshold" := 7; "verbose" := 1 ]} with
             | Ok p => p
             | Raise _ => ex_summary
             end) "verbose"
  = match ({[ "threshold" := 5 ]} : gmap string nat) !! "verbose" with
    | Some d => Ok (default d (({[ "threshold" := 7; "verbose" := 1 ]}
                                 : gmap string nat) !! "verbose"))
    | None => Raise (KeyError "verbose")
    end.
Proof.
  apply (option_of_constructed ex_study "prep"
           [mkDatasetSpec "primary" "nifti_gz"]
           [mkDatasetSpec "preproc" "nifti_gz"] ""
           ({[ "threshold" := 5 ]} : gmap string nat) [] 1
           {[ "threshold" := 7; "verbose" := 1 ]}).
  vm_compute. reflexivity.
Defined.

(** ** The shared objects of a run *)

Create HintDb framed discriminated.

Section frame_facts.
Context {V : Type} `{!EqDecision V}.

Lemma same_frame_refl (st : Run (V:=V)) : same_frame st st.
Proof. by repeat split. Qed.

Lemma same_frame_trans (st1 st2 st3 : Run (V:=V)) :
  same_frame st1 st2 → same_frame st2 st3 → same_frame st1 st3.
Proof. intros (?&?&?) (?&?&?). repeat split; congruence. Qed.

Lemma run_ok_same_frame (st st' : Run (V:=V)) :
  run_ok st → same_frame st st' → run_ok st'.
Proof. intros Hok (Hs & He & Hc). unfold run_ok. by rewrite Hs, He, Hc. Qed.

Lemma framed_ret {A : Type} (a : A) : framed (V:=V) (m_ret a).
Proof. intros st a' st' [= <- <-]. apply same_frame_refl. Qed.

Lemma framed_raise {A : Type} (e : exn) : framed (V:=V) (m_raise (A:=A) e).
Proof. intros st a st' [=]. Qed.

Lemma framed_lift {A : Type} (r : result A) : framed (V:=V) (m_lift r).
Proof.
  intros st a st'. unfold m_lift. destruct r; intros [=]; subst.
  apply same_frame_refl.
Qed.

Lemma framed_bind {A B : Type} (c : M (V:=V) A) (k : A → M B) :
  framed c → (∀ a, framed (k a)) → framed (m_bind c k).
Proof.
  intros Hc Hk st b st'' Hb. apply m_bind_ok in Hb as (a & st' & H1 & H2).
  eapply same_frame_trans; [by eapply Hc | by eapply Hk].
Qed.

Lemma framed_fold {A B : Type} (f : B → A → M (V:=V) A) (l : list B) (a : A) :
  (∀ b a, framed (f b a)) → framed (m_fold f l a).
Proof.
  intros Hf. revert a. induction l as [|b l IH]; intros a; simpl.
  - apply framed_ret.
  - apply framed_bind; [apply Hf | intros a'; apply IH].
Qed.

Lemma framed_set_iterables n its src : framed (V:=V) (set_iterables n its src).
Proof. intros st a st' [= <- <-]. by repeat split. Qed.

Lemma framed_connect src src_field dst dst_field :
  framed (V:=V) (connect src src_field dst dst_field).
Proof. intros st a st' [= <- <-]. by repeat split. Qed.

Lemma framed_if {A : Type} (b : bool) (c1 c2 : M (V:=V) A) :
  framed c1 → framed c2 → framed (if b then c1 else c2).
Proof. by destruct b. Qed.

Lemma framed_connect_reports (prereq_reports : Node) (reports : list Node)
    (i : nat) :
  framed (V:=V) (connect_reports prereq_reports i reports).
Proof.
  revert i. induction reports as [|r reports IH]; intros i; simpl.
  - apply framed_ret.
  - apply framed_bind; [apply framed_connect | intros _; apply IH].
Qed.

End frame_facts.

#[global] Hint Resolve framed_ret framed_raise framed_lift framed_set_iterables
  framed_connect framed_connect_reports : framed.
#[global] Hint Extern 2 (framed (m_bind _ _)) =>
  apply framed_bind; [|intros ?] : framed.
#[global] Hint Extern 2 (framed (m_fold _ _ _)) =>
  apply framed_fold; intros ? ? : framed.
#[global] Hint Extern 2 (framed (if _ then _ else _)) =>
  apply framed_if : framed.

Section run_properties.
Context {V : Type} `{!EqDecision V}.
Variable study : Study.
Variable getters : string → gmap string V → result (Pipeline (V:=V)).
Variable converter_fields : string → string → string * string.

Lemma framed_iterators (self : Pipeline (V:=V)) (serial : nat)
    (sessions : list Session) :
  framed (_subject_and_session_iterators self serial sessions).
Proof. unfold _subject_and_session_iterators. auto 10 with framed. Qed.

Lemma framed_connect_source_input (self : Pipeline (V:=V)) serial source inpt :
  framed (connect_source_input study converter_fields self serial source inpt).
Proof.
  unfold connect_source_input. case_decide; [|auto with framed].
  destruct (converter_fields _ _). auto with framed.
Qed.

Lemma framed_connect_sink_output (self : Pipeline (V:=V)) serial mult sink
    output :
  framed (connect_sink_output study converter_fields self serial mult sink
            output).
Proof.
  unfold connect_sink_output. destruct (processed _); [|auto with framed].
  apply framed_bind; [auto with framed|]. intros outputnode.
  case_decide; [|auto with framed].
  destruct (converter_fields _ _). auto with framed.
Qed.

Lemma framed_connect_to_reports (self : Pipeline (V:=V)) serial sink summary
    mult subjects sessions :
  framed (_connect_to_reports self serial sink summary mult subjects sessions).
Proof. destruct mult; simpl; auto 10 with framed. Qed.

Lemma framed_connect_sink (self : Pipeline (V:=V)) serial report subjects
    sessions group u :
  framed (connect_sink study converter_fields self serial report subjects
            sessions group u).
Proof.
  unfold connect_sink. destruct group as [mult outs].
  pose proof framed_connect_sink_output. pose proof framed_connect_to_reports.
  auto 10 with framed.
Qed.

Lemma framed_connect_source_and_sinks (self : Pipeline (V:=V)) serial subjects
    sessions :
  framed (connect_source_and_sinks study converter_fields self serial
            subjects sessions).
Proof.
  unfold connect_source_and_sinks.
  destruct (archive_source _ _); [auto with framed|].
  pose proof framed_connect_source_input. pose proof framed_connect_sink.
  auto 12 with framed.
Qed.

Lemma request_prereq_run_ok rec (self : Pipeline (V:=V)) ids vis r project pg
    reports st reports' st' :
  keeps_run_ok rec → run_ok st →
  request_prereq getters rec self ids vis r project pg reports st
    = Ok (reports', st') →
  run_ok st' ∧ next_serial st ≤ next_serial st'.
Proof.
  intros Hrec Hok. unfold request_prereq. intros H.
  apply m_bind_ok in H as (prereq & st1 & Hg & H).
  unfold m_lift in Hg. destruct (getters pg (_options self)) as [q|]; [|done].
  injection Hg as <- <-.
  apply m_bind_ok in H as (cached & st2 & Hl & H). injection Hl as <- <-.
  destruct (connected_prereqs st !! _name q) as [[cp tok]|] eqn:Hc.
  - destruct (Pipeline_neb cp q); [done|]. by injection H as <- <-.
  - apply m_bind_ok in H as (res & st3 & Hr & H).
    destruct (Hrec _ _ _ _ _ _ _ _ Hok Hr) as ((Hlt & Hnd & Hcache) & Hle & Hrep).
    destruct res as [report|]; [|by injection H as <- <-].
    apply m_bind_ok in H as ([] & st4 & Hs & H).
    injection Hs as <-. injection H as <- <-.
    split; [|done]. split; [done|]. split; [done|]. simpl.
    intros n p rep. destruct (decide (n = _name q)) as [->|Hne].
    + rewrite lookup_insert_eq. intros [= <- <-].
      destruct (Hrep report eq_refl) as [-> Hemb]. by repeat split.
    + rewrite lookup_insert_ne by done. apply Hcache.
Qed.

Lemma requests_run_ok rec (self : Pipeline (V:=V)) ids vis r project
    (pgs : list string) reports st reports' st' :
  keeps_run_ok rec → run_ok st →
  m_fold (request_prereq getters rec self ids vis r project) pgs reports st
    = Ok (reports', st') →
  run_ok st' ∧ next_serial st ≤ next_serial st'.
Proof.
  intros Hrec. revert reports st.
  induction pgs as [|pg pgs IH]; intros reports st Hok; simpl.
  - by intros [= <- <-].
  - intros H. apply m_bind_ok in H as (reports1 & st1 & H1 & H).
    apply request_prereq_run_ok in H1 as [Hok1 Hle1]; [|done|done].
    apply IH in H as [Hok2 Hle2]; [|done]. split; [done|lia].
Qed.

Lemma connect_prerequisites_run_ok rec (self : Pipeline (V:=V)) serial subjects
    sessions vis r project st reports st' :
  keeps_run_ok rec → run_ok st →
  connect_prerequisites study getters rec self serial subjects sessions vis r
    project st = Ok (reports, st') →
  run_ok st' ∧ next_serial st ≤ next_serial st'.
Proof.
  intros Hrec Hok. unfold connect_prerequisites.
  destruct (has_prerequisites study self); [|by intros [= <- <-]].
  intros H. apply m_bind_ok in H as (reports1 & st1 & H1 & H).
  apply requests_run_ok in H1 as [Hok1 Hle1]; [|done|done].
  assert (same_frame st1 st') as Hf.
  { destruct reports1 as [|r1 reports1].
    - injection H as <- <-. apply same_frame_refl.
    - apply m_bind_ok in H as ([] & sta & Ha & H).
      apply framed_connect_reports in Ha.
      apply m_bind_ok in H as ([] & stb & Hb & H).
      apply framed_connect in Hb. injection H as <- <-.
      by eapply same_frame_trans. }
  split; [exact (run_ok_same_frame st1 st' Hok1 Hf)|].
  destruct Hf as [-> _]. done.
Qed.

Lemma connect_body_run_ok rec (self : Pipeline (V:=V)) sids vis r proj st res st' :
  keeps_run_ok rec → run_ok st →
  connect_body study getters converter_fields rec self sids vis r proj st
    = Ok (res, st') →
  run_ok st' ∧ next_serial st ≤ next_serial st'.
Proof.
  intros Hrec Hok. unfold connect_body. intros H.
  apply m_bind_ok in H as ([] & st0 & Ha & H).
  unfold m_lift in Ha. destruct (assert_connected self) as [[]|]; [|done].
  injection Ha as <-.
  destruct (_sessions_to_process _ _ _ _ _) as [|s sessions].
  { by injection H as <- <-. }
  apply m_bind_ok in H as (serial & st1 & Hf & H). injection Hf as <- <-.
  apply m_bind_ok in H as ([] & st2 & Hw & H). injection Hw as <-.
  apply m_bind_ok in H as (nodes & st3 & Hi & H).
  apply framed_iterators in Hi.
  apply m_bind_ok in H as (reports & st4 & Hp & H).
  apply m_bind_ok in H as (report & st5 & Hs & H).
  apply framed_connect_source_and_sinks in Hs.
  injection H as <- <-.
  destruct Hok as (Hlt & Hnd & Hcache).
  assert (run_ok (mkRun (S (next_serial st))
                    (embedded st ++ [(next_serial st, _name self)])
                    (iterating st) (connections st) (connected_prereqs st)))
    as Hok2.
  { split; [|split]; simpl.
    - intros w Hw. apply elem_of_app in Hw as [Hw|Hw].
      + apply Hlt in Hw. lia.
      + apply list_elem_of_singleton in Hw as ->. simpl. lia.
    - rewrite fmap_app. apply list.NoDup_app. split; [done|]. split.
      + intros n Hn Hn'. apply list_elem_of_singleton in Hn' as ->.
        apply list_elem_of_fmap in Hn as (w & Hw1 & Hw).
        apply Hlt in Hw. simpl in Hw1. lia.
      + apply NoDup_singleton.
    - intros n p rep Hn. destruct (Hcache n p rep Hn) as (? & ? & ?).
      split; [done|]. split; [done|]. apply elem_of_app. by left. }
  pose proof (run_ok_same_frame _ _ Hok2 Hi) as Hok3.
  apply connect_prerequisites_run_ok in Hp as [Hok4 Hle4]; [|done|done].
  split; [exact (run_ok_same_frame st4 st5 Hok4 Hs)|].
  destruct Hi as [Hi _], Hs as [Hs _]. simpl in Hi. lia.
Qed.

Lemma connect_to_archive_keeps_run_ok (depth : nat) :
  keeps_run_ok (connect_to_archive study getters converter_fields depth).
Proof.
  induction depth as [|depth IH]; intros q ids vis r proj st res st' Hok H.
  - done.
  - simpl in H. pose proof H as H'.
    apply connect_body_run_ok in H as [Hok' Hle]; [|done|done].
    split; [done|]. split; [done|]. intros report ->.
    by apply (connect_to_archive_report study getters converter_fields
                (S depth) q ids vis r proj st report st').
Qed.

(** X19. [connect_to_archive] keeps [connected_prereqs] consistent:
    every name in it is the name of the pipeline stored under it, and the
    node stored with the pipeline is the report node of a workflow of
    that name embedded in the complete workflow. *)
Theorem connected_prereqs_consistent (depth : nat) (self : Pipeline (V:=V))
    (sids vis : option (list string)) (r : reprocess_flag)
    (proj : option Project) (st st' : Run (V:=V)) (res : option Node) :
  run_ok st →
  connect_to_archive study getters converter_fields depth self sids vis r proj
    st = Ok (res, st') →
  ∀ n p report, connected_prereqs st' !! n = Some (p, report) →
    _name p = n ∧ node_name report = node_name_of n "report" ∧
    (node_owner report, n) ∈ embedded st'.
Proof.
  intros Hok H.
  apply connect_to_archive_keeps_run_ok in H as ((_ & _ & Hcache) & _);
    [|done].
  exact Hcache.
Qed.

End run_properties.

Lemma ex_run_ok : run_ok ex_run.
Proof.
  split; [|split]; simpl.
  - intros w Hw. by apply elem_of_nil in Hw.
  - constructor.
  - intros n p report Hn. by rewrite lookup_empty in Hn.
Qed.

Lemma connected_prereqs_consistent_witness :
  _name (ex_pipeline 5 "prep_pipeline" ∅) = "prep" ∧
  node_name (mkNode 2 "prep_report") = node_name_of "prep" "report" ∧
  (node_owner (mkNode 2 "prep_report"), "prep") ∈ embedded ex_run_summary.
Proof.
  refine (connected_prereqs_consistent ex_study (ex_getters 5)
            ex_converter_fields 4 ex_summary None None RFalse None ex_run
            ex_run_summary (Some (mkNode 0 "summary_report")) ex_run_ok _
            "prep" (ex_pipeline 5 "prep_pipeline" ∅) (mkNode 2 "prep_report")
            _).
  - vm_compute. reflexivity.
  - vm_compute. reflexivity.
Defined.

Create HintDb growing discriminated.

Section growth_facts.
Context {V : Type} `{!EqDecision V}.

Lemma grows_refl (st : Run (V:=V)) : grows st st.
Proof. by repeat split. Qed.

Lemma grows_trans (st1 st2 st3 : Run (V:=V)) :
  grows st1 st2 → grows st2 st3 → grows st1 st3.
Proof.
  intros (H1 & H2 & H3 & H4) (H5 & H6 & H7 & H8).
  repeat split; by etrans.
Qed.

Lemma growing_ret {A : Type} (a : A) : growing (V:=V) (m_ret a).
Proof. intros st a' st' [= <- <-]. apply grows_refl. Qed.

Lemma growing_raise {A : Type} (e : exn) : growing (V:=V) (m_raise (A:=A) e).
Proof. intros st a st' [=]. Qed.

Lemma growing_lift {A : Type} (r : result A) : growing (V:=V) (m_lift r).
Proof.
  intros st a st'. unfold m_lift. destruct r; intros [=]; subst.
  apply grows_refl.
Qed.

Lemma growing_bind {A B : Type} (c : M (V:=V) A) (k : A → M B) :
  growing c → (∀ a, growing (k a)) → growing (m_bind c k).
Proof.
  intros Hc Hk st b st'' Hb. apply m_bind_ok in Hb as (a & st' & H1 & H2).
  eapply grows_trans; [by eapply Hc | by eapply Hk].
Qed.

Lemma growing_fold {A B : Type} (f : B → A → M (V:=V) A) (l : list B) (a : A) :
  (∀ b a, growing (f b a)) → growing (m_fold f l a).
Proof.
  intros Hf. revert a. induction l as [|b l IH]; intros a; simpl.
  - apply growing_ret.
  - apply growing_bind; [apply Hf | intros a'; apply IH].
Qed.

Lemma growing_fresh_serial : growing (V:=V) fresh_serial.
Proof. intros st a st' [= <- <-]. by repeat split. Qed.

Lemma growing_add_workflow (serial : nat) (name : string) :
  growing (V:=V) (add_workflow serial name).
Proof.
  intros st a st' [= <- <-]. repeat split; simpl; try done.
  by apply prefix_app_r.
Qed.

Lemma growing_set_iterables n its src :
  growing (V:=V) (set_iterables n its src).
Proof.
  intros st a st' [= <- <-]. repeat split; simpl; try done.
  by apply prefix_app_r.
Qed.

Lemma growing_connect src src_field dst dst_field :
  growing (V:=V) (connect src src_field dst dst_field).
Proof.
  intros st a st' [= <- <-]. repeat split; simpl; try done.
  by apply prefix_app_r.
Qed.

Lemma growing_lookup_prereq (name : string) :
  growing (V:=V) (lookup_prereq name).
Proof. intros st a st' [= <- <-]. apply grows_refl. Qed.

Lemma growing_if {A : Type} (b : bool) (c1 c2 : M (V:=V) A) :
  growing c1 → growing c2 → growing (if b then c1 else c2).
Proof. by destruct b. Qed.

Lemma growing_connect_reports (prereq_reports : Node) (reports : list Node)
    (i : nat) :
  growing (V:=V) (connect_reports prereq_reports i reports).
Proof.
  revert i. induction reports as [|r reports IH]; intros i; simpl.
  - apply growing_ret.
  - apply growing_bind; [apply growing_connect | intros _; apply IH].
Qed.

End growth_facts.

#[global] Hint Resolve growing_ret growing_raise growing_lift
  growing_fresh_serial growing_add_workflow growing_set_iterables
  growing_connect growing_lookup_prereq growing_connect_reports : growing.
#[global] Hint Extern 2 (growing (m_bind _ _)) =>
  apply growing_bind; [|intros ?] : growing.
#[global] Hint Extern 2 (growing (m_fold _ _ _)) =>
  apply growing_fold; intros ? ? : growing.
#[global] Hint Extern 2 (growing (if _ then _ else _)) =>
  apply growing_if : growing.

Section growth_properties.
Context {V : Type} `{!EqDecision V}.
Variable study : Study.
Variable getters : string → gmap string V → result (Pipeline (V:=V)).
Variable converter_fields : string → string → string * string.

Lemma growing_iterators (self : Pipeline (V:=V)) (serial : nat)
    (sessions : list Session) :
  growing (_subject_and_session_iterators self serial sessions).
Proof. unfold _subject_and_session_iterators. auto 10 with growing. Qed.

Lemma growing_connect_source_input (self : Pipeline (V:=V)) serial source inpt :
  growing (connect_source_input study converter_fields self serial source inpt).
Proof.
  unfold connect_source_input. case_decide; [|auto with growing].
  destruct (converter_fields _ _). auto with growing.
Qed.

Lemma growing_connect_sink_output (self : Pipeline (V:=V)) serial mult sink
    output :
  growing (connect_sink_output study converter_fields self serial mult sink
             output).
Proof.
  unfold connect_sink_output. destruct (processed _); [|auto with growing].
  apply growing_bind; [auto with growing|]. intros outputnode.
  case_decide; [|auto with growing].
  destruct (converter_fields _ _). auto with growing.
Qed.

Lemma growing_connect_to_reports (self : Pipeline (V:=V)) serial sink summary
    mult subjects sessions :
  growing (_connect_to_reports self serial sink summary mult subjects sessions).
Proof. destruct mult; simpl; auto 10 with growing. Qed.

Lemma growing_connect_sink (self : Pipeline (V:=V)) serial report subjects
    sessions group u :
  growing (connect_sink study converter_fields self serial report subjects
             sessions group u).
Proof.
  unfold connect_sink. destruct group as [mult outs].
  pose proof growing_connect_sink_output. pose proof growing_connect_to_reports.
  auto 10 with growing.
Qed.

Lemma growing_connect_source_and_sinks (self : Pipeline (V:=V)) serial subjects
    sessions :
  growing (connect_source_and_sinks study converter_fields self serial
             subjects sessions).
Proof.
  unfold connect_source_and_sinks.
  destruct (archive_source _ _); [auto with growing|].
  pose proof growing_connect_source_input. pose proof growing_connect_sink.
  auto 12 with growing.
Qed.

(** A request stores the prerequisite under a name that
    [connected_prereqs] did not hold when the request began. *)
Lemma growing_request_prereq rec (self : Pipeline (V:=V)) ids vis r project
    pg reports :
  (∀ q ids vis r proj, growing (rec q ids vis r proj)) →
  growing (request_prereq getters rec self ids vis r project pg reports).
Proof.
  intros Hrec st rs st'. unfold request_prereq. intros H.
  apply m_bind_ok in H as (prereq & st1 & Hg & H).
  unfold m_lift in Hg. destruct (getters pg (_options self)) as [q|]; [|done].
  injection Hg as <- <-.
  apply m_bind_ok in H as (cached & st2 & Hl & H).
  injection Hl as <- <-.
  destruct (connected_prereqs st !! _name q) as [[cp tok]|] eqn:Hc.
  - destruct (Pipeline_neb cp q); [done|].
    injection H as <- <-. apply grows_refl.
  - apply m_bind_ok in H as (res & st3 & Hr & H).
    apply Hrec in Hr as (He & Hi & Hn & Hp). destruct res as [report|].
    + apply m_bind_ok in H as ([] & st4 & Hs & H).
      injection Hs as <-. injection H as <- <-.
      repeat split; simpl; try done.
      apply map_subseteq_spec. intros n e Hlook.
      rewrite lookup_insert_ne by (intros <-; congruence).
      by apply (proj1 (map_subseteq_spec _ _) Hp).
    + injection H as <- <-. by repeat split.
Qed.

Lemma growing_connect_prerequisites rec (self : Pipeline (V:=V)) serial
    subjects sessions vis r project :
  (∀ q ids vis r proj, growing (rec q ids vis r proj)) →
  growing (connect_prerequisites study getters rec self serial subjects
             sessions vis r project).
Proof.
  intros Hrec. unfold connect_prerequisites.
  destruct (has_prerequisites study self); [|auto with growing].
  apply growing_bind.
  - apply growing_fold. intros pg reports.
    by apply growing_request_prereq.
  - intros [|? ?]; auto 10 with growing.
Qed.

Lemma growing_connect_body rec (self : Pipeline (V:=V)) sids vis r proj :
  (∀ q ids vis r proj, growing (rec q ids vis r proj)) →
  growing (connect_body study getters converter_fields rec self sids vis r
             proj).
Proof.
  intros Hrec. unfold connect_body.
  apply growing_bind; [auto with growing|]. intros [].
  destruct (_sessions_to_process _ _ _ _ _); [auto with growing|].
  pose proof growing_iterators. pose proof growing_connect_source_and_sinks.
  pose proof (λ serial subjects sessions vis r project,
                growing_connect_prerequisites rec self serial subjects
                  sessions vis r project Hrec).
  auto 12 with growing.
Qed.

Lemma growing_connect_to_archive (depth : nat) (self : Pipeline (V:=V)) sids vis
    r proj :
  growing (connect_to_archive study getters converter_fields depth self sids
             vis r proj).
Proof.
  revert self sids vis r proj. induction depth as [|depth IH];
    intros self sids vis r proj; simpl.
  - apply growing_raise.
  - by apply growing_connect_body.
Qed.

(** X18. [connect_to_archive] only adds to the shared objects: when
    it returns, the workflows embedded in the complete workflow, the
    iterables and the connections are those it found, in their order,
    followed by the ones it added, and every name that
    [connected_prereqs] held is still held with the same instance and
    report node. *)
Theorem connect_to_archive_only_adds (depth : nat) (self : Pipeline (V:=V))
    (sids vis : option (list string)) (r : reprocess_flag)
    (proj : option Project) (st st' : Run (V:=V)) (res : option Node) :
  connect_to_archive study getters converter_fields depth self sids vis r proj
    st = Ok (res, st') →
  embedded st `prefix_of` embedded st' ∧
  iterating st `prefix_of` iterating st' ∧
  connections st `prefix_of` connections st' ∧
  connected_prereqs st ⊆ connected_prereqs st'.
Proof. apply growing_connect_to_archive. Qed.

End growth_properties.

Lemma connect_to_archive_only_adds_witness :
  embedded (ex_run_after_extract 5)
    `prefix_of` embedded ex_run_after_segment ∧
  iterating (ex_run_after_extract 5)
    `prefix_of` iterating ex_run_after_segment ∧
  connections (ex_run_after_extract 5)
    `prefix_of` connections ex_run_after_segment ∧
  connected_prereqs (ex_run_after_extract 5)
    ⊆ connected_prereqs ex_run_after_segment.
Proof.
  apply (connect_to_archive_only_adds ex_study (ex_getters 5)
           ex_converter_fields 3 (ex_segment 5) None None RFalse None
           (ex_run_after_extract 5) ex_run_after_segment
           (Some (mkNode 1 "segment_report"))).
  vm_compute. reflexivity.
Defined.


Section connection_properties.
Context {V : Type} `{!EqDecision V}.
Variable study : Study.
Variable getters : string → gmap string V → result (Pipeline (V:=V)).
Variable converter_fields : string → string → string * string.

(** Without processed inputs the body never calls [connect_to_archive]. *)
Lemma connect_body_primary rec1 rec2 (self : Pipeline (V:=V)) sids vis r proj st :
  has_prerequisites study self = false →
  connect_body study getters converter_fields rec1 self sids vis r proj st
  = connect_body study getters converter_fields rec2 self sids vis r proj st.
Proof.
  intros Hnp. unfold connect_body, m_bind, connect_prerequisites.
  by rewrite Hnp.
Qed.

(** X20. A pipeline none of whose inputs is processed is connected
    without any further call of [connect_to_archive]: the result is the
    same at every depth; [connected_prereqs] is left as it is, and when a
    report is returned exactly one workflow has been embedded, under the
    serial number that was next. *)
Theorem primary_pipeline_connects_alone (depth : nat)
    (self : Pipeline (V:=V)) (sids vis : option (list string))
    (r : reprocess_flag) (proj : option Project) (st : Run (V:=V)) :
  has_prerequisites study self = false →
  connect_to_archive study getters converter_fields (S depth) self sids vis r
    proj st
  = connect_to_archive study getters converter_fields 1 self sids vis r proj st ∧
  ∀ res st',
    connect_to_archive study getters converter_fields (S depth) self sids vis
      r proj st = Ok (res, st') →
    connected_prereqs st' = connected_prereqs st ∧
    (res = None → st' = st) ∧
    (∀ report, res = Some report →
       embedded st' = embedded st ++ [(next_serial st, _name self)] ∧
       next_serial st' = S (next_serial st)).
Proof.
  intros Hnp. split; [by apply connect_body_primary|].
  intros res st'. simpl. unfold connect_body. intros H.
  apply m_bind_ok in H as ([] & st0 & Ha & H).
  unfold m_lift in Ha. destruct (assert_connected self) as [[]|]; [|done].
  injection Ha as <-.
  destruct (_sessions_to_process _ _ _ _ _) as [|s sessions].
  { injection H as <- <-. by repeat split. }
  apply m_bind_ok in H as (serial & st1 & Hf & H). injection Hf as <- <-.
  apply m_bind_ok in H as ([] & st2 & Hw & H). injection Hw as <-.
  apply m_bind_ok in H as (nodes & st3 & Hi & H).
  apply framed_iterators in Hi as (Hi1 & Hi2 & Hi3).
  apply m_bind_ok in H as (reports & st4 & Hp & H).
  unfold connect_prerequisites in Hp. rewrite Hnp in Hp.
  injection Hp as <- <-.
  apply m_bind_ok in H as (report & st5 & Hs & H).
  apply framed_connect_source_and_sinks in Hs as (Hs1 & Hs2 & Hs3).
  injection H as <- <-. simpl in *.
  split; [congruence|]. split; [done|]. intros _ _. split; congruence.
Qed.

(** X21. When building the source raises the missing-dataset error
    for a connected pipeline without processed inputs that has sessions to
    process, [connect_to_archive] raises that error with the name of the
    pipeline appended to the message; a dependent that requests the
    pipeline as a prerequisite raises the same error, which names the
    prerequisite. *)
Theorem missing_dataset_names_pipeline (depth : nat) (self : Pipeline (V:=V))
    (sids vis : option (list string)) (r : reprocess_flag)
    (proj : option Project) (msg : string) :
  assert_connected self = Ok tt →
  has_prerequisites study self = false →
  _sessions_to_process (dataset study) (outputs self)
    (match proj with
     | None => archive_project study sids vis
     | Some p => p
     end) vis r ≠ [] →
  archive_source study ((λ i, dataset study (spec_name i)) <$> inputs self)
    = Some msg →
  (∀ st, connect_to_archive study getters converter_fields (S depth) self sids
           vis r proj st
         = Raise (NiAnalysisMissingDatasetError
                    (msg +:+ ", which is required for pipeline '" +:+
                     _name self +:+ "'"))) ∧
  (∀ dependent ids r' p pg reports st,
     proj = Some p → r = prereq_reprocess r' →
     getters pg (_options dependent) = Ok self →
     connected_prereqs st !! _name self = None →
     request_prereq getters
       (connect_to_archive study getters converter_fields (S depth))
       dependent ids vis r' p pg reports st
     = Raise (NiAnalysisMissingDatasetError
                (msg +:+ ", which is required for pipeline '" +:+
                 _name self +:+ "'"))).
Proof.
  intros Ha Hnp Hs Hsrc.
  assert (∀ sids st, connect_to_archive study getters converter_fields
                  (S depth) self sids vis r
                  (match proj with
                   | None => None
                   | Some p => Some p
                   end) st
               = connect_to_archive study getters converter_fields
                  (S depth) self sids vis r proj st) as Hproj
    by (intros; by destruct proj).
  assert (∀ st, connect_to_archive study getters converter_fields (S depth)
                  self sids vis r proj st
                = Raise (NiAnalysisMissingDatasetError
                           (msg +:+ ", which is required for pipeline '" +:+
                            _name self +:+ "'"))) as Hraise.
  { intros st. simpl. unfold connect_body, m_bind, m_lift. rewrite Ha.
    destruct (_sessions_to_process _ _ _ _ _) as [|s sessions]; [done|].
    unfold fresh_serial, add_workflow, _subject_and_session_iterators, m_bind,
      set_iterables, connect, m_ret, connect_prerequisites.
    rewrite Hnp. unfold m_ret, connect_source_and_sinks. by rewrite Hsrc. }
  split; [exact Hraise|].
  intros dependent ids r' p pg reports st -> -> Hq Hmiss.
  unfold request_prereq, m_bind, m_lift, lookup_prereq.
  rewrite Hq, Hmiss.
  assert (connect_to_archive study getters converter_fields (S depth) self
            (Some ids) vis (prereq_reprocess r') (Some p) st
          = Raise (NiAnalysisMissingDatasetError
                     (msg +:+ ", which is required for pipeline '" +:+
                      _name self +:+ "'"))) as ->; [|done].
  simpl. unfold connect_body, m_bind, m_lift. rewrite Ha.
  simpl in Hs. destruct (_sessions_to_process _ _ _ _ _) as [|s sessions]; [done|].
  unfold fresh_serial, add_workflow, _subject_and_session_iterators, m_bind,
    set_iterables, connect, m_ret, connect_prerequisites.
  rewrite Hnp. unfold m_ret, connect_source_and_sinks. by rewrite Hsrc.
Qed.

(** X22. The reports of the prerequisites are connected to the merge
    node in their order, each through its field 'subject_session_pairs':
    counting from [i], which is 1 in [connect_to_archive], the first goes
    to the field 'in1', the next to 'in2' and so on; nothing else is
    changed. *)
Theorem reports_merged_in_order (prereq_reports : Node) (i : nat)
    (reports : list Node) (st : Run (V:=V)) :
  connect_reports prereq_reports i reports st
  = Ok (tt, mkRun (next_serial st) (embedded st) (iterating st)
              (connections st ++
               imap (λ k report,
                       (report, "subject_session_pairs", prereq_reports,
                        "in" +:+ pretty (i + k)))
                    reports)
              (connected_prereqs st)).
Proof.
  revert i st. induction reports as [|report reports IH]; intros i st.
  - simpl. unfold m_ret. rewrite app_nil_r. by destruct st.
  - simpl. unfold m_bind, connect. rewrite IH. simpl.
    rewrite <- app_assoc. simpl. rewrite Nat.add_0_r.
    do 5 f_equal. apply imap_ext. intros k x _. simpl.
    by rewrite Nat.add_succ_r.
Qed.

End connection_properties.

Lemma primary_pipeline_connects_alone_witness :
  connect_to_archive ex_study (ex_getters 5) ex_converter_fields 3
    (ex_pipeline 5 "prep_pipeline" ∅) None None RFalse None ex_run
  = connect_to_archive ex_study (ex_getters 5) ex_converter_fields 1
      (ex_pipeline 5 "prep_pipeline" ∅) None None RFalse None ex_run.
Proof.
  apply (primary_pipeline_connects_alone ex_study (ex_getters 5)
           ex_converter_fields 2 (ex_pipeline 5 "prep_pipeline" ∅)
           None None RFalse None ex_run).
  vm_compute. reflexivity.
Defined.

Lemma missing_dataset_names_pipeline_witness :
  connect_to_archive ex_study_incomplete (ex_getters 5) ex_converter_fields 1
    (ex_pipeline 5 "prep_pipeline" ∅) None None RFalse None ex_run
  = Raise (NiAnalysisMissingDatasetError
             ("Dataset 'primary' is missing from the archive" +:+
              ", which is required for pipeline '" +:+
              _name (ex_pipeline 5 "prep_pipeline" ∅) +:+ "'")).
Proof.
  destruct (missing_dataset_names_pipeline ex_study_incomplete (ex_getters 5)
              ex_converter_fields 0 (ex_pipeline 5 "prep_pipeline" ∅)
              None None RFalse None
              "Dataset 'primary' is missing from the archive") as [Hraise _].
  - vm_compute. reflexivity.
  - vm_compute. reflexivity.
  - vm_compute. discriminate.
  - vm_compute. reflexivity.
  - apply (Hraise ex_run).
Defined.

(** ** Submission to a scheduler *)

Section submit_properties.
Context {V : Type} `{!EqDecision V}.
Variable study : Study.
Variable getters : string → gmap string V → result (Pipeline (V:=V)).
Variable converter_fields : string → string → string * string.

(** X23. [submit] raises NiAnalysisError when no email is given and
    EMAIL is not in the environment, whatever the scheduler; with an email
    it raises the usage error for every scheduler but 'slurm', before
    anything is connected, so also for a pipeline that is not fully
    wired; for 'slurm' it fails exactly when the connection to the archive
    raises, and otherwise runs the workflow with the sbatch arguments of
    the email and the mail types. *)
Theorem submit_outcomes (environ : gmap string string) (depth : nat)
    (self : Pipeline (V:=V)) (scheduler : string) (email : option string)
    (mail_on : list string) (sids vis : option (list string))
    (r : reprocess_flag) (proj : option Project) :
  (email = None → environ !! "EMAIL" = None →
   submit study getters converter_fields environ depth self scheduler email
     mail_on sids vis r proj
   = inl (raised_exn (NiAnalysisError
       "'email' needs to be provided if 'EMAIL' environment variable not set"))) ∧
  (∀ e, email = Some e ∨ (email = None ∧ environ !! "EMAIL" = Some e) →
     (scheduler ≠ "slurm" →
      submit study getters converter_fields environ depth self scheduler email
        mail_on sids vis r proj
      = inl (NiAnalysisUsageError
               ("Unsupported scheduler '" +:+ scheduler +:+ "'"))) ∧
     (scheduler = "slurm" →
      submit study getters converter_fields environ depth self scheduler email
        mail_on sids vis r proj
      = match connect_to_archive_top study getters converter_fields depth self
                sids vis r proj (mkRun 0 [] [] [] ∅) with
        | Ok res => inr (sbatch_args e mail_on, res)
        | Raise ex => inl (raised_exn ex)
        end)) ∧
  (∀ e, sbatch_args e ["END"; "FAIL"]
        = "--mail-user=" +:+ e +:+ " --mail-type=END --mail-type=FAIL").
Proof.
  split; [|split].
  - intros -> He. unfold submit. by rewrite He.
  - intros e He. unfold submit.
    assert (match email with
            | Some e0 => Some e0
            | None => environ !! "EMAIL"
            end = Some e) as -> by (by destruct He as [->|[-> ->]]).
    split; intros Hs; [by rewrite decide_False|by rewrite decide_True].
  - intros e. unfold sbatch_args. simpl.
    assert (∀ a b c : string, (a +:+ b) +:+ c = a +:+ b +:+ c) as Hassoc.
    { intros a b c. induction a as [|ch a IH]; [done|].
      change (String ch ((a +:+ b) +:+ c) = String ch (a +:+ b +:+ c)).
      by f_equal. }
    by rewrite !Hassoc.
Qed.

End submit_properties.

Lemma submit_outcomes_witness :
  submit ex_study (ex_getters 5) ex_converter_fields ∅ 4 ex_summary "pbs"
    (Some "me@example.org") ["END"; "FAIL"] None None RFalse None
  = inl (NiAnalysisUsageError ("Unsupported scheduler '" +:+ "pbs" +:+ "'")).
Proof.
  destruct (submit_outcomes ex_study (ex_getters 5) ex_converter_fields ∅ 4
              ex_summary "pbs" (Some "me@example.org") ["END"; "FAIL"]
              None None RFalse None) as (_ & Hsched & _).
  destruct (Hsched "me@example.org") as [Husage _]; [left; reflexivity|].
  apply Husage. discriminate.
Defined.

(** ** Paths of atlases *)

Section atlas_properties.
Variable abspath : string → string.
Variable environ : gmap string string.

Lemma fsl_reference_file_outcome (file : string) :
  (∀ fsldir, environ !! "FSLDIR" = Some fsldir →
     ∃ path, fsl_reference_file environ file = inr path) ∧
  (environ !! "FSLDIR" = None →
     fsl_reference_file environ file = inl (EnvironKeyError "FSLDIR")).
Proof.
  unfold fsl_reference_file, get_fsl_reference_path.
  split; [intros fsldir ->; eauto | by intros ->].
Qed.

(** The three outcomes of [get_atlas_path]. *)
Lemma get_atlas_path_outcome (name dataset resolution : string) :
  (¬ atlas_arguments_valid name dataset resolution ∧
   ∃ msg, get_atlas_path abspath environ name dataset resolution
          = inl (ArcanaError msg)) ∨
  (atlas_arguments_valid name dataset resolution ∧
   environ !! "FSLDIR" = None ∧
   get_atlas_path abspath environ name dataset resolution
   = inl (EnvironKeyError "FSLDIR")) ∨
  (atlas_arguments_valid name dataset resolution ∧
   is_Some (environ !! "FSLDIR") ∧
   ∃ path, get_atlas_path abspath environ name dataset resolution = inr path).
Proof.
  assert (∀ file,
    (environ !! "FSLDIR" = None ∧
     match fsl_reference_file environ file with
     | inr path => inr (abspath path)
     | inl e => inl e
     end = inl (EnvironKeyError "FSLDIR")) ∨
    (is_Some (environ !! "FSLDIR") ∧
     ∃ path, match fsl_reference_file environ file with
             | inr path => inr (abspath path)
             | inl e => inl e
             end = inr path)) as Hfile.
  { intros file. destruct (fsl_reference_file_outcome file) as [Hs Hn].
    destruct (environ !! "FSLDIR") as [fsldir|] eqn:Henv.
    - right. split; [eauto|]. destruct (Hs fsldir eq_refl) as [path ->]. eauto.
    - left. split; [done|]. by rewrite Hn. }
  unfold get_atlas_path.
  destruct (decide (name = "MNI152")) as [Hname|Hname];
    [|left; split; [by intros (? & _)|eauto]].
  destruct (decide (resolution ∉ ["0.5mm"; "1mm"; "2mm"])) as [Hres|Hres];
    [left; split; [by intros (_ & ? & _)|eauto]|].
  apply dec_stable in Hres.
  destruct (decide (dataset = "image")) as [->|Hd1].
  { assert (atlas_arguments_valid name "image" resolution) as Hv
      by (split; [done|]; split; [done|]; left; left).
    match goal with
    | |- context [fsl_reference_file environ ?f] =>
      destruct (Hfile f) as [[? ?]|[? ?]]
    end; [right; left|right; right]; done. }
  destruct (decide (dataset = "mask")) as [->|Hd2].
  { assert (atlas_arguments_valid name "mask" resolution) as Hv
      by (split; [done|]; split; [done|]; left; right; left).
    match goal with
    | |- context [fsl_reference_file environ ?f] =>
      destruct (Hfile f) as [[? ?]|[? ?]]
    end; [right; left|right; right]; done. }
  destruct (decide (dataset = "mask_dilated")) as [->|Hd3].
  { destruct (decide (resolution ≠ "2mm")) as [Hr2|Hr2].
    - left. split; [|eauto]. intros (_ & _ & [Hin|[_ ?]]); [|done].
      apply list_elem_of_In in Hin. simpl in Hin.
      destruct Hin as [?|[?|[?|[]]]]; discriminate.
    - apply dec_stable in Hr2.
      assert (atlas_arguments_valid name "mask_dilated" resolution) as Hv
        by (split; [done|]; split; [done|]; by right).
      match goal with
      | |- context [fsl_reference_file environ ?f] =>
        destruct (Hfile f) as [[? ?]|[? ?]]
      end; [right; left|right; right]; done. }
  destruct (decide (dataset = "brain")) as [->|Hd4].
  { assert (atlas_arguments_valid name "brain" resolution) as Hv
      by (split; [done|]; split; [done|]; left; right; right; left).
    match goal with
    | |- context [fsl_reference_file environ ?f] =>
      destruct (Hfile f) as [[? ?]|[? ?]]
    end; [right; left|right; right]; done. }
  left. split; [|eauto]. intros (_ & _ & [Hin|[? _]]); [|done].
  apply list_elem_of_In in Hin. simpl in Hin.
  destruct Hin as [?|[?|[?|[]]]]; congruence.
Qed.

(** X24. [get_atlas_path] returns a path exactly when the atlas is
    'MNI152', the resolution is one of '0.5mm', '1mm' and '2mm', the
    dataset is 'image', 'mask' or 'brain', or 'mask_dilated' at '2mm',
    and FSLDIR is in the environment. *)
Theorem atlas_path_returned_iff (name dataset resolution : string) :
  (∃ path, get_atlas_path abspath environ name dataset resolution = inr path) ↔
  atlas_arguments_valid name dataset resolution ∧
  is_Some (environ !! "FSLDIR").
Proof.
  destruct (get_atlas_path_outcome name dataset resolution)
    as [(Hn & msg & Hm)|[(Hv & He & Hk)|(Hv & He & Hp)]].
  - rewrite Hm. split; [by intros [? ?]|tauto].
  - rewrite Hk, He. split; [by intros [? ?]|]. by intros [_ [? ?]].
  - tauto.
Qed.

(** X25. [get_atlas_path] reports arguments it does not accept as
    ArcanaError whether FSLDIR is set or not; the KeyError of the missing
    FSLDIR is raised only for arguments it accepts. *)
Theorem atlas_arguments_checked_first (name dataset resolution : string) :
  (¬ atlas_arguments_valid name dataset resolution ↔
   ∃ msg, get_atlas_path abspath environ name dataset resolution
          = inl (ArcanaError msg)) ∧
  (∀ key, get_atlas_path abspath environ name dataset resolution
          = inl (EnvironKeyError key) ↔
          key = "FSLDIR" ∧ atlas_arguments_valid name dataset resolution ∧
          environ !! "FSLDIR" = None).
Proof.
  destruct (get_atlas_path_outcome name dataset resolution)
    as [(Hn & msg & Hm)|[(Hv & He & Hk)|(Hv & He & path & Hp)]].
  - rewrite Hm. split; [split; eauto|]. intros key. split; [done|tauto].
  - rewrite Hk. split.
    + split; [done|]. by intros [? ?].
    + intros key. split; [by intros [= <-]|]. by intros (-> & _).
  - rewrite Hp. split.
    + split; [done|]. by intros [? ?].
    + intros key. split; [done|]. intros (_ & _ & Hnone).
      rewrite Hnone in He. by destruct He.
Qed.

End atlas_properties.
